(** * hledger tax summary: the calculators of [taxes.py] and the output
      parser of [utils.py]

    The calculators are written once, over an interface [PyFloat] of the
    Python number operations they use, and read at two instances:
    - [Binary64]: IEEE 754 binary64 with round-to-nearest-even, which is what
      a Python [float] is; every constant and operation evaluates to the
      value CPython computes;
    - [Exact]: the rationals, the arithmetic without rounding or overflow
      that the bracket tables are written for.

    File input is explicit: the content of [hledger_parameters/personal.yaml]
    is a [PersonalParams], and [load_tax_params] is a function of the year. *)

From Stdlib Require Import ZArith QArith Qabs Qpower Qfield Floats.
From Stdlib Require Import List String Ascii Bool Lia Lqa Permutation.
From Stdlib Require Import DecimalString DecimalZ DecimalPos.
Import ListNotations.

Set Warnings "-inexact-float".

(** ** Python numbers *)

(** The operations of a Python [float] used by the program.  [flt a b] is
    [a < b] (so [a > b] is [flt b a]), [fle a b] is [a <= b], [feq a b] is
    [a == b]; [of_int] converts an [int]; [lit] reads a decimal literal of
    the source text. *)
Class PyFloat (F : Type) : Type := {
  fadd : F -> F -> F;
  fsub : F -> F -> F;
  fmul : F -> F -> F;
  fdiv : F -> F -> F;
  fneg : F -> F;
  fabs : F -> F;
  flt : F -> F -> bool;
  fle : F -> F -> bool;
  feq : F -> F -> bool;
  of_int : Z -> F;
  lit : Q -> F
}.

Arguments lit {F _} q%_Q.
Arguments of_int {F _} n%_Z.

Declare Scope py_scope.
Delimit Scope py_scope with py.
Infix "+" := fadd : py_scope.
Infix "-" := fsub : py_scope.
Infix "*" := fmul : py_scope.
Infix "/" := fdiv : py_scope.
Notation "- x" := (fneg x) : py_scope.
Infix "<?" := flt : py_scope.
Infix "<=?" := fle : py_scope.
Infix "=?" := feq : py_scope.

(** [int] to binary64, rounding to nearest even as CPython does (an [int]
    beyond the binary64 range, which CPython refuses with OverflowError,
    reads as an infinity). *)
Definition b64_of_int (n : Z) : float :=
  SF2Prim (binary_normalize prec emax n 0 false).

(** A decimal literal [m / 10^k]: numerator and denominator are exact in
    binary64 for every literal of the program, and the division rounds
    correctly, so this is the double nearest to the literal. *)
Definition b64_lit (q : Q) : float :=
  PrimFloat.div (b64_of_int (Qnum q)) (b64_of_int (Zpos (Qden q))).

#[export] Instance Binary64 : PyFloat float := {
  fadd := PrimFloat.add;
  fsub := PrimFloat.sub;
  fmul := PrimFloat.mul;
  fdiv := PrimFloat.div;
  fneg := PrimFloat.opp;
  fabs := PrimFloat.abs;
  flt := PrimFloat.ltb;
  fle := PrimFloat.leb;
  feq := PrimFloat.eqb;
  of_int := b64_of_int;
  lit := b64_lit
}.

#[export] Instance Exact : PyFloat Q := {
  fadd := Qplus;
  fsub := Qminus;
  fmul := Qmult;
  fdiv := Qdiv;
  fneg := Qopp;
  fabs := Qabs;
  flt := fun a b => negb (Qle_bool b a);
  fle := Qle_bool;
  feq := Qeq_bool;
  of_int := inject_Z;
  lit := fun q => q
}.

(** ** Python builtins and outcomes *)

Inductive exn : Type := ValueError | IndexError.

(** What a call does: it returns a value or raises. *)
Inductive result (A : Type) : Type :=
| Ok (a : A)
| Raise (e : exn).

Arguments Ok {A} a.
Arguments Raise {A} e.

(** [d.get(key, default)] on a key that is present or not. *)
Definition get_or {A : Type} (o : option A) (default : A) : A :=
  match o with
  | Some v => v
  | None => default
  end.

(** A YAML mapping with string keys, in file order. *)
Definition dict (V : Type) : Type := list (string * V).

Fixpoint dict_get {V : Type} (d : dict V) (key : string) : option V :=
  match d with
  | [] => None
  | (k, v) :: rest => if String.eqb k key then Some v else dict_get rest key
  end.

(** [d[key] = v] *)
Fixpoint dict_set {V : Type} (d : dict V) (key : string) (v : V) : dict V :=
  match d with
  | [] => [(key, v)]
  | (k, old) :: rest =>
      if String.eqb k key then (k, v) :: rest else (k, old) :: dict_set rest key v
  end.

(** [xs[-1]] *)
Definition py_last {A : Type} (xs : list A) : result A :=
  match rev xs with
  | [] => Raise IndexError
  | x :: _ => Ok x
  end.

(** [xs[0]] *)
Definition py_first {A : Type} (xs : list A) : result A :=
  match xs with
  | [] => Raise IndexError
  | x :: _ => Ok x
  end.

(** [str(n)] for an [int]. *)
Definition py_str (n : Z) : string := NilZero.string_of_int (Z.to_int n).

Section Builtins.
Context {F : Type} {N : PyFloat F}.
Local Open Scope py_scope.

(** [min(a, b)]: the first argument unless the second is smaller. *)
Definition py_min (a b : F) : F := if b <? a then b else a.

(** [max(a, b)]: the first argument unless the second is greater. *)
Definition py_max (a b : F) : F := if a <? b then b else a.

End Builtins.

(** ** utils.py *)

Module Utils.

(** A Python [str] is a list of characters; a character is a code point
    below 256. *)
Definition str : Type := list ascii.

Definition code (c : ascii) : nat := nat_of_ascii c.

(** [c.isspace()]: TAB, LF, VT, FF, CR, FS, GS, RS, US, SPACE, NEL, NBSP. *)
Definition isspace (c : ascii) : bool :=
  ((9 <=? code c) && (code c <=? 13)) || ((28 <=? code c) && (code c <=? 31))
  || (code c =? 32) || (code c =? 133) || (code c =? 160).

(** The line boundaries of [str.splitlines]: LF, VT, FF, CR, FS, GS, RS,
    NEL (and CR LF as one). *)
Definition is_line_boundary (c : ascii) : bool :=
  ((10 <=? code c) && (code c <=? 13)) || ((28 <=? code c) && (code c <=? 30))
  || (code c =? 133).

Definition LF : ascii := ascii_of_nat 10.

Definition CR : ascii := ascii_of_nat 13.

Fixpoint lstrip (s : str) : str :=
  match s with
  | [] => []
  | c :: rest => if isspace c then lstrip rest else s
  end.

Definition rstrip (s : str) : str := rev (lstrip (rev s)).

(** [s.strip()] *)
Definition strip (s : str) : str := rstrip (lstrip s).

(** [s.splitlines()] from some position on; [after_cr] says that the
    previous character was a CR, whose LF is then part of the same
    boundary. *)
Fixpoint splitlines_from (after_cr : bool) (s : str) : list str :=
  match s with
  | [] => []
  | c :: rest =>
      if after_cr && Ascii.eqb c LF then splitlines_from false rest
      else if is_line_boundary c then [] :: splitlines_from (Ascii.eqb c CR) rest
      else match splitlines_from false rest with
           | [] => [[c]]
           | line :: lines => (c :: line) :: lines
           end
  end.

Definition splitlines (s : str) : list str := splitlines_from false s.

(** [s.split()]: the maximal runs of characters that are not whitespace. *)
Fixpoint split (s : str) : list str :=
  match s with
  | [] => []
  | c :: rest =>
      if isspace c then split rest
      else match rest with
           | [] => [[c]]
           | d :: _ =>
               if isspace d then [c] :: split rest
               else match split rest with
                    | [] => [[c]]
                    | word :: words => (c :: word) :: words
                    end
           end
  end.

(** [s.replace(ch, '')] for a single character [ch]. *)
Definition remove_char (ch : ascii) (s : str) : str :=
  filter (fun c => negb (Ascii.eqb c ch)) s.

Section Parse.
Context {F : Type} {N : PyFloat F}.

(** The builtin [float(s)] on a string: [None] is its [ValueError]. *)
Variable py_float : str -> option F.

(** The text handed to [float]: the first field of the last line of the
    stripped output, without dollar signs and commas. *)
Definition total_str (output : str) : result str :=
  match py_last (splitlines (strip output)) with
  | Raise e => Raise e
  | Ok last_line =>
      match py_first (split last_line) with
      | Raise e => Raise e
      | Ok field => Ok (remove_char "," (remove_char "$" field))
      end
  end.

Definition parse_hledger_output (output : str) : result F :=
  match strip output with
  | [] => Ok (lit 0.0)
  | _ :: _ =>
      match total_str output with
      | Raise e => Raise e
      | Ok text =>
          match py_float text with
          | Some x => Ok (fabs x)
          | None => Ok (lit 0.0)
          end
      end
  end.

(** The key of a cached query: [(tuple(args), year)]. *)
Definition cache_key : Type := list string * option Z.

Definition cache_key_eqb (a b : cache_key) : bool :=
  (if list_eq_dec string_dec (fst a) (fst b) then true else false)
  && match snd a, snd b with
     | Some x, Some y => Z.eqb x y
     | None, None => true
     | _, _ => false
     end.

(** The results cached for one state of the journal directory. *)
Definition cache_entries : Type := list (cache_key * F).

Fixpoint entries_get (entries : cache_entries) (key : cache_key) : option F :=
  match entries with
  | [] => None
  | (k, v) :: rest => if cache_key_eqb k key then Some v else entries_get rest key
  end.

Fixpoint entries_set (entries : cache_entries) (key : cache_key) (v : F) : cache_entries :=
  match entries with
  | [] => [(key, v)]
  | (k, old) :: rest =>
      if cache_key_eqb k key then (k, v) :: rest
      else (k, old) :: entries_set rest key v
  end.

(** What [load_cache()] returns: the content of the cache file, by journal
    hash; empty when the file is missing or unreadable. *)
Definition query_cache : Type := dict cache_entries.

(** [subprocess.run(cmd, capture_output=True, text=True, check=True)]: the
    standard output, or [None] for the CalledProcessError of a failed
    command. *)
Variable hledger : list string -> option str.

(** [hash_journal_dir(JOURNAL_DIR)] at the time of the call. *)
Variable journal_hash : string.

(** Whether [save_cache] manages to write the file; it fails silently. *)
Variable save_succeeds : bool.

(** [run_hledger_command(args, year, add_format)] on the cache file's
    content: what it returns and the content it leaves.  The diagnostic
    printed for a failed command is not modelled. *)
Definition run_hledger_command
  (args : list string) (year : option Z) (add_format : bool) (cache : query_cache)
  : result F * query_cache :=
  let cmd :=
    ["hledger"; "bal"]%string
    ++ match year with
       | Some y => ["-p"%string; py_str y]
       | None => []
       end
    ++ args
    ++ (if add_format then ["-1"%string] else []) in
  let key : cache_key := (args, year) in
  match match dict_get cache journal_hash with
        | Some entries => entries_get entries key
        | None => None
        end
  with
  | Some hit => (Ok hit, cache)
  | None =>
      match hledger cmd with
      | None => (Ok (lit 0.0), cache)
      | Some stdout =>
          match parse_hledger_output stdout with
          | Raise e => (Raise e, cache)
          | Ok parsed =>
              let entries := get_or (dict_get cache journal_hash) [] in
              let updated :=
                dict_set cache journal_hash (entries_set entries key parsed) in
              (Ok parsed, if save_succeeds then updated else cache)
          end
      end
  end.

(** No cached result is below zero. *)
Definition cache_not_negative (cache : query_cache) : bool :=
  forallb (fun '(_, entries) =>
             forallb (fun '(_, v) => negb (flt v (of_int 0))) (entries : cache_entries))
          cache.

End Parse.

End Utils.

(** ** Configuration data *)

(** The value of [solo_401k_contribution] as [yaml.safe_load] yields it. *)
Inductive yaml_value (F : Type) : Type :=
| YStr (s : string)
| YInt (n : Z)
| YFloat (x : F)
| YBool (b : bool)
| YNull
| YCollection.

Arguments YStr {F} s.
Arguments YInt {F} n.
Arguments YFloat {F} x.
Arguments YBool {F} b.
Arguments YNull {F}.
Arguments YCollection {F}.

(** [hledger_parameters/personal.yaml]; a key that is absent is [None]. *)
Record PersonalParams (F : Type) : Type := {
  filing_status : option string;
  solo_401k_contribution : option (yaml_value F);
  interest_by_year : option (dict F);
  interest_account : option string;
  principal : option F;
  monthly_rate : option F;
  payment : option F;
  start_year : option Z
}.

Arguments filing_status {F} _.
Arguments solo_401k_contribution {F} _.
Arguments interest_by_year {F} _.
Arguments interest_account {F} _.
Arguments principal {F} _.
Arguments monthly_rate {F} _.
Arguments payment {F} _.
Arguments start_year {F} _.

Record TaxBracket (F : Type) : Type := {
  threshold : F;
  rate : F
}.

Arguments threshold {F} _.
Arguments rate {F} _.

(** A surcharge rule; either key may be missing. *)
Record Surcharge (F : Type) : Type := {
  surcharge_threshold : option F;
  surcharge_rate : option F
}.

Arguments surcharge_threshold {F} _.
Arguments surcharge_rate {F} _.

(** The parameters of one filing status in a jurisdiction's year file; any
    key may be missing. *)
Record JurisdictionTaxParams (F : Type) : Type := {
  brackets : option (list (TaxBracket F));
  standard_deduction : option F;
  ss_max : option F;
  surcharges : option (list (Surcharge F));
  niit_threshold : option F;
  medicare_threshold : option F
}.

Arguments brackets {F} _.
Arguments standard_deduction {F} _.
Arguments ss_max {F} _.
Arguments surcharges {F} _.
Arguments niit_threshold {F} _.
Arguments medicare_threshold {F} _.

(** What [load_tax_params(year)] returns: per jurisdiction, the parameters by
    filing status. *)
Record TaxParams (F : Type) : Type := {
  federal : dict (JurisdictionTaxParams F);
  ca : dict (JurisdictionTaxParams F)
}.

Arguments federal {F} _.
Arguments ca {F} _.

(** ** taxes.py *)

Section Taxes.
Context {F : Type} {N : PyFloat F}.
Local Open Scope py_scope.

(** [run_hledger_command(args, year)] of utils.py, the ledger query. *)
Variable run_hledger_command : list string -> Z -> F.

(** The builtin [pow(x, m)] on a float and an int (the C library's). *)
Variable pow : F -> Z -> F.

(** The content of [hledger_parameters/personal.yaml]. *)
Variable params : PersonalParams F.

Variable load_tax_params : Z -> TaxParams F.

(** The closures of [compute_interest], with the variables they capture. *)
Definition balance_after (principal monthly_rate payment : F) (m : Z) : F :=
  if monthly_rate =? of_int 0 then principal - payment * of_int m
  else
    let factor := pow (of_int 1 + monthly_rate) m in
    principal * factor - payment * (factor - of_int 1) / monthly_rate.

Definition interest_paid_until (principal monthly_rate payment : F) (m : Z) : F :=
  let total_paid := payment * of_int m in
  let remaining_balance := balance_after principal monthly_rate payment m in
  let principal_reduction := principal - remaining_balance in
  total_paid - principal_reduction.

Definition compute_interest (year : Z) : F :=
  match match interest_by_year params with
        | Some by_year => dict_get by_year (py_str year)
        | None => None
        end
  with
  | Some override => override
  | None =>
      match interest_account params with
      | Some account => run_hledger_command ["bal"%string; account] year
      | None =>
          match principal params, monthly_rate params, payment params, start_year params with
          | Some principal, Some monthly_rate, Some payment, Some start_year =>
              let start_month := Z.max 0 (12 * (year - start_year)) in
              let end_month := (start_month + 12)%Z in
              interest_paid_until principal monthly_rate payment end_month
              - interest_paid_until principal monthly_rate payment start_month
          | _, _, _, _ => lit 0.0
          end
      end
  end.

Definition compute_self_employment_tax (net_business_income : F) : F :=
  net_business_income * lit 0.9235 * lit 0.029.

(** The lookup both [compute_investment_tax] and [compute_medicare_tax]
    make: the filing status' entry, else the "joint" one, else ValueError. *)
Definition federal_params_for (year : Z) (status : string)
  : result (JurisdictionTaxParams F) :=
  match dict_get (federal (load_tax_params year)) status with
  | Some fed_params => Ok fed_params
  | None =>
      match dict_get (federal (load_tax_params year)) "joint" with
      | Some fed_params => Ok fed_params
      | None => Raise ValueError
      end
  end.

Definition compute_investment_tax (investment_income agi : F) (year : Z) : result F :=
  let status := get_or (filing_status params) "joint"%string in
  match federal_params_for year status with
  | Raise e => Raise e
  | Ok fed_params =>
      let niit := get_or (niit_threshold fed_params) (of_int 200000) in
      if agi <=? niit then Ok (lit 0.0)
      else
        let taxable_amount := py_min investment_income (agi - niit) in
        Ok (lit 0.038 * py_max taxable_amount (of_int 0))
  end.

(** [v == s] for a string [s]. *)
Definition yaml_eq_str (v : yaml_value F) (s : string) : bool :=
  match v with
  | YStr t => String.eqb t s
  | _ => false
  end.

(** [v == 0] *)
Definition yaml_eq_zero (v : yaml_value F) : bool :=
  match v with
  | YInt n => Z.eqb n 0
  | YFloat x => x =? of_int 0
  | YBool b => negb b
  | _ => false
  end.

(** [float(v)] where [isinstance(v, (int, float))] holds; a [bool] is an
    [int] in Python. *)
Definition yaml_number (v : yaml_value F) : option F :=
  match v with
  | YInt n => Some (of_int n)
  | YFloat x => Some x
  | YBool b => Some (of_int (if b then 1 else 0))
  | _ => None
  end.

Definition compute_solo_401k_contribution (net_business_income : F) (year : Z) : F :=
  let contribution_config :=
    get_or (solo_401k_contribution params) (YStr "maximize") in
  let max_contribution := net_business_income * lit 0.19732 in
  if yaml_eq_str contribution_config "maximize" then max_contribution
  else if yaml_eq_str contribution_config "none" || yaml_eq_zero contribution_config
  then lit 0.0
  else
    match yaml_number contribution_config with
    | Some number =>
        let percentage := number / lit 100.0 in
        max_contribution * percentage
    | None => max_contribution
    end.

(** The [print] of [remaining_ss_limit] is not modelled. *)
Definition compute_social_security_tax
  (w2_medicare net_business_income ss_max soc_tax_paid : F) (year : Z) : F :=
  let status := get_or (filing_status params) "joint"%string in
  let ss_max := if String.eqb status "joint" then ss_max * of_int 2 else ss_max in
  let w2_ss_tax := py_min (w2_medicare * lit 0.124) ss_max in
  let remaining_ss_limit := py_max (of_int 0) (ss_max - w2_ss_tax) in
  let se_ss_tax :=
    py_min (net_business_income * lit 0.9235 * lit 0.124) remaining_ss_limit in
  let total_ss_tax_owed := w2_ss_tax + se_ss_tax in
  let ss_extra := total_ss_tax_owed - soc_tax_paid in
  - ss_extra.

Definition compute_medicare_tax
  (w2_medicare net_business_income med_tax_paid : F) (year : Z) : result F :=
  let status := get_or (filing_status params) "single"%string in
  match federal_params_for year status with
  | Raise e => Raise e
  | Ok fed_params =>
      let threshold := get_or (medicare_threshold fed_params) (of_int 200000) in
      let medicare_tax := lit 0.0145 * w2_medicare in
      let medicare_extra :=
        py_max (lit 0.0)
               (w2_medicare + net_business_income * lit 0.9235 - threshold)
        * lit 0.009 in
      let total := medicare_tax + medicare_extra in
      Ok (py_max (total - med_tax_paid) (lit 0.0))
  end.

(** The loop of [compute_bracket_tax]: [tax] so far, and the brackets from
    the current one on, so that the head of the tail is [brackets[i+1]]. *)
Fixpoint bracket_loop (taxable_income : F) (brackets : list (TaxBracket F)) (tax : F) : F :=
  match brackets with
  | [] => tax
  | bracket :: later =>
      match later with
      | [] =>
          tax + (if threshold bracket <? taxable_income
                 then (taxable_income - threshold bracket) * rate bracket
                 else of_int 0)
      | next :: _ =>
          bracket_loop taxable_income later
            (if threshold bracket <? taxable_income
             then
               let taxed_amount :=
                 py_min taxable_income (threshold next) - threshold bracket in
               tax + taxed_amount * rate bracket
             else tax)
      end
  end.

Definition compute_bracket_tax (taxable_income : F) (brackets : list (TaxBracket F)) : F :=
  py_max (bracket_loop taxable_income brackets (lit 0.0)) (lit 0.0).

(** The local function of [compute_taxes]; [None] is an absent or null
    [surcharges]. *)
Definition compute_surcharges (taxable_income : F) (surcharges : option (list (Surcharge F))) : F :=
  fold_left
    (fun total s =>
       let threshold := get_or (surcharge_threshold s) (of_int 0) in
       let rate := get_or (surcharge_rate s) (of_int 0) in
       total + rate * py_max (taxable_income - threshold) (lit 0.0))
    (get_or surcharges [])
    (lit 0.0).

End Taxes.

(** ** The formulas of the specification

    Written from the specification's sentences, to be compared with the
    calculators above. *)

Section Formulas.
Context {F : Type} {N : PyFloat F}.
Local Open Scope py_scope.

(** The wage cap: doubled for the "joint" filing status. *)
Definition ss_cap (status : string) (ss_max : F) : F :=
  if String.eqb status "joint" then of_int 2 * ss_max else ss_max.

(** Social Security tax owed on wages and on self-employment income, minus
    what was paid. *)
Definition ss_shortfall (status : string)
  (w2_medicare net_business_income ss_max soc_tax_paid : F) : F :=
  let cap := ss_cap status ss_max in
  let w2_ss_tax := py_min (w2_medicare * lit 0.124) cap in
  let se_ss_tax :=
    py_min (net_business_income * lit 0.9235 * lit 0.124)
           (py_max (of_int 0) (cap - w2_ss_tax)) in
  w2_ss_tax + se_ss_tax - soc_tax_paid.

(** The amounts that accrue, in table order: for each bracket but the last
    with income above its threshold, the rate on the part of the income up
    to the next threshold; for the last bracket, the rate on the income
    above its threshold, which is nothing when there is none. *)
Fixpoint accruals (income : F) (table : list (TaxBracket F)) : list F :=
  match table with
  | [] => []
  | bracket :: later =>
      match later with
      | [] =>
          [if threshold bracket <? income
           then rate bracket * (income - threshold bracket)
           else of_int 0]
      | next :: _ =>
          (if threshold bracket <? income
           then [rate bracket * (py_min income (threshold next) - threshold bracket)]
           else [])
          ++ accruals income later
      end
  end.

(** The accrued amounts summed from zero, clamped at zero. *)
Definition bracket_tax_formula (income : F) (table : list (TaxBracket F)) : F :=
  py_max (fold_left fadd (accruals income table) (lit 0.0)) (of_int 0).

(** The table [{0, 10%}, {10000, 20%}]. *)
Definition two_bracket_table : list (TaxBracket F) :=
  [ {| threshold := of_int 0; rate := lit 0.10 |};
    {| threshold := of_int 10000; rate := lit 0.20 |} ].

Definition medicare_formula (w2_medicare net_business_income med_tax_paid threshold : F) : F :=
  py_max
    (lit 0.0145 * w2_medicare
     + lit 0.009
       * py_max (of_int 0) (w2_medicare + net_business_income * lit 0.9235 - threshold)
     - med_tax_paid)
    (of_int 0).

Definition niit_formula (investment_income agi threshold : F) : F :=
  if agi <=? threshold then of_int 0
  else lit 0.038 * py_max (py_min investment_income (agi - threshold)) (of_int 0).

Section Amortization.
Variable pow : F -> Z -> F.
Variables (principal r payment : F).

(** The loan balance after [m] payments. *)
Definition balance (m : Z) : F :=
  if r =? of_int 0 then principal - payment * of_int m
  else principal * pow (of_int 1 + r) m
       - payment * (pow (of_int 1 + r) m - of_int 1) / r.

(** Cumulative interest paid through month [m]. *)
Definition cumulative_interest (m : Z) : F :=
  payment * of_int m - (principal - balance m).
End Amortization.

(** The contribution policy table; [None] is an absent key, which reads as
    "maximize". *)
Definition solo_401k_formula (policy : option (yaml_value F)) (max_contribution : F) : F :=
  match policy with
  | None => max_contribution
  | Some (YStr s) =>
      if String.eqb s "maximize" then max_contribution
      else if String.eqb s "none" then of_int 0
      else max_contribution
  | Some (YInt p) =>
      if Z.eqb p 0 then of_int 0 else max_contribution * (of_int p / of_int 100)
  | Some (YFloat p) =>
      if p =? of_int 0 then of_int 0 else max_contribution * (p / of_int 100)
  | Some (YBool b) =>
      if b then max_contribution * (of_int 1 / of_int 100) else of_int 0
  | Some YNull | Some YCollection => max_contribution
  end.

End Formulas.

(** ** Sample configurations *)

Section Samples.
Context {F : Type} {N : PyFloat F}.

(** A [personal.yaml] with nothing but the given filing status and
    contribution policy. *)
Definition personal_with (status : option string) (policy : option (yaml_value F))
  : PersonalParams F :=
  {| filing_status := status;
     solo_401k_contribution := policy;
     interest_by_year := None;
     interest_account := None;
     principal := None;
     monthly_rate := None;
     payment := None;
     start_year := None |}.

(** A [personal.yaml] with the loan of the specification's amortization
    example and no other interest source. *)
Definition personal_with_loan : PersonalParams F :=
  {| filing_status := Some "single"%string;
     solo_401k_contribution := None;
     interest_by_year := Some [("2019"%string, of_int 9000)];
     interest_account := None;
     principal := Some (of_int 300000);
     monthly_rate := Some (lit 0.003);
     payment := Some (of_int 1500);
     start_year := Some 2020%Z |}.

Definition status_params (threshold : Z) : JurisdictionTaxParams F :=
  {| brackets := Some two_bracket_table;
     standard_deduction := Some (of_int 14600);
     ss_max := Some (of_int 10453);
     surcharges := Some [ {| surcharge_threshold := Some (of_int 1000000);
                             surcharge_rate := Some (lit 0.01) |} ];
     niit_threshold := Some (of_int threshold);
     medicare_threshold := Some (of_int threshold) |}.

(** Year files with a "single" entry (thresholds at 200000) and a "joint"
    one (thresholds at 250000). *)
Definition sample_tax_params (year : Z) : TaxParams F :=
  {| federal := [("single"%string, status_params 200000);
                 ("joint"%string, status_params 250000)];
     ca := [("joint"%string, status_params 250000)] |}.

End Samples.

(** ** Table invariants and configuration updates *)

Section Invariants.
Context {F : Type} {N : PyFloat F}.
Local Open Scope py_scope.

(** Thresholds strictly increasing along the table. *)
Fixpoint thresholds_increasing (table : list (TaxBracket F)) : bool :=
  match table with
  | [] => true
  | bracket :: later =>
      match later with
      | [] => true
      | next :: _ => (threshold bracket <? threshold next) && thresholds_increasing later
      end
  end.

(** Rates in [0, 1]. *)
Definition rates_in_unit_interval (table : list (TaxBracket F)) : bool :=
  forallb (fun bracket => (of_int 0 <=? rate bracket) && (rate bracket <=? of_int 1)) table.

(** No surcharge rule has a negative rate (a missing rate reads as 0). *)
Definition surcharge_rates_nonnegative (rules : option (list (Surcharge F))) : bool :=
  forallb (fun s => of_int 0 <=? get_or (surcharge_rate s) (of_int 0)) (get_or rules []).

(** [personal.yaml] with its [filing_status] key set. *)
Definition with_filing_status (params : PersonalParams F) (status : string)
  : PersonalParams F :=
  {| filing_status := Some status;
     solo_401k_contribution := solo_401k_contribution params;
     interest_by_year := interest_by_year params;
     interest_account := interest_account params;
     principal := principal params;
     monthly_rate := monthly_rate params;
     payment := payment params;
     start_year := start_year params |}.

End Invariants.

(** ** Plain decimal numerals *)

Section Decimal.
Context {F : Type} {N : PyFloat F}.
Local Open Scope py_scope.

Definition digit_value (c : ascii) : option Z :=
  let n := nat_of_ascii c in
  if (48 <=? n)%nat && (n <=? 57)%nat then Some (Z.of_nat (n - 48)) else None.

(** The leading digits of [s] appended to the numeral [acc]: the value, how
    many digits were read, and what follows them. *)
Fixpoint read_digits (acc : Z) (count : nat) (s : Utils.str) : Z * nat * Utils.str :=
  match s with
  | [] => (acc, count, [])
  | c :: rest =>
      match digit_value c with
      | Some d => read_digits (10 * acc + d) (S count) rest
      | None => (acc, count, s)
      end
  end.

(** [float(s)] on the numerals [sign digits . digits] (either digit run may
    be empty, not both), which is how ledger amounts are written; the other
    spellings [float] accepts are left out, so this stands in for the
    builtin in examples only. *)
Definition float_of_decimal (s : Utils.str) : option F :=
  let '(negative, body) :=
    match s with
    | "-"%char :: rest => (true, rest)
    | "+"%char :: rest => (false, rest)
    | _ => (false, s)
    end in
  let signed (x : F) := if negative then - x else x in
  let '(whole, whole_digits, rest) := read_digits 0 0 body in
  match rest with
  | [] =>
      match whole_digits with
      | O => None
      | S _ => Some (signed (of_int whole))
      end
  | "."%char :: fraction =>
      let '(all, fraction_digits, rest') := read_digits whole 0 fraction in
      match rest', (whole_digits + fraction_digits)%nat with
      | [], S _ => Some (signed (lit (all # Pos.pow 10 (Pos.of_nat fraction_digits))))
      | _, _ => None
      end
  | _ => None
  end.

(** What [hledger bal -1] prints for an account with a negative balance,
    and for the same balance with the sign reversed. *)
Definition negative_report : Utils.str :=
  list_ascii_of_string
    ("          $-1,234.56  assets:bank" ++ String Utils.LF
     ("--------------------" ++ String Utils.LF
      ("          $-1,234.56  " ++ String Utils.LF ""))).

Definition positive_report : Utils.str :=
  list_ascii_of_string
    ("           $1,234.56  assets:bank" ++ String Utils.LF
     ("--------------------" ++ String Utils.LF
      ("           $1,234.56  " ++ String Utils.LF ""))).

End Decimal.

(** ASCII lower case. *)
Definition ascii_lower (c : ascii) : ascii :=
  let n := nat_of_ascii c in
  if (65 <=? n)%nat && (n <=? 90)%nat then ascii_of_nat (n + 32) else c.

(** [float(s)] on binary64 with the spellings of the special values: after
    an optional sign, [nan], [inf] and [infinity] in any case; every other
    text is read by [float_of_decimal]. *)
Definition float_of_text (s : Utils.str) : option float :=
  let '(negative, body) :=
    match s with
    | "-"%char :: rest => (true, rest)
    | "+"%char :: rest => (false, rest)
    | _ => (false, s)
    end in
  let word := string_of_list_ascii (map ascii_lower body) in
  if String.eqb word "nan" then Some nan
  else if String.eqb word "inf" || String.eqb word "infinity"
       then Some (if negative then neg_infinity else infinity)
       else float_of_decimal s.

(** ** The rest of utils.py and taxes.py: errors *)

(** The exceptions of the code below: those of the calculators, and the
    ones a missing file, a missing key, a bad argument and a result of
    [pow] out of range raise. *)
Inductive error : Type :=
| Builtin (e : exn)
| FileNotFoundError
| KeyError (key : string)
| TypeError
| OverflowError.

Inductive outcome (A : Type) : Type :=
| Returns (a : A)
| Raises (e : error).

Arguments Returns {A} a.
Arguments Raises {A} e.

(** Sequencing: the first exception ends the run. *)
Definition and_then {A B : Type} (o : outcome A) (k : A -> outcome B) : outcome B :=
  match o with
  | Returns a => k a
  | Raises e => Raises e
  end.

Definition of_result {A : Type} (r : result A) : outcome A :=
  match r with
  | Ok a => Returns a
  | Raise e => Raises (Builtin e)
  end.

Notation "'let*' x ':=' o 'in' k" := (and_then o (fun x => k))
  (at level 10, x name, o at level 100, k at level 200).

(** ** utils.py: the parameter files *)

Module Loader.

(** The stem of a file name that [glob] matches against ["*.yaml"]: the
    name ends in [.yaml] and does not start with a dot.  This is the name
    without its last five characters. *)
Definition yaml_stem (name : string) : option (list ascii) :=
  match list_ascii_of_string name with
  | "."%char :: _ => None
  | _ =>
      match rev (list_ascii_of_string name) with
      | "l"%char :: "m"%char :: "a"%char :: "y"%char :: "."%char :: reversed =>
          Some (rev reversed)
      | _ => None
      end
  end.

(** [c.isdigit()] for a code point below 256: the ten digits and the
    superscripts one, two and three. *)
Definition isdigit (c : ascii) : bool :=
  let n := nat_of_ascii c in
  ((48 <=? n) && (n <=? 57)) || (n =? 178) || (n =? 179) || (n =? 185).

(** [s.isdigit()] *)
Definition all_digits (s : list ascii) : bool :=
  match s with
  | [] => false
  | _ :: _ => forallb isdigit s
  end.

(** [int(s)] on a string that [isdigit] accepts: the superscripts are not
    decimal digits, and on them [int] raises ValueError.  (The limit of
    4300 digits is beyond the length of a file name.) *)
Definition int_of_digits (s : list ascii) : outcome Z :=
  match NilZero.uint_of_string (string_of_list_ascii s) with
  | Some d => Returns (Z.of_uint d)
  | None => Raises (Builtin ValueError)
  end.

(** The list comprehension of [load_jurisdiction]: the years of the
    matched files whose stem is all digits. *)
Fixpoint years_on_file {T : Type} (files : list (string * T)) : outcome (list Z) :=
  match files with
  | [] => Returns []
  | (name, _) :: rest =>
      match yaml_stem name with
      | Some stem =>
          if all_digits stem then
            let* y := int_of_digits stem in
            let* ys := years_on_file rest in
            Returns (y :: ys)
          else years_on_file rest
      | None => years_on_file rest
      end
  end.

(** [max(years)] of a list that is not empty. *)
Definition py_max_int (first : Z) (rest : list Z) : Z := fold_left Z.max rest first.

(** [load_jurisdiction(jurisdiction, year)] on the files of the
    jurisdiction's folder, each with what [yaml.safe_load] reads from it. *)
Definition load_jurisdiction {T : Type} (files : list (string * T)) (year : Z) : outcome T :=
  match dict_get files (py_str year ++ ".yaml") with
  | Some content => Returns content
  | None =>
      let* years := years_on_file files in
      match years with
      | [] => Raises FileNotFoundError
      | first :: rest =>
          let latest_year := py_max_int first rest in
          match dict_get files (py_str latest_year ++ ".yaml") with
          | Some content => Returns content
          | None => Raises FileNotFoundError
          end
      end
  end.

(** [load_tax_params(year)] on the folders [tax_parameters/FEDERAL] and
    [tax_parameters/CA]. *)
Definition load_tax_params {F : Type}
  (federal_files ca_files : list (string * dict (JurisdictionTaxParams F)))
  (year : Z) : outcome (TaxParams F) :=
  let* federal := load_jurisdiction federal_files year in
  let* ca := load_jurisdiction ca_files year in
  Returns {| federal := federal; ca := ca |}.

End Loader.

(** ** taxes.py: the tax summary *)

(** An item of a query's [accounts] list in [aliases.yaml]: a string, or
    the mapping that YAML reads from an unquoted [key: value], with its
    keys and values as [str] prints them and [None] for an empty value. *)
Inductive account_entry : Type :=
| AccountName (name : string)
| AccountMap (items : list (string * option string)).

(** A query of [aliases.yaml]; an absent key is the empty list, which is
    what [q.get(key, [])] reads it as. *)
Record Query : Type := {
  query_accounts : list account_entry;
  query_remove_groups : list string;
  query_exclude_accounts : list string
}.

(** [aliases.yaml]: the account groups (every key but ["queries"]) and the
    queries. *)
Record Aliases : Type := {
  alias_groups : dict (list string);
  alias_queries : option (dict Query)
}.

(** The [home_office] mapping of [personal.yaml]. *)
Record HomeOffice (F : Type) : Type := {
  office_accounts : option (list string);
  deduction_rate : option F;
  fixed_deduction : option F
}.

Arguments office_accounts {F} _.
Arguments deduction_rate {F} _.
Arguments fixed_deduction {F} _.

(** [personal.yaml] with the keys that only [compute_taxes] reads. *)
Record PersonalFile (F : Type) : Type := {
  calculator_params : PersonalParams F;
  home_office : option (HomeOffice F);
  additional_federal_deduction : option F
}.

Arguments calculator_params {F} _.
Arguments home_office {F} _.
Arguments additional_federal_deduction {F} _.

(** The numbers [compute_taxes] works out and prints, under the names of
    its variables. *)
Record TaxSummary (F : Type) : Type := {
  w2 : F;
  interest : F;
  interest_state : F;
  dividend_shortterm : F;
  capital_gain_shortterm : F;
  dividend_longterm : F;
  capital_gain_longterm : F;
  loss : F;
  business_expenses : F;
  foreign_credit : F;
  fed_tax_paid : F;
  net_biz : F;
  ded : F;
  solo_cont : F;
  se_tax : F;
  inv_income : F;
  agi : F;
  inv_tax : F;
  ss_extra : F;
  medicare_extra : F;
  fed_taxable_income : F;
  tax_liability : F;
  total_tax : F;
  owed : F;
  ca_mod_inc : F;
  ca_tax : F;
  ca_owed : F;
  total_income : F;
  ti : F
}.

Arguments w2 {F} _.
Arguments interest {F} _.
Arguments interest_state {F} _.
Arguments dividend_shortterm {F} _.
Arguments capital_gain_shortterm {F} _.
Arguments dividend_longterm {F} _.
Arguments capital_gain_longterm {F} _.
Arguments loss {F} _.
Arguments business_expenses {F} _.
Arguments foreign_credit {F} _.
Arguments fed_tax_paid {F} _.
Arguments net_biz {F} _.
Arguments ded {F} _.
Arguments solo_cont {F} _.
Arguments se_tax {F} _.
Arguments inv_income {F} _.
Arguments agi {F} _.
Arguments inv_tax {F} _.
Arguments ss_extra {F} _.
Arguments medicare_extra {F} _.
Arguments fed_taxable_income {F} _.
Arguments tax_liability {F} _.
Arguments total_tax {F} _.
Arguments owed {F} _.
Arguments ca_mod_inc {F} _.
Arguments ca_tax {F} _.
Arguments ca_owed {F} _.
Arguments total_income {F} _.
Arguments ti {F} _.

Definition empty_query : Query :=
  {| query_accounts := []; query_remove_groups := []; query_exclude_accounts := [] |}.

(** What [build_accounts] appends for one item of [accounts]. *)
Definition entry_arguments (entry : account_entry) : list string :=
  match entry with
  | AccountName name => [name]
  | AccountMap items =>
      map (fun '(k, v) =>
             match v with
             | None => (k ++ ":")%string
             | Some v => (k ++ ":" ++ v)%string
             end)
          items
  end.

(** [build_accounts(q)]: the accounts, then the accounts of the groups to
    remove, then an alias pair for each account to exclude. *)
Definition build_accounts (groups : dict (list string)) (q : Query) : list string :=
  flat_map entry_arguments (query_accounts q)
  ++ flat_map (fun group => get_or (dict_get groups group) []) (query_remove_groups q)
  ++ flat_map (fun alias => ["--alias"; alias ++ "=xyz"]%string) (query_exclude_accounts q).

(** The arguments [hledger_query_no_year] passes: the year appended to
    each argument. *)
Definition no_year_arguments (groups : dict (list string)) (q : Query) (year : Z)
  : list string :=
  map (fun acct => (acct ++ ":" ++ py_str year)%string) (build_accounts groups q).

(** The lookup of [compute_taxes] in a jurisdiction's table: the filing
    status' entry, else the "joint" one, else ValueError. *)
Definition status_entry {F : Type} (table : dict (JurisdictionTaxParams F))
  (status : string) : outcome (JurisdictionTaxParams F) :=
  match dict_get table status with
  | Some entry => Returns entry
  | None =>
      match dict_get table "joint" with
      | Some entry => Returns entry
      | None => Raises (Builtin ValueError)
      end
  end.

(** A table entry with other surcharge rules. *)
Definition with_surcharges {F : Type} (rules : option (list (Surcharge F)))
  (entry : JurisdictionTaxParams F) : JurisdictionTaxParams F :=
  {| brackets := brackets entry;
     standard_deduction := standard_deduction entry;
     ss_max := ss_max entry;
     surcharges := rules;
     niit_threshold := niit_threshold entry;
     medicare_threshold := medicare_threshold entry |}.

(** Two tables with the same statuses in the same order, whose entries
    differ in their surcharge rules at most. *)
Definition same_but_surcharges {F : Type} (table table' : dict (JurisdictionTaxParams F))
  : Prop :=
  Forall2 (fun entry entry' =>
             fst entry = fst entry'
             /\ with_surcharges None (snd entry) = with_surcharges None (snd entry'))
          table table'.

(** [d[key]] on an optional key. *)
Definition required {A : Type} (key : string) (value : option A) : outcome A :=
  match value with
  | Some v => Returns v
  | None => Raises (KeyError key)
  end.

Section Summary.
Context {F : Type} {N : PyFloat F}.
Local Open Scope string_scope.
Local Open Scope py_scope.

(** [run_hledger_command(args, year)] of utils.py as a function of its
    arguments: the ledger does not change during a run. *)
Variable run_hledger_command : list string -> option Z -> F.

(** The builtin [pow(x, m)]; [None] is the OverflowError it raises for a
    result out of range. *)
Variable pow : F -> Z -> option F.

(** [load_tax_params]; the calculators load the same year again and get
    the same tables. *)
Variable load_tax_params : Z -> outcome (TaxParams F).

Variable personal : PersonalFile F.

Variable aliases : Aliases.

Definition load_filing_status : string :=
  get_or (filing_status (calculator_params personal)) "joint"%string.

Definition load_additional_federal_deduction : F :=
  get_or (additional_federal_deduction personal) (lit 0.0).

Definition load_home_office_info : HomeOffice F :=
  get_or (home_office personal)
         {| office_accounts := None; deduction_rate := None; fixed_deduction := None |}.

(** The loop over the business expense accounts, which hands each item to
    the ledger query as it is; a mapping is no argument of a command. *)
Fixpoint sum_business_expenses (year : Z) (entries : list account_entry) (total : F)
  : outcome F :=
  match entries with
  | [] => Returns total
  | AccountName name :: rest =>
      sum_business_expenses year rest (total + run_hledger_command [name] (Some year))
  | AccountMap _ :: _ => Raises TypeError
  end.

(** A call of [pow]. *)
Definition pow_or_overflow (x : F) (m : Z) : outcome F :=
  match pow x m with
  | Some y => Returns y
  | None => Raises OverflowError
  end.

(** [compute_interest] and its closures as [compute_taxes] runs them, with
    the exception of [pow]: the interest until the later month is computed
    first. *)
Definition balance_after_raising (principal monthly_rate payment : F) (m : Z)
  : outcome F :=
  if monthly_rate =? of_int 0 then Returns (principal - payment * of_int m)
  else
    let* factor := pow_or_overflow (of_int 1 + monthly_rate) m in
    Returns (principal * factor - payment * (factor - of_int 1) / monthly_rate).

Definition interest_paid_until_raising (principal monthly_rate payment : F) (m : Z)
  : outcome F :=
  let total_paid := payment * of_int m in
  let* remaining_balance := balance_after_raising principal monthly_rate payment m in
  let principal_reduction := principal - remaining_balance in
  Returns (total_paid - principal_reduction).

Definition compute_interest_raising (year : Z) : outcome F :=
  let params := calculator_params personal in
  match match interest_by_year params with
        | Some by_year => dict_get by_year (py_str year)
        | None => None
        end
  with
  | Some override => Returns override
  | None =>
      match interest_account params with
      | Some account => Returns (run_hledger_command ["bal"; account] (Some year))
      | None =>
          match principal params, monthly_rate params, payment params, start_year params with
          | Some principal, Some monthly_rate, Some payment, Some start_year =>
              let start_month := Z.max 0 (12 * (year - start_year)) in
              let end_month := (start_month + 12)%Z in
              let* until_end :=
                interest_paid_until_raising principal monthly_rate payment end_month in
              let* until_start :=
                interest_paid_until_raising principal monthly_rate payment start_month in
              Returns (until_end - until_start)
          | _, _, _, _ => Returns (lit 0.0)
          end
      end
  end.

(** [compute_taxes(year)], returning what it prints. *)
Definition compute_taxes (year : Z) : outcome (TaxSummary F) :=
  let* params := load_tax_params year in
  let filing_status := load_filing_status in
  let* fed_params := status_entry (federal params) filing_status in
  let* ca_params := status_entry (ca params) filing_status in
  let* fed_brackets := required "brackets" (brackets fed_params) in
  let* fed_sd := required "standard_deduction" (standard_deduction fed_params) in
  let* ss_max := required "ss_max" (ss_max fed_params) in
  let* ca_brackets := required "brackets" (brackets ca_params) in
  let* ca_sd := required "standard_deduction" (standard_deduction ca_params) in
  let ca_surcharges := surcharges ca_params in
  let fed_surcharges := surcharges fed_params in
  let* INTEREST := compute_interest_raising year in
  let additional_deduction := load_additional_federal_deduction in
  let home_office := load_home_office_info in
  let groups := alias_groups aliases in
  let* queries := required "queries" (alias_queries aliases) in
  let hledger_query (query_key : string) : F :=
    let q := get_or (dict_get queries query_key) empty_query in
    run_hledger_command (build_accounts groups q) (Some year) in
  let hledger_query_no_year (query_key : string) : F :=
    let q := get_or (dict_get queries query_key) empty_query in
    run_hledger_command (no_year_arguments groups q year) None in
  let w2 := hledger_query "w2" in
  let w2_medicare := hledger_query "w2_medicare" in
  let w2_ca := hledger_query "w2_ca" in
  let total_inc := hledger_query "total_inc" in
  let dividend_longterm := hledger_query "dividend_longterm" in
  let dividend_shortterm := hledger_query "dividend_shortterm" in
  let dividend_shortterm_state := hledger_query "dividend_shortterm_state" in
  let dividend_qualified := hledger_query "dividend_qualified" in
  let capital_gain_longterm := hledger_query "capital_gain_longterm" in
  let capital_gain_shortterm := hledger_query "capital_gain_shortterm" in
  let loss := hledger_query "loss" in
  let interest := hledger_query "interest" in
  let interest_state := hledger_query "interest_state" in
  let fed_tax_paid := hledger_query_no_year "fed_tax_paid" in
  let soc_tax_paid := hledger_query_no_year "soc_tax_paid" in
  let med_tax_paid := hledger_query_no_year "med_tax_paid" in
  let state_tax_paid := hledger_query_no_year "state_tax_paid" in
  let home_office_expenses :=
    fold_left (fun total acct => total + run_hledger_command [acct] (Some year))
              (get_or (office_accounts home_office) []) (lit 0.0) in
  let* business_expenses :=
    sum_business_expenses year
      (query_accounts (get_or (dict_get queries "business_expenses") empty_query))
      (lit 0.0) in
  let foreign_credit := hledger_query "foreign_credit" in
  let* rate := required "deduction_rate" (deduction_rate home_office) in
  let home_deduct := home_office_expenses * rate in
  let* fixed := required "fixed_deduction" (fixed_deduction home_office) in
  let ded := home_deduct + INTEREST * rate + fixed in
  let net_biz := total_inc - w2 - ded - business_expenses in
  let solo_cont :=
    compute_solo_401k_contribution (calculator_params personal) net_biz year in
  let se_tax := compute_self_employment_tax net_biz in
  let inv_income :=
    interest + dividend_shortterm + dividend_longterm + capital_gain_shortterm
    + capital_gain_longterm - loss in
  let agi :=
    w2 + interest + net_biz + (dividend_shortterm + capital_gain_shortterm) - loss
    - se_tax / of_int 2 - solo_cont in
  let* inv_tax :=
    of_result (compute_investment_tax (calculator_params personal) (fun _ => params)
                                      inv_income agi year) in
  let ss_extra :=
    compute_social_security_tax (calculator_params personal)
                                w2_medicare net_biz ss_max soc_tax_paid year in
  let* medicare_extra :=
    of_result (compute_medicare_tax (calculator_params personal) (fun _ => params)
                                    w2_medicare net_biz med_tax_paid year) in
  let fed_taxable_income :=
    w2 + interest + net_biz + (dividend_shortterm + capital_gain_shortterm) - loss
    - se_tax / of_int 2 - solo_cont - fed_sd - additional_deduction
    - lit 0.2 * dividend_qualified in
  let tax_liability :=
    compute_bracket_tax fed_taxable_income fed_brackets
    + lit 0.2 * (dividend_longterm + capital_gain_longterm) in
  let total_tax := tax_liability + inv_tax - ss_extra + se_tax + medicare_extra in
  let total_tax := py_max total_tax (lit 0.0) in
  let owed := total_tax - fed_tax_paid - foreign_credit in
  let ca_mod_inc :=
    w2_ca + interest_state + net_biz
    + (dividend_shortterm_state + capital_gain_shortterm) - loss
    - se_tax / of_int 2 - solo_cont + dividend_longterm + capital_gain_longterm
    - ca_sd in
  let ca_tax := compute_bracket_tax ca_mod_inc ca_brackets in
  let ca_owed := compute_surcharges ca_mod_inc ca_surcharges + ca_tax - state_tax_paid in
  let total_income :=
    w2 + interest + dividend_shortterm + capital_gain_shortterm + dividend_longterm
    + capital_gain_longterm - loss + net_biz in
  let ti :=
    total_income - se_tax / of_int 2 - solo_cont - fed_sd - additional_deduction
    - lit 0.2 * dividend_qualified in
  Returns
    {| w2 := w2;
       interest := interest;
       interest_state := interest_state;
       dividend_shortterm := dividend_shortterm;
       capital_gain_shortterm := capital_gain_shortterm;
       dividend_longterm := dividend_longterm;
       capital_gain_longterm := capital_gain_longterm;
       loss := loss;
       business_expenses := business_expenses;
       foreign_credit := foreign_credit;
       fed_tax_paid := fed_tax_paid;
       net_biz := net_biz;
       ded := ded;
       solo_cont := solo_cont;
       se_tax := se_tax;
       inv_income := inv_income;
       agi := agi;
       inv_tax := inv_tax;
       ss_extra := ss_extra;
       medicare_extra := medicare_extra;
       fed_taxable_income := fed_taxable_income;
       tax_liability := tax_liability;
       total_tax := total_tax;
       owed := owed;
       ca_mod_inc := ca_mod_inc;
       ca_tax := ca_tax;
       ca_owed := ca_owed;
       total_income := total_income;
       ti := ti |}.

End Summary.

(** ** A sample run *)

Section SampleRun.
Context {F : Type} {N : PyFloat F}.

Definition sample_aliases : Aliases :=
  {| alias_groups := [("transfers"%string, ["assets:transfer"%string])];
     alias_queries :=
       Some [("w2"%string,
              {| query_accounts := [AccountName "income:salary"];
                 query_remove_groups := ["transfers"%string];
                 query_exclude_accounts := [] |});
             ("fed_tax_paid"%string,
              {| query_accounts :=
                   [AccountMap [("expenses:tax:federal"%string, None)]];
                 query_remove_groups := [];
                 query_exclude_accounts := ["expenses:tax:state"%string] |});
             ("business_expenses"%string,
              {| query_accounts := [AccountName "expenses:business"];
                 query_remove_groups := [];
                 query_exclude_accounts := [] |})] |}.

Definition sample_personal : PersonalFile F :=
  {| calculator_params := personal_with None None;
     home_office :=
       Some {| office_accounts := Some ["expenses:rent"%string];
               deduction_rate := Some (lit 0.1);
               fixed_deduction := Some (of_int 500) |};
     additional_federal_deduction := None |}.

(** A ledger that answers every query with 1000. *)
Definition flat_ledger (args : list string) (year : option Z) : F := of_int 1000.

End SampleRun.

(** ** Binary64 values as integers

    A finite binary64 number is an integer multiple of [2^emin]; its value
    in that unit, with the infinities one step beyond the largest finite
    value, orders the numbers as the comparisons do.  The operations are
    the exact integer operations followed by a rounding to nearest, ties
    to even, which is written here on integers. *)

Section RoundingDefinitions.
Local Open Scope Z_scope.

(** [m / 2^n] rounded to the nearest integer, a tie to the even one. *)
Definition rne (m n : Z) : Z :=
  if n <=? 0 then m
  else
    let q := m / 2 ^ n in
    match 2 * (m mod 2 ^ n) ?= 2 ^ n with
    | Lt => q
    | Eq => if Z.even q then q else q + 1
    | Gt => q + 1
    end.

(** How many bits a natural number [N], read as [N / 2^K] units, loses
    when it is rounded to [prec] digits on the grid of the units. *)
Definition rnd_shift (prec K N : Z) : Z := Z.max (Z.log2 N + 1 - prec) K.

(** [N / 2^K] units rounded to the format, in units. *)
Definition rnd (prec K N : Z) : Z :=
  rne N (rnd_shift prec K N) * 2 ^ (rnd_shift prec K N - K).

(** The shift register of [SpecFloat.shr] after [k] steps on [m]: the
    quotient, the last bit shifted out, and whether a bit before it was
    set. *)
Definition shr_state (m k : Z) : shr_record :=
  {| shr_m := m / 2 ^ k;
     shr_r := if k <=? 0 then false else Z.odd (m / 2 ^ (k - 1));
     shr_s := if k <=? 0 then false else negb (m mod 2 ^ (k - 1) =? 0) |}.

(** The value of a number in units of [2^emin]; an infinity is the power
    of two past the largest finite value. *)
Definition SF2Z (prec emax : Z) (f : spec_float) : Z :=
  match f with
  | S754_zero _ => 0
  | S754_nan => 0
  | S754_infinity s => cond_Zopp s (2 ^ (emax - SpecFloat.emin prec emax))
  | S754_finite s m e => cond_Zopp s (Zpos m * 2 ^ (e - SpecFloat.emin prec emax))
  end.

Definition is_nan_sf (f : spec_float) : bool :=
  match f with
  | S754_nan => true
  | _ => false
  end.

(** The rounding of an integer [S], read as [S / 2^K] units: symmetric
    around zero, and an infinity when out of range. *)
Definition rnd_signed (prec emax K S : Z) : Z :=
  let top := 2 ^ (emax - SpecFloat.emin prec emax) in
  if S <? 0 then - Z.min (rnd prec K (- S)) top else Z.min (rnd prec K S) top.

Definition is_finite_sf (f : spec_float) : bool :=
  match f with
  | S754_zero _ | S754_finite _ _ _ => true
  | _ => false
  end.

(** The value of a binary64 number, in units of [2^-1074]. *)
Definition b64_value (x : float) : Z := SF2Z prec emax (Prim2SF x).

Definition b64_nan (x : float) : bool := is_nan_sf (Prim2SF x).

Definition b64_finite (x : float) : bool := is_finite_sf (Prim2SF x).

(** The value of the positive infinity. *)
Definition b64_top : Z := 2 ^ (emax - SpecFloat.emin prec emax).

(** The rounding of a sum or difference of values, and of a product of
    values, which is in units of [2^-2148]. *)
Definition b64_round (S : Z) : Z := rnd_signed prec emax 0 S.

Definition b64_round_product (P : Z) : Z :=
  rnd_signed prec emax (- SpecFloat.emin prec emax) P.

End RoundingDefinitions.

(** ** A table and a rule with thresholds at both ends of the range *)



(** ** Binary64 facts *)

Section Binary64Facts.
Local Open Scope float_scope.

(** The literals of the program are the doubles Rocq's own reader gives. *)
Lemma literals_are_nearest_doubles :
  lit 0.9235 = 0.9235 /\ lit 0.029 = 0.029 /\ lit 0.038 = 0.038 /\
  lit 0.19732 = 0.19732 /\ lit 0.124 = 0.124 /\ lit 0.0145 = 0.0145 /\
  lit 0.009 = 0.009 /\ lit 100.0 = 100 /\ lit 0.0 = 0 /\
  lit 0.10 = 0.1 /\ lit 0.20 = 0.2 /\ lit 0.01 = 0.01 /\ lit 0.003 = 0.003 /\
  of_int 0 = 0 /\ of_int 1 = 1 /\ of_int 2 = 2 /\ of_int 200000 = 200000.
Proof. vm_compute. repeat split. Qed.

Lemma Prim2SF_zero : Prim2SF 0 = S754_zero false.
Proof. reflexivity. Qed.

Lemma b64_mul_comm (x y : float) : x * y = y * x.
Proof.
  apply Prim2SF_inj. rewrite !mul_spec. unfold SF64mul, SFmul.
  destruct (Prim2SF x) as [sx|sx| |sx mx ex], (Prim2SF y) as [sy|sy| |sy my ey];
    try reflexivity; rewrite (xorb_comm sx sy); try reflexivity.
  now rewrite (Pos.mul_comm mx my), (Z.add_comm ex ey).
Qed.

(** [max(x, 0)] and [max(0, x)] are never below zero. *)
Lemma b64_max_zero_r (x : float) : (py_max x 0 <? 0)%py = false.
Proof.
  unfold py_max; cbn. destruct (x <? 0) eqn:E; [reflexivity | exact E].
Qed.

Lemma b64_opp_pos (x : float) : (0 <? x) = true -> (- x <? 0) = true.
Proof.
  rewrite !ltb_spec, opp_spec, Prim2SF_zero.
  destruct (Prim2SF x) as [s|s| |s m e]; cbn; try discriminate;
    destruct s; cbn; intros H; try discriminate; reflexivity.
Qed.

Lemma b64_abs_not_neg (x : float) : (abs x <? 0) = false.
Proof.
  rewrite ltb_spec, abs_spec, Prim2SF_zero.
  destruct (Prim2SF x) as [s|s| |s m e]; reflexivity.
Qed.

Lemma b64_abs_opp (x : float) : abs (- x) = abs x.
Proof.
  apply Prim2SF_inj. rewrite !abs_spec, opp_spec.
  destruct (Prim2SF x) as [s|s| |s m e]; reflexivity.
Qed.

(** An income that is not above zero is not above a positive threshold. *)
Lemma b64_not_above (x t : float) :
  (x <=? 0) = true -> (0 <=? t) = true -> (t <? x) = false.
Proof.
  rewrite !leb_spec, ltb_spec, Prim2SF_zero. unfold SFleb, SFltb.
  destruct (Prim2SF x) as [s|s| |s m e], (Prim2SF t) as [s'|s'| |s' m' e'];
    cbn; try discriminate; try reflexivity;
    repeat match goal with b : bool |- _ => destruct b end; cbn;
    try discriminate; reflexivity.
Qed.

End Binary64Facts.

(** ** The sign of a rounded product *)

Section RoundedSign.
Local Open Scope Z_scope.

Lemma shr_1_nonneg (mrs : shr_record) : 0 <= shr_m mrs -> 0 <= shr_m (shr_1 mrs).
Proof.
  destruct mrs as [m r s]; destruct m as [ | [p | p | ] | [p | p | ]]; cbn; lia.
Qed.

Lemma iter_shr_1_nonneg (p : positive) :
  forall mrs, 0 <= shr_m mrs -> 0 <= shr_m (iter_pos shr_1 p mrs).
Proof.
  induction p as [p IH | p IH | ]; cbn; intros mrs H.
  - apply IH, IH, shr_1_nonneg, H.
  - apply IH, IH, H.
  - apply shr_1_nonneg, H.
Qed.

Lemma shr_nonneg (mrs : shr_record) (e n : Z) :
  0 <= shr_m mrs -> 0 <= shr_m (fst (shr mrs e n)).
Proof.
  intros H. destruct n; cbn; auto using iter_shr_1_nonneg.
Qed.

Lemma shr_fexp_nonneg (p emx m e : Z) (l : location) :
  0 <= m -> 0 <= shr_m (fst (shr_fexp p emx m e l)).
Proof.
  intros H. unfold shr_fexp. apply shr_nonneg.
  destruct l as [ | [ | | ]]; exact H.
Qed.

Lemma round_nearest_even_nonneg (m : Z) (l : location) :
  0 <= m -> 0 <= round_nearest_even m l.
Proof.
  intros H. destruct l as [ | [ | | ]]; cbn; try destruct (IntDef.Z.even m); lia.
Qed.

(** Rounding a magnitude keeps the sign it is given: the outcome is a zero,
    a finite number or an infinity of that sign. *)
Lemma binary_round_aux_sign (p emx : Z) (s : bool) (m : positive) (e : Z) :
  match binary_round_aux p emx s (Z.pos m) e loc_Exact with
  | S754_zero s' | S754_infinity s' | S754_finite s' _ _ => s' = s
  | S754_nan => False
  end.
Proof.
  unfold binary_round_aux.
  pose proof (shr_fexp_nonneg p emx (Z.pos m) e loc_Exact ltac:(lia)) as H1.
  destruct (shr_fexp p emx (Z.pos m) e loc_Exact) as [mrs' e'].
  cbn [fst] in H1.
  pose proof (shr_fexp_nonneg p emx _ e' loc_Exact
                (round_nearest_even_nonneg _ (loc_of_shr_record mrs') H1)) as H2.
  destruct (shr_fexp p emx _ e' loc_Exact) as [mrs'' e''].
  cbn [fst] in H2.
  destruct (shr_m mrs'') as [ | q | q ]; [reflexivity | | lia].
  destruct (e'' <=? emx - p); reflexivity.
Qed.

End RoundedSign.

Section SignOfProduct.
Local Open Scope float_scope.

(** A value below zero or the negative zero, times a positive finite
    constant, is again below zero or the negative zero. *)
Lemma b64_mul_keeps_negative (x c : float) (m : positive) (e : Z) :
  Prim2SF c = S754_finite false m e ->
  (x <? 0) = true \/ x = -0 ->
  (x * c <? 0) = true \/ x * c = -0.
Proof.
  intros Hc Hx.
  assert (Hs : match Prim2SF x with
               | S754_zero s | S754_infinity s | S754_finite s _ _ => s = true
               | S754_nan => False
               end).
  { destruct Hx as [Hx | ->]; [| reflexivity].
    rewrite ltb_spec, Prim2SF_zero in Hx.
    destruct (Prim2SF x) as [s | s | | s mx ex]; cbn in Hx; try discriminate;
      destruct s; try discriminate; reflexivity. }
  assert (Hp : match Prim2SF (x * c) with
               | S754_zero s | S754_infinity s | S754_finite s _ _ => s = true
               | S754_nan => False
               end).
  { rewrite mul_spec, Hc. unfold SF64mul, SFmul.
    destruct (Prim2SF x) as [s | s | | s mx ex]; try contradiction; subst s;
      try reflexivity.
    apply (binary_round_aux_sign prec emax (xorb true false) (mx * m) (ex + e)). }
  destruct (Prim2SF (x * c)) as [s | s | | s mp ep] eqn:E; try contradiction; subst s.
  - right. apply Prim2SF_inj. rewrite E. reflexivity.
  - left. rewrite ltb_spec, E. reflexivity.
  - left. rewrite ltb_spec, E. reflexivity.
Qed.

End SignOfProduct.

(** ** The calculators on binary64 *)

Section OnBinary64.
Local Open Scope py_scope.

Lemma py_mul_comm (x y : float) : x * y = y * x.
Proof. exact (b64_mul_comm x y). Qed.

(** C1: [compute_social_security_tax] returns the negative of
    [w2_ss_tax + se_ss_tax - soc_tax_paid], with the cap doubled for the
    "joint" filing status (which is also what an absent [filing_status]
    reads as), so that a positive amount owed comes out below zero. *)
Theorem social_security_true_up :
  forall (params : PersonalParams float)
         (w2_medicare net_business_income ss_max soc_tax_paid : float) (year : Z),
    let status := get_or (filing_status params) "joint"%string in
    let shortfall :=
      ss_shortfall status w2_medicare net_business_income ss_max soc_tax_paid in
    let returned :=
      compute_social_security_tax params w2_medicare net_business_income
                                  ss_max soc_tax_paid year in
    returned = - shortfall
    /\ ((of_int 0 <? shortfall) = true -> (returned <? of_int 0) = true).
Proof.
  intros params w2 nbi cap paid year status shortfall returned.
  assert (E : returned = - shortfall).
  { subst returned shortfall status.
    unfold compute_social_security_tax, ss_shortfall, ss_cap.
    destruct (String.eqb _ "joint"); [rewrite (py_mul_comm cap) |]; reflexivity. }
  split; [exact E |].
  rewrite E. apply b64_opp_pos.
Qed.

Lemma social_security_true_up_witness :
  (compute_social_security_tax (personal_with (F:=float) (Some "joint"%string) None)
     (of_int 100000) (of_int 50000) (of_int 10000) (of_int 5000) 2024
   <? of_int 0) = true.
Proof.
  apply (proj2 (social_security_true_up
                  (personal_with (F:=float) (Some "joint"%string) None)
                  (of_int 100000) (of_int 50000) (of_int 10000) (of_int 5000) 2024)).
  vm_compute. reflexivity.
Defined.

(** C3: once the Medicare threshold is resolved, [compute_medicare_tax]
    returns [max(0.0145 * w2_medicare + 0.009 * max(0, w2_medicare +
    net_business_income * 0.9235 - threshold) - med_tax_paid, 0)]; and
    whatever the inputs, a returned value is never below zero (the only
    other outcome is the ValueError of a missing table entry). *)
Theorem medicare_true_up :
  forall (params : PersonalParams float) (load_tax_params : Z -> TaxParams float)
         (w2_medicare net_business_income med_tax_paid : float) (year : Z),
    let returned :=
      compute_medicare_tax params load_tax_params w2_medicare
                           net_business_income med_tax_paid year in
    (forall fed_params,
        federal_params_for load_tax_params year
          (get_or (filing_status params) "single"%string) = Ok fed_params ->
        returned =
        Ok (medicare_formula w2_medicare net_business_income med_tax_paid
              (get_or (medicare_threshold fed_params) (of_int 200000))))
    /\ match returned with
       | Ok tax => (tax <? of_int 0) = false
       | Raise e => e = ValueError
       end.
Proof.
  intros params load w2 nbi paid year returned. subst returned.
  unfold compute_medicare_tax. split.
  - intros fed_params ->. unfold medicare_formula.
    rewrite (py_mul_comm (lit 0.009)). reflexivity.
  - unfold federal_params_for.
    destruct (dict_get _ (get_or _ _)); [apply b64_max_zero_r |].
    destruct (dict_get _ "joint"); [apply b64_max_zero_r | reflexivity].
Qed.

Lemma medicare_true_up_witness :
  compute_medicare_tax (personal_with (F:=float) None None) (sample_tax_params (F:=float))
    (of_int 300000) (of_int 100000) (of_int 4350) 2024
  = Ok (medicare_formula (of_int 300000) (of_int 100000) (of_int 4350)
          (of_int 200000)).
Proof.
  exact (proj1 (medicare_true_up (personal_with (F:=float) None None)
                  (sample_tax_params (F:=float))
                  (of_int 300000) (of_int 100000) (of_int 4350) 2024)
               (status_params (F:=float) 200000) eq_refl).
Defined.

(** C4: once the NIIT threshold is resolved, [compute_investment_tax]
    returns 0 when AGI <= threshold and otherwise
    [0.038 * max(min(investment_income, AGI - threshold), 0)]; when the
    investment income exceeds the excess [AGI - threshold], the tax is
    charged on the excess. *)
Theorem net_investment_income_tax :
  forall (params : PersonalParams float) (load_tax_params : Z -> TaxParams float)
         (investment_income agi : float) (year : Z)
         (fed_params : JurisdictionTaxParams float),
    federal_params_for load_tax_params year
      (get_or (filing_status params) "joint"%string) = Ok fed_params ->
    let threshold := get_or (niit_threshold fed_params) (of_int 200000) in
    let returned :=
      compute_investment_tax params load_tax_params investment_income agi year in
    returned = Ok (niit_formula investment_income agi threshold)
    /\ ((agi <=? threshold) = true -> returned = Ok (of_int 0))
    /\ ((agi <=? threshold) = false ->
        returned =
        Ok (lit 0.038 * py_max (py_min investment_income (agi - threshold)) (of_int 0)))
    /\ ((agi <=? threshold) = false ->
        (agi - threshold <? investment_income) = true ->
        returned = Ok (lit 0.038 * py_max (agi - threshold) (of_int 0))).
Proof.
  intros params load inv agi year fed_params Hfed threshold returned.
  assert (E : returned = Ok (niit_formula inv agi threshold)).
  { subst returned threshold. unfold compute_investment_tax, niit_formula.
    rewrite Hfed. destruct (agi <=? _); reflexivity. }
  rewrite E. unfold niit_formula, py_min.
  repeat split.
  - intros ->. reflexivity.
  - intros ->. reflexivity.
  - intros -> ->. reflexivity.
Qed.

Lemma net_investment_income_tax_witness :
  compute_investment_tax (personal_with (F:=float) (Some "single"%string) None)
    (sample_tax_params (F:=float)) (of_int 50000) (of_int 200000) 2024 = Ok (of_int 0)
  /\ compute_investment_tax (personal_with (F:=float) (Some "single"%string) None)
       (sample_tax_params (F:=float)) (of_int 50000) (of_int 200001) 2024
     = Ok (lit 0.038 * py_max (of_int 200001 - of_int 200000) (of_int 0)).
Proof.
  split.
  - apply (net_investment_income_tax (personal_with (F:=float) (Some "single"%string) None)
             (sample_tax_params (F:=float)) (of_int 50000) (of_int 200000) 2024
             (status_params (F:=float) 200000)); reflexivity.
  - apply (net_investment_income_tax (personal_with (F:=float) (Some "single"%string) None)
             (sample_tax_params (F:=float)) (of_int 50000) (of_int 200001) 2024
             (status_params (F:=float) 200000)); vm_compute; reflexivity.
Defined.

(** C6: with [max_contribution = net_business_income * 0.19732],
    [compute_solo_401k_contribution] returns [max_contribution] for
    "maximize" (and for an absent policy), 0 for "none" or a numeric 0,
    [max_contribution * p/100] for another number [p], and
    [max_contribution] for anything else; for 100000 that is 19732.0 on
    "maximize", 9866.0 on 50, and 0 on "none". *)
Theorem solo_401k_contribution_policy :
  (forall (params : PersonalParams float) (net_business_income : float) (year : Z),
      compute_solo_401k_contribution params net_business_income year
      = solo_401k_formula (solo_401k_contribution params)
          (net_business_income * lit 0.19732))
  /\ (forall year status,
         compute_solo_401k_contribution
           (personal_with (F:=float) status (Some (YStr "maximize"))) (of_int 100000) year
         = lit 19732.0
         /\ compute_solo_401k_contribution
              (personal_with (F:=float) status (Some (YInt 50))) (of_int 100000) year
            = lit 9866.0
         /\ compute_solo_401k_contribution
              (personal_with (F:=float) status (Some (YStr "none"))) (of_int 100000) year
            = of_int 0).
Proof.
  split.
  - intros params nbi year. unfold compute_solo_401k_contribution, solo_401k_formula.
    destruct (solo_401k_contribution params) as [[s | p | p | b | | ] | ];
      try reflexivity; cbn [get_or yaml_eq_str yaml_eq_zero yaml_number orb].
    + destruct (String.eqb s "maximize"); [reflexivity |].
      rewrite orb_false_r. destruct (String.eqb s "none"); reflexivity.
    + destruct b; reflexivity.
  - intros year status. repeat split.
Qed.

End OnBinary64.

Section BracketsOnBinary64.
Local Open Scope py_scope.

(** The loop adds up the accrued amounts. *)
Lemma bracket_loop_accruals (income : float) (table : list (TaxBracket float)) :
  forall tax, bracket_loop income table tax = fold_left fadd (accruals income table) tax.
Proof.
  induction table as [ | bracket later IH]; intros tax; [reflexivity |].
  destruct later as [ | next later'].
  - cbn [bracket_loop accruals fold_left].
    destruct (threshold bracket <? income); [rewrite py_mul_comm |]; reflexivity.
  - change (bracket_loop income (bracket :: next :: later') tax)
      with (bracket_loop income (next :: later')
              (if threshold bracket <? income
               then tax + (py_min income (threshold next) - threshold bracket)
                          * rate bracket
               else tax)).
    change (accruals income (bracket :: next :: later'))
      with ((if threshold bracket <? income
             then [rate bracket * (py_min income (threshold next) - threshold bracket)]
             else [])
            ++ accruals income (next :: later')).
    rewrite IH, fold_left_app.
    destruct (threshold bracket <? income); [rewrite py_mul_comm |]; reflexivity.
Qed.

(** C2: [compute_bracket_tax] adds, for each bracket but the last with
    income above its threshold, [rate * (min(income, next_threshold) -
    threshold)], and for the last bracket [rate * (income - threshold)] when
    income exceeds it, and clamps the sum at zero; on the table
    [{0, 10%}, {10000, 20%}] an income of 5000 gives 500, 15000 gives 2000,
    and an income of zero or less gives 0. *)
Theorem bracket_tax_accrues :
  (forall (income : float) (table : list (TaxBracket float)),
      compute_bracket_tax income table = bracket_tax_formula income table)
  /\ compute_bracket_tax (F:=float) (of_int 5000) two_bracket_table = of_int 500
  /\ compute_bracket_tax (F:=float) (of_int 15000) two_bracket_table = of_int 2000
  /\ (forall income : float,
         (income <=? of_int 0) = true ->
         compute_bracket_tax income two_bracket_table = of_int 0).
Proof.
  split; [| split; [| split]].
  - intros income table. unfold compute_bracket_tax, bracket_tax_formula.
    rewrite bracket_loop_accruals. reflexivity.
  - reflexivity.
  - reflexivity.
  - intros income H. unfold compute_bracket_tax, two_bracket_table.
    cbn [bracket_loop threshold rate].
    assert (H0 : (of_int 0 <? income) = false)
      by (apply b64_not_above; [exact H | vm_compute; reflexivity]).
    assert (H1 : (of_int 10000 <? income) = false)
      by (apply b64_not_above; [exact H | vm_compute; reflexivity]).
    rewrite H0, H1. reflexivity.
Qed.

Lemma bracket_tax_accrues_witness :
  compute_bracket_tax (F:=float) (of_int (-250)) two_bracket_table = of_int 0.
Proof.
  apply (proj2 (proj2 (proj2 bracket_tax_accrues)) (of_int (-250))).
  reflexivity.
Defined.

End BracketsOnBinary64.

Section SelfEmployment.
Local Open Scope py_scope.

(** C7: [compute_self_employment_tax] returns exactly
    [net_business_income * 0.9235 * 0.029] with no clamping: a negative
    income gives a negative tax.  On binary64 the product of a negative
    income is below zero, or the negative zero that an underflow leaves. *)
Theorem self_employment_tax_unclamped :
  (forall (F : Type) (N : PyFloat F) (net_business_income : F),
      compute_self_employment_tax net_business_income
      = net_business_income * lit 0.9235 * lit 0.029)
  /\ (forall net_business_income : Q,
         (net_business_income < 0)%Q ->
         (compute_self_employment_tax net_business_income < 0)%Q)
  /\ (forall net_business_income : float,
         (net_business_income <? of_int 0) = true ->
         (compute_self_employment_tax net_business_income <? of_int 0) = true
         \/ compute_self_employment_tax net_business_income = (-0)%float).
Proof.
  split; [| split].
  - reflexivity.
  - intros [a b] H. unfold compute_self_employment_tax, Qlt in *. cbn in *. lia.
  - intros nbi H. unfold compute_self_employment_tax.
    eapply b64_mul_keeps_negative; [reflexivity |].
    eapply b64_mul_keeps_negative; [reflexivity |].
    left. exact H.
Qed.

Lemma self_employment_tax_unclamped_witness :
  (compute_self_employment_tax (F:=Q) (- (1000)) < 0)%Q
  /\ ((compute_self_employment_tax (F:=float) (of_int (-1000)) <? of_int 0) = true
      \/ compute_self_employment_tax (F:=float) (of_int (-1000)) = (-0)%float).
Proof.
  split.
  - apply (proj1 (proj2 self_employment_tax_unclamped)). reflexivity.
  - apply (proj2 (proj2 self_employment_tax_unclamped)). reflexivity.
Defined.

End SelfEmployment.

(** ** Statements that hold for any arithmetic *)

Section AnyArithmetic.
Context {F : Type} {N : PyFloat F}.
Local Open Scope py_scope.

Lemma balance_after_is_balance (pow : F -> Z -> F) (p r pay : F) (m : Z) :
  balance_after pow p r pay m = balance pow p r pay m.
Proof. reflexivity. Qed.

Lemma interest_paid_until_is_cumulative (pow : F -> Z -> F) (p r pay : F) (m : Z) :
  interest_paid_until pow p r pay m = cumulative_interest pow p r pay m.
Proof. reflexivity. Qed.

End AnyArithmetic.

(** C5: with no override for the year and no ledger account, and with
    principal, monthly rate, payment and start year all present,
    [compute_interest year] is the cumulative interest at month
    [start_month + 12] minus that at [start_month], with
    [start_month = max(0, 12 * (year - start_year))], for the balance and
    cumulative-interest formulas of the specification. *)
Theorem amortized_interest :
  forall (F : Type) (N : PyFloat F)
         (run_hledger_command : list string -> Z -> F) (pow : F -> Z -> F)
         (params : PersonalParams F) (year : Z)
         (loan r pay : F) (first_year : Z),
    (forall by_year, interest_by_year params = Some by_year ->
                     dict_get by_year (py_str year) = None) ->
    interest_account params = None ->
    principal params = Some loan ->
    monthly_rate params = Some r ->
    payment params = Some pay ->
    start_year params = Some first_year ->
    let start_month := Z.max 0 (12 * (year - first_year)) in
    compute_interest run_hledger_command pow params year
    = (cumulative_interest pow loan r pay (start_month + 12)
       - cumulative_interest pow loan r pay start_month)%py.
Proof.
  intros F N run pow params year loan r pay first_year
         Hover Hacct Hloan Hr Hpay Hfirst start_month.
  unfold compute_interest.
  assert (E : match interest_by_year params with
              | Some by_year => dict_get by_year (py_str year)
              | None => None
              end = None).
  { destruct (interest_by_year params) as [by_year | ]; [| reflexivity].
    apply Hover. reflexivity. }
  rewrite E, Hacct, Hloan, Hr, Hpay, Hfirst.
  rewrite !interest_paid_until_is_cumulative. reflexivity.
Qed.

Lemma amortized_interest_witness :
  compute_interest (F:=Q) (fun _ _ => 0%Q) Qpower personal_with_loan 2021
  = (cumulative_interest Qpower (of_int 300000) (lit 0.003) (of_int 1500) 24
     - cumulative_interest Qpower (of_int 300000) (lit 0.003) (of_int 1500) 12)%py.
Proof.
  apply (amortized_interest Q Exact (fun _ _ => 0%Q) Qpower personal_with_loan
           2021 (of_int 300000) (lit 0.003) (of_int 1500) 2020);
    try reflexivity.
  intros by_year H. injection H as <-. reflexivity.
Defined.

(** C10: a configuration without [filing_status] is read as "single" by
    [compute_medicare_tax] and as "joint" by [compute_social_security_tax]
    and [compute_investment_tax]: each returns what it returns when the
    key is set to that status.  So in one run the Medicare threshold is the
    "single" entry's while the wage cap is doubled as for "joint" and the
    NIIT threshold is the "joint" entry's; and a status that is set is
    heeded, Medicare reading the "joint" entry and NIIT the "single" entry
    when told so, so that the defaults do differ. *)
Theorem filing_status_defaults_differ :
  forall (F : Type) (N : PyFloat F) (params : PersonalParams F),
    filing_status params = None ->
    forall (load_tax_params : Z -> TaxParams F)
           (w2_medicare net_business_income ss_max soc_tax_paid med_tax_paid
              investment_income agi : F) (year : Z),
      let medicare_at (entry : JurisdictionTaxParams F) :=
        (py_max
           (lit 0.0145 * w2_medicare
            + py_max (lit 0.0)
                (w2_medicare + net_business_income * lit 0.9235
                 - get_or (medicare_threshold entry) (of_int 200000))
              * lit 0.009
            - med_tax_paid)
           (lit 0.0))%py in
      let niit_at (entry : JurisdictionTaxParams F) :=
        (let niit := get_or (niit_threshold entry) (of_int 200000) in
         if agi <=? niit then lit 0.0
         else lit 0.038 * py_max (py_min investment_income (agi - niit)) (of_int 0))%py in
      compute_medicare_tax params load_tax_params
        w2_medicare net_business_income med_tax_paid year
      = compute_medicare_tax (with_filing_status params "single") load_tax_params
          w2_medicare net_business_income med_tax_paid year
      /\ compute_social_security_tax params
           w2_medicare net_business_income ss_max soc_tax_paid year
         = compute_social_security_tax (with_filing_status params "joint")
             w2_medicare net_business_income ss_max soc_tax_paid year
      /\ compute_social_security_tax params
           w2_medicare net_business_income ss_max soc_tax_paid year
         = (- (py_min (w2_medicare * lit 0.124) (ss_max * of_int 2)
               + py_min (net_business_income * lit 0.9235 * lit 0.124)
                   (py_max (of_int 0)
                      (ss_max * of_int 2
                       - py_min (w2_medicare * lit 0.124) (ss_max * of_int 2)))
               - soc_tax_paid))%py
      /\ compute_investment_tax params load_tax_params investment_income agi year
         = compute_investment_tax (with_filing_status params "joint") load_tax_params
             investment_income agi year
      /\ (forall single,
             dict_get (federal (load_tax_params year)) "single" = Some single ->
             compute_medicare_tax params load_tax_params
               w2_medicare net_business_income med_tax_paid year
             = Ok (medicare_at single)
             /\ compute_investment_tax (with_filing_status params "single")
                  load_tax_params investment_income agi year
                = Ok (niit_at single))
      /\ (forall joint,
             dict_get (federal (load_tax_params year)) "joint" = Some joint ->
             compute_investment_tax params load_tax_params investment_income agi year
             = Ok (niit_at joint)
             /\ compute_medicare_tax (with_filing_status params "joint")
                  load_tax_params w2_medicare net_business_income med_tax_paid year
                = Ok (medicare_at joint)).
Proof.
  intros F N params Hnone load w2 nbi cap soc med inv agi year medicare_at niit_at.
  subst medicare_at niit_at.
  unfold compute_medicare_tax, compute_social_security_tax, compute_investment_tax.
  rewrite Hnone. cbn [with_filing_status filing_status get_or].
  repeat split; unfold federal_params_for; rewrite H; cbv zeta;
    try destruct (fle agi _); reflexivity.
Qed.

Lemma filing_status_defaults_differ_witness :
  compute_medicare_tax (personal_with (F:=float) None None) sample_tax_params
    (of_int 300000) (of_int 0) (of_int 0) 2024
  = compute_medicare_tax (personal_with (F:=float) (Some "single"%string) None)
      sample_tax_params (of_int 300000) (of_int 0) (of_int 0) 2024
  /\ compute_medicare_tax (personal_with (F:=float) None None) sample_tax_params
       (of_int 300000) (of_int 0) (of_int 0) 2024
     <> compute_medicare_tax (personal_with (F:=float) (Some "joint"%string) None)
          sample_tax_params (of_int 300000) (of_int 0) (of_int 0) 2024
  /\ compute_social_security_tax (personal_with (F:=float) None None)
       (of_int 300000) (of_int 0) (of_int 10453) (of_int 0) 2024
     = compute_social_security_tax (personal_with (F:=float) (Some "joint"%string) None)
         (of_int 300000) (of_int 0) (of_int 10453) (of_int 0) 2024
  /\ compute_social_security_tax (personal_with (F:=float) None None)
       (of_int 300000) (of_int 0) (of_int 10453) (of_int 0) 2024
     <> compute_social_security_tax (personal_with (F:=float) (Some "single"%string) None)
          (of_int 300000) (of_int 0) (of_int 10453) (of_int 0) 2024
  /\ compute_investment_tax (personal_with (F:=float) None None) sample_tax_params
       (of_int 50000) (of_int 240000) 2024
     = compute_investment_tax (personal_with (F:=float) (Some "joint"%string) None)
         sample_tax_params (of_int 50000) (of_int 240000) 2024
  /\ compute_investment_tax (personal_with (F:=float) None None) sample_tax_params
       (of_int 50000) (of_int 240000) 2024
     = Ok (lit 0.0)
  /\ compute_investment_tax (personal_with (F:=float) (Some "single"%string) None)
       sample_tax_params (of_int 50000) (of_int 240000) 2024
     = Ok (of_int 1520).
Proof.
  pose proof (filing_status_defaults_differ float Binary64
                (personal_with None None) eq_refl sample_tax_params
                (of_int 300000) (of_int 0) (of_int 10453) (of_int 0) (of_int 0)
                (of_int 50000) (of_int 240000) 2024)
    as (Hmed & Hss & _ & Hinv & Hsingle & Hjoint).
  split; [exact Hmed |]. split.
  { intros H.
    apply (f_equal (fun outcome => match outcome with
                                   | Ok tax => PrimFloat.eqb tax 4800
                                   | Raise _ => false
                                   end)) in H.
    vm_compute in H. discriminate H. }
  split; [exact Hss |]. split.
  { intros H.
    apply (f_equal (fun x => PrimFloat.eqb x (-20906))) in H. vm_compute in H.
    discriminate H. }
  split; [exact Hinv |]. split.
  - rewrite (proj1 (Hjoint _ eq_refl)). vm_compute. reflexivity.
  - etransitivity; [exact (proj2 (Hsingle _ eq_refl)) |]. vm_compute. reflexivity.
Defined.

(** ** The calculators on exact rationals *)

Section OnExact.
Local Open Scope py_scope.

Lemma exact_lt_true (a b : Q) : (a <? b) = true -> (a < b)%Q.
Proof.
  cbn. rewrite negb_true_iff. intros H. apply Qnot_le_lt. intros Hle.
  apply Qle_bool_iff in Hle. congruence.
Qed.

Lemma exact_lt_false (a b : Q) : (a <? b) = false -> (b <= a)%Q.
Proof.
  cbn. rewrite negb_false_iff. apply Qle_bool_iff.
Qed.

Lemma exact_le_true (a b : Q) : (a <=? b) = true -> (a <= b)%Q.
Proof. apply Qle_bool_iff. Qed.

(** Decide every comparison in sight and read it as an inequality. *)
Ltac exact_cases :=
  unfold py_min, py_max;
  repeat match goal with
         | |- context [flt ?a ?b] =>
             let E := fresh "E" in
             destruct (flt a b) eqn:E;
             [apply exact_lt_true in E | apply exact_lt_false in E]
         end.

Lemma exact_max_monotone (a b c : Q) : (a <= b)%Q -> (py_max a c <= py_max b c)%Q.
Proof. intros H. exact_cases; lra. Qed.

Lemma exact_min_monotone (a b c : Q) : (a <= b)%Q -> (py_min a c <= py_min b c)%Q.
Proof. intros H. exact_cases; lra. Qed.

Lemma exact_min_above (a c t : Q) : (t < a)%Q -> (t < c)%Q -> (t < py_min a c)%Q.
Proof. intros Ha Hc. exact_cases; lra. Qed.

(** One turn of the loop on a bracket that has a successor. *)
Lemma exact_bracket_step (t u r x y tax1 tax2 : Q) :
  (t < u)%Q -> (0 <= r)%Q -> (x <= y)%Q -> (tax1 <= tax2)%Q ->
  ((if t <? x then tax1 + (py_min x u - t) * r else tax1)
   <= (if t <? y then tax2 + (py_min y u - t) * r else tax2))%Q.
Proof.
  intros Htu Hr Hxy Htax.
  destruct (t <? x) eqn:Ex; destruct (t <? y) eqn:Ey;
    [apply exact_lt_true in Ex | apply exact_lt_true in Ex
     | apply exact_lt_false in Ex | apply exact_lt_false in Ex];
    [apply exact_lt_true in Ey | apply exact_lt_false in Ey
     | apply exact_lt_true in Ey | apply exact_lt_false in Ey]; cbn [fadd fsub fmul Exact].
  - pose proof (exact_min_monotone x y u Hxy) as Hmin.
    assert ((py_min x u - t) * r <= (py_min y u - t) * r)%Q
      by (apply Qmult_le_compat_r; lra).
    lra.
  - lra.
  - pose proof (exact_min_above y u t Ey Htu) as Hmin.
    assert (0 <= (py_min y u - t) * r)%Q by (apply Qmult_le_0_compat; lra).
    lra.
  - exact Htax.
Qed.

(** The turn of the loop on the last bracket. *)
Lemma exact_last_bracket_step (t r x y tax1 tax2 : Q) :
  (0 <= r)%Q -> (x <= y)%Q -> (tax1 <= tax2)%Q ->
  (tax1 + (if t <? x then (x - t) * r else of_int 0)
   <= tax2 + (if t <? y then (y - t) * r else of_int 0))%Q.
Proof.
  intros Hr Hxy Htax.
  destruct (t <? x) eqn:Ex; destruct (t <? y) eqn:Ey;
    [apply exact_lt_true in Ex | apply exact_lt_true in Ex
     | apply exact_lt_false in Ex | apply exact_lt_false in Ex];
    [apply exact_lt_true in Ey | apply exact_lt_false in Ey
     | apply exact_lt_true in Ey | apply exact_lt_false in Ey];
    cbn [fadd fsub fmul of_int Exact].
  - assert ((x - t) * r <= (y - t) * r)%Q by (apply Qmult_le_compat_r; lra).
    lra.
  - lra.
  - assert (0 <= (y - t) * r)%Q by (apply Qmult_le_0_compat; lra).
    change (inject_Z 0) with 0%Q. lra.
  - change (inject_Z 0) with 0%Q. lra.
Qed.

Lemma exact_bracket_loop_monotone (table : list (TaxBracket Q)) :
  thresholds_increasing table = true ->
  rates_in_unit_interval table = true ->
  forall x y tax1 tax2 : Q,
    (x <= y)%Q -> (tax1 <= tax2)%Q ->
    (bracket_loop x table tax1 <= bracket_loop y table tax2)%Q.
Proof.
  induction table as [ | bracket later IH]; intros Hinc Hrates x y tax1 tax2 Hxy Htax.
  - exact Htax.
  - cbn [rates_in_unit_interval forallb] in Hrates.
    apply andb_prop in Hrates as [Hrate Hrates].
    apply andb_prop in Hrate as [Hrate _]. apply exact_le_true in Hrate.
    change (inject_Z 0) with 0%Q in Hrate.
    destruct later as [ | next later'].
    + apply exact_last_bracket_step; assumption.
    + cbn [thresholds_increasing] in Hinc.
      apply andb_prop in Hinc as [Hstep Hinc]. apply exact_lt_true in Hstep.
      change (bracket_loop x (bracket :: next :: later') tax1)
        with (bracket_loop x (next :: later')
                (if threshold bracket <? x
                 then tax1 + (py_min x (threshold next) - threshold bracket)
                             * rate bracket
                 else tax1)).
      change (bracket_loop y (bracket :: next :: later') tax2)
        with (bracket_loop y (next :: later')
                (if threshold bracket <? y
                 then tax2 + (py_min y (threshold next) - threshold bracket)
                             * rate bracket
                 else tax2)).
      apply IH; [exact Hinc | exact Hrates | exact Hxy |].
      apply exact_bracket_step; assumption.
Qed.

Lemma exact_surcharges_monotone (rules : list (Surcharge Q)) :
  forallb (fun s => of_int 0 <=? get_or (surcharge_rate s) (of_int 0)) rules = true ->
  forall x y total1 total2 : Q,
    (x <= y)%Q -> (total1 <= total2)%Q ->
    (fold_left
       (fun total s =>
          total + get_or (surcharge_rate s) (of_int 0)
                  * py_max (x - get_or (surcharge_threshold s) (of_int 0)) (lit 0.0))
       rules total1
     <= fold_left
          (fun total s =>
             total + get_or (surcharge_rate s) (of_int 0)
                     * py_max (y - get_or (surcharge_threshold s) (of_int 0)) (lit 0.0))
          rules total2)%Q.
Proof.
  induction rules as [ | s rules IH]; intros Hrates x y total1 total2 Hxy Htotal.
  - exact Htotal.
  - cbn [forallb] in Hrates. apply andb_prop in Hrates as [Hrate Hrates].
    apply exact_le_true in Hrate. change (inject_Z 0) with 0%Q in Hrate.
    cbn [fold_left]. apply IH; [exact Hrates | exact Hxy |].
    set (r := get_or (surcharge_rate s) (of_int 0)) in *.
    set (t := get_or (surcharge_threshold s) (of_int 0)).
    assert (Hmax : (py_max (x - t) (lit 0.0) <= py_max (y - t) (lit 0.0))%Q).
    { apply exact_max_monotone. cbn [fsub Exact]. lra. }
    assert ((r * py_max (x - t) (lit 0.0) <= r * py_max (y - t) (lit 0.0))%Q).
    { rewrite !(Qmult_comm r). apply Qmult_le_compat_r; assumption. }
    cbn [fadd Exact]. lra.
Qed.

(** In exact arithmetic the brackets and the surcharges are monotonic
    non-decreasing in income without any side condition: for a table with
    strictly increasing thresholds and rates in [0, 1], and rules with
    non-negative rates, the tax at x is at most the tax at y for incomes
    x <= y. *)
Lemma exact_bracket_and_surcharge_monotone :
  forall (table : list (TaxBracket Q)) (rules : option (list (Surcharge Q)))
         (x y : Q),
    thresholds_increasing table = true ->
    rates_in_unit_interval table = true ->
    surcharge_rates_nonnegative rules = true ->
    (x <= y)%Q ->
    (compute_bracket_tax x table <= compute_bracket_tax y table)%Q
    /\ (compute_surcharges x rules <= compute_surcharges y rules)%Q.
Proof.
  intros table rules x y Hinc Hrates Hrules Hxy. split.
  - unfold compute_bracket_tax. apply exact_max_monotone.
    apply exact_bracket_loop_monotone; try assumption. apply Qle_refl.
  - unfold compute_surcharges.
    apply exact_surcharges_monotone; try assumption. apply Qle_refl.
Qed.

End OnExact.

(** ** The output parser *)

Section ParserFacts.
Import Utils.

Lemma boundary_is_space (c : ascii) : is_line_boundary c = true -> isspace c = true.
Proof.
  destruct c as [[] [] [] [] [] [] [] []]; vm_compute; intros H;
    first [reflexivity | discriminate H].
Qed.

Lemma linefeed_is_space (c : ascii) : Ascii.eqb c LF = true -> isspace c = true.
Proof.
  intros H. apply Ascii.eqb_eq in H. subst c. reflexivity.
Qed.

Lemma lstrip_blank (s : str) : forallb isspace s = true -> lstrip s = [].
Proof.
  induction s as [ | c rest IH]; [reflexivity |].
  cbn. intros H. apply andb_prop in H as [Hc Hrest]. rewrite Hc. exact (IH Hrest).
Qed.

Lemma strip_blank (s : str) : forallb isspace s = true -> strip s = [].
Proof.
  intros H. unfold strip, rstrip. rewrite (lstrip_blank s H). reflexivity.
Qed.

Lemma lstrip_head (s : str) (c : ascii) (rest : str) :
  lstrip s = c :: rest -> isspace c = false.
Proof.
  induction s as [ | a s' IH]; [discriminate |].
  cbn. destruct (isspace a) eqn:E; [exact IH |].
  intros H. injection H as <- _. exact E.
Qed.

(** A stripped text that is not empty ends in a character that is not
    whitespace. *)
Lemma strip_ends_in_ink (s : str) :
  strip s <> [] -> exists body c, strip s = body ++ [c] /\ isspace c = false.
Proof.
  unfold strip, rstrip. intros H.
  destruct (lstrip (rev (lstrip s))) as [ | c rest] eqn:E; [contradiction H; reflexivity |].
  exists (rev rest), c. split; [reflexivity |].
  exact (lstrip_head _ _ _ E).
Qed.

(** The last line of a text that ends in a character that is not whitespace
    ends in that character. *)
Lemma splitlines_last (body : str) (c : ascii) :
  isspace c = false ->
  forall after_cr, exists lines line,
    splitlines_from after_cr (body ++ [c]) = lines ++ [line ++ [c]].
Proof.
  intros Hc.
  assert (Hlf : Ascii.eqb c LF = false).
  { destruct (Ascii.eqb c LF) eqn:E; [| reflexivity].
    apply linefeed_is_space in E. congruence. }
  assert (Hb : is_line_boundary c = false).
  { destruct (is_line_boundary c) eqn:E; [| reflexivity].
    apply boundary_is_space in E. congruence. }
  induction body as [ | a body IH]; intros after_cr.
  - exists [], []. cbn [app splitlines_from]. rewrite Hlf, andb_false_r, Hb. reflexivity.
  - cbn [app splitlines_from].
    destruct (after_cr && Ascii.eqb a LF).
    + apply IH.
    + destruct (is_line_boundary a).
      * destruct (IH (Ascii.eqb a CR)) as (lines & line & ->).
        exists ([] :: lines), line. reflexivity.
      * destruct (IH false) as (lines & line & ->).
        destruct lines as [ | first lines].
        -- exists [], (a :: line). reflexivity.
        -- exists ((a :: first) :: lines), line. reflexivity.
Qed.

Lemma py_last_snoc {A : Type} (xs : list A) (x : A) : py_last (xs ++ [x]) = Ok x.
Proof.
  unfold py_last. rewrite rev_app_distr. reflexivity.
Qed.

(** A text with a character that is not whitespace has a first field. *)
Lemma split_has_field (s : str) :
  existsb (fun c => negb (isspace c)) s = true -> split s <> [].
Proof.
  induction s as [ | a rest IH]; [discriminate |].
  cbn [existsb split]. destruct (isspace a) eqn:E.
  - cbn. exact IH.
  - intros _. destruct rest as [ | d rest']; [discriminate |].
    destruct (isspace d); [discriminate |].
    destruct (split (d :: rest')); discriminate.
Qed.

Lemma existsb_snoc_ink (line : str) (c : ascii) :
  isspace c = false -> existsb (fun c => negb (isspace c)) (line ++ [c]) = true.
Proof.
  intros Hc. rewrite existsb_app. cbn. rewrite Hc. apply orb_true_r.
Qed.

(** The empty-list lookups of [parse_hledger_output] cannot fail. *)
Lemma total_str_returns (output : str) :
  strip output <> [] -> exists text, total_str output = Ok text.
Proof.
  intros H. destruct (strip_ends_in_ink output H) as (body & c & E & Hc).
  unfold total_str, splitlines. rewrite E.
  destruct (splitlines_last body c Hc false) as (lines & line & ->).
  rewrite py_last_snoc.
  pose proof (split_has_field (line ++ [c]) (existsb_snoc_ink line c Hc)) as Hfield.
  destruct (split (line ++ [c])) as [ | field fields]; [contradiction Hfield; reflexivity |].
  eexists. reflexivity.
Qed.

Section CacheFacts.
Context {F : Type} {N : PyFloat F}.

Lemma entries_get_not_negative (entries : cache_entries) (key : cache_key) (v : F) :
  forallb (fun '(_, v) => negb (flt v (of_int 0))) entries = true ->
  entries_get entries key = Some v ->
  flt v (of_int 0) = false.
Proof.
  induction entries as [ | [k old] rest IH]; [discriminate |].
  cbn. intros H. apply andb_prop in H as [Hold Hrest].
  destruct (cache_key_eqb k key).
  - intros E. injection E as <-. apply negb_true_iff. exact Hold.
  - exact (IH Hrest).
Qed.

Lemma entries_set_not_negative (entries : cache_entries) (key : cache_key) (v : F) :
  forallb (fun '(_, v) => negb (flt v (of_int 0))) entries = true ->
  flt v (of_int 0) = false ->
  forallb (fun '(_, v) => negb (flt v (of_int 0))) (entries_set entries key v) = true.
Proof.
  intros H Hv. induction entries as [ | [k old] rest IH]; cbn.
  - rewrite Hv. reflexivity.
  - cbn in H. apply andb_prop in H as [Hold Hrest].
    destruct (cache_key_eqb k key); cbn.
    + rewrite Hv, Hrest. reflexivity.
    + rewrite Hold, (IH Hrest). reflexivity.
Qed.

Lemma dict_get_not_negative (cache : query_cache) (hash : string) (entries : cache_entries) :
  cache_not_negative cache = true ->
  dict_get cache hash = Some entries ->
  forallb (fun '(_, v) => negb (flt v (of_int 0))) entries = true.
Proof.
  unfold cache_not_negative.
  induction cache as [ | [k old] rest IH]; [discriminate |].
  cbn. intros H. apply andb_prop in H as [Hold Hrest].
  destruct (String.eqb k hash).
  - intros E. injection E as <-. exact Hold.
  - exact (IH Hrest).
Qed.

Lemma dict_set_not_negative (cache : query_cache) (hash : string) (entries : cache_entries) :
  cache_not_negative cache = true ->
  forallb (fun '(_, v) => negb (flt v (of_int 0))) entries = true ->
  cache_not_negative (dict_set cache hash entries) = true.
Proof.
  unfold cache_not_negative. intros H Hentries.
  induction cache as [ | [k old] rest IH]; cbn.
  - rewrite Hentries. reflexivity.
  - cbn in H. apply andb_prop in H as [Hold Hrest].
    destruct (String.eqb k hash); cbn.
    + rewrite Hentries, Hrest. reflexivity.
    + rewrite Hold, (IH Hrest). reflexivity.
Qed.

(** A query answers from the cache, with 0.0 for a failed command, or with
    what the parser returns; if the parser's results are never below zero,
    neither are the answers nor the cache the query leaves. *)
Lemma run_hledger_command_not_negative
  (py_float : str -> option F) (hledger : list string -> option str)
  (journal_hash : string) (save_succeeds : bool)
  (args : list string) (year : option Z) (add_format : bool) (cache : query_cache) :
  flt (lit 0.0) (of_int 0) = false ->
  (forall output, exists total,
      parse_hledger_output py_float output = Ok total /\ flt total (of_int 0) = false) ->
  cache_not_negative cache = true ->
  exists total cache',
    run_hledger_command py_float hledger journal_hash save_succeeds
      args year add_format cache = (Ok total, cache')
    /\ flt total (of_int 0) = false
    /\ cache_not_negative cache' = true.
Proof.
  intros Hzero Hparse Hcache. unfold run_hledger_command.
  set (cmd := (_ ++ _)%list). set (key := (args, year)).
  destruct (dict_get cache journal_hash) as [entries | ] eqn:Eget.
  - pose proof (dict_get_not_negative cache journal_hash entries Hcache Eget) as Hentries.
    destruct (entries_get entries key) as [hit | ] eqn:Ehit.
    + exists hit, cache. repeat split; [| exact Hcache].
      exact (entries_get_not_negative entries key hit Hentries Ehit).
    + destruct (hledger cmd) as [stdout | ].
      * destruct (Hparse stdout) as (total & -> & Htotal).
        eexists _, _. repeat split; [exact Htotal |].
        destruct save_succeeds; [| exact Hcache].
        apply dict_set_not_negative; [exact Hcache |].
        apply entries_set_not_negative; assumption.
      * exists (lit 0.0), cache. repeat split; assumption.
  - destruct (hledger cmd) as [stdout | ].
    + destruct (Hparse stdout) as (total & -> & Htotal).
      eexists _, _. repeat split; [exact Htotal |].
      destruct save_succeeds; [| exact Hcache].
      apply dict_set_not_negative; [exact Hcache |].
      apply entries_set_not_negative; [reflexivity | exact Htotal].
    + exists (lit 0.0), cache. repeat split; assumption.
Qed.

End CacheFacts.

End ParserFacts.
(** ** The first year of the loan *)

(** X3: [compute_interest] clamps the first month at zero: under the loan
    formula, every year at or before [start_year] is reported with the
    interest of the loan's first twelve months. *)
Theorem interest_before_start_is_first_year :
  forall (F : Type) (N : PyFloat F)
         (run_hledger_command : list string -> Z -> F) (pow : F -> Z -> F)
         (params : PersonalParams F) (year first_year : Z) (loan r pay : F),
    (forall by_year, interest_by_year params = Some by_year ->
                     dict_get by_year (py_str year) = None) ->
    interest_account params = None ->
    principal params = Some loan ->
    monthly_rate params = Some r ->
    payment params = Some pay ->
    start_year params = Some first_year ->
    (year <= first_year)%Z ->
    compute_interest run_hledger_command pow params year
    = (interest_paid_until pow loan r pay 12 - interest_paid_until pow loan r pay 0)%py.
Proof.
  intros F N run pow params year first_year loan r pay
         Hover Hacct Hloan Hr Hpay Hfirst Hle.
  unfold compute_interest.
  assert (E : match interest_by_year params with
              | Some by_year => dict_get by_year (py_str year)
              | None => None
              end = None).
  { destruct (interest_by_year params) as [by_year | ]; [| reflexivity].
    apply Hover. reflexivity. }
  rewrite E, Hacct, Hloan, Hr, Hpay, Hfirst.
  replace (Z.max 0 (12 * (year - first_year))) with 0%Z by lia. reflexivity.
Qed.

Lemma interest_before_start_is_first_year_witness :
  compute_interest (F:=Q) (fun _ _ => 0%Q) Qpower personal_with_loan 2015
  = (interest_paid_until Qpower (of_int 300000) (lit 0.003) (of_int 1500) 12
     - interest_paid_until Qpower (of_int 300000) (lit 0.003) (of_int 1500) 0)%py.
Proof.
  apply (interest_before_start_is_first_year Q Exact (fun _ _ => 0%Q) Qpower
           personal_with_loan 2015 2020 (of_int 300000) (lit 0.003) (of_int 1500));
    try reflexivity; [| lia].
  intros by_year H. injection H as <-. reflexivity.
Defined.

(** X9: when the federal table has no entry for the configured filing
    status, [compute_medicare_tax] and [compute_investment_tax] use the
    "joint" entry: each returns what it returns for a "joint" filer, and
    each raises ValueError exactly when there is no "joint" entry either. *)
Theorem missing_status_falls_back_to_joint :
  forall (F : Type) (N : PyFloat F) (params : PersonalParams F)
         (load_tax_params : Z -> TaxParams F) (status : string)
         (w2_medicare net_business_income med_tax_paid investment_income agi : F)
         (year : Z),
    filing_status params = Some status ->
    dict_get (federal (load_tax_params year)) status = None ->
    let medicare :=
      compute_medicare_tax params load_tax_params
        w2_medicare net_business_income med_tax_paid year in
    let investment :=
      compute_investment_tax params load_tax_params investment_income agi year in
    medicare
    = compute_medicare_tax (with_filing_status params "joint") load_tax_params
        w2_medicare net_business_income med_tax_paid year
    /\ investment
       = compute_investment_tax (with_filing_status params "joint") load_tax_params
           investment_income agi year
    /\ (medicare = Raise ValueError
        <-> dict_get (federal (load_tax_params year)) "joint" = None)
    /\ (investment = Raise ValueError
        <-> dict_get (federal (load_tax_params year)) "joint" = None).
Proof.
  intros F N params load status w n paid inv agi year Hstatus Hmissing
         medicare investment.
  subst medicare investment.
  unfold compute_medicare_tax, compute_investment_tax, federal_params_for.
  rewrite Hstatus. cbn [with_filing_status filing_status get_or].
  rewrite Hmissing.
  destruct (dict_get (federal (load year)) "joint") as [joint | ].
  - repeat split; try discriminate.
    intros H. destruct (fle agi _) in H; discriminate H.
  - repeat split.
Qed.

Lemma missing_status_falls_back_to_joint_witness :
  compute_medicare_tax (personal_with (F:=float) (Some "head"%string) None)
    sample_tax_params (of_int 300000) (of_int 0) (of_int 0) 2024
  = compute_medicare_tax
      (with_filing_status (personal_with (F:=float) (Some "head"%string) None) "joint")
      sample_tax_params (of_int 300000) (of_int 0) (of_int 0) 2024.
Proof.
  exact (proj1 (missing_status_falls_back_to_joint float Binary64
                  (personal_with (Some "head"%string) None) sample_tax_params
                  "head" (of_int 300000) (of_int 0) (of_int 0) (of_int 0) (of_int 0)
                  2024 eq_refl eq_refl)).
Defined.

Section NeverBelowZero.
Local Open Scope float_scope.

(** A positive finite constant times a value that is not below zero is
    not below zero. *)
Lemma b64_mul_keeps_not_negative (c x : float) (m : positive) (e : Z) :
  Prim2SF c = S754_finite false m e ->
  (x <? 0) = false -> (c * x <? 0) = false.
Proof.
  intros Hc. rewrite !ltb_spec, mul_spec, Hc, Prim2SF_zero.
  unfold SF64mul, SFmul.
  destruct (Prim2SF x) as [s | s | | s mx ex]; cbn [xorb]; try reflexivity.
  - destruct s; [discriminate | reflexivity].
  - destruct s; [discriminate |]. intros _.
    pose proof (binary_round_aux_sign prec emax false (m * mx) (e + ex)) as H.
    destruct (binary_round_aux prec emax false (Z.pos (m * mx)) (e + ex) loc_Exact)
      as [s' | s' | | s' m' e']; try reflexivity; subst s'; reflexivity.
Qed.

End NeverBelowZero.

(** X10: on binary64, whatever the table, the income and the amounts,
    [compute_bracket_tax] never returns a value below zero, and neither
    does [compute_investment_tax] when it returns. *)
Theorem bracket_and_investment_tax_not_negative :
  forall (params : PersonalParams float) (load_tax_params : Z -> TaxParams float)
         (income investment_income agi : float) (table : list (TaxBracket float))
         (year : Z),
    (compute_bracket_tax income table <? of_int 0)%py = false
    /\ match compute_investment_tax params load_tax_params investment_income agi year with
       | Ok tax => (tax <? of_int 0)%py = false
       | Raise e => e = ValueError
       end.
Proof.
  intros params load income inv agi table year. split.
  - apply b64_max_zero_r.
  - unfold compute_investment_tax.
    destruct (federal_params_for load year _) as [fed_params | e] eqn:E.
    + destruct (fle agi _); [reflexivity |].
      eapply b64_mul_keeps_not_negative; [reflexivity |].
      apply b64_max_zero_r.
    + unfold federal_params_for in E.
      destruct (dict_get _ (get_or _ _)); [discriminate |].
      destruct (dict_get _ "joint"); [discriminate |].
      injection E as <-. reflexivity.
Qed.

(** ** More on the output parser *)

Section StripFacts.
Import Utils.

Lemma forallb_rev {A : Type} (f : A -> bool) (l : list A) :
  forallb f (rev l) = forallb f l.
Proof.
  induction l as [ | a l IH]; [reflexivity |].
  cbn [rev forallb]. rewrite forallb_app, IH. cbn. rewrite andb_true_r.
  apply andb_comm.
Qed.

Lemma lstrip_app (s t : str) :
  lstrip (s ++ t) = if forallb isspace s then lstrip t else lstrip s ++ t.
Proof.
  induction s as [ | c s IH]; [reflexivity |].
  cbn [app lstrip forallb]. destruct (isspace c); [exact IH | reflexivity].
Qed.

Lemma rstrip_app (s t : str) :
  rstrip (s ++ t) = if forallb isspace t then rstrip s else s ++ rstrip t.
Proof.
  unfold rstrip. rewrite rev_app_distr, lstrip_app, forallb_rev.
  destruct (forallb isspace t); [reflexivity |].
  rewrite rev_app_distr, rev_involutive. reflexivity.
Qed.

Lemma rstrip_blank (s : str) : forallb isspace s = true -> rstrip s = [].
Proof.
  intros H. unfold rstrip. rewrite lstrip_blank; [reflexivity |].
  rewrite forallb_rev. exact H.
Qed.

(** Whitespace around the output does not reach the parser. *)
Lemma strip_padded (before s after : str) :
  forallb isspace before = true -> forallb isspace after = true ->
  strip (before ++ s ++ after) = strip s.
Proof.
  intros Hb Ha. unfold strip.
  rewrite lstrip_app, Hb, lstrip_app.
  destruct (forallb isspace s) eqn:E.
  - rewrite (lstrip_blank after Ha), (lstrip_blank s E). reflexivity.
  - rewrite rstrip_app, Ha. reflexivity.
Qed.

(** What [lstrip] and [rstrip] drop is whitespace. *)
Lemma lstrip_split (s : str) :
  exists lead, s = lead ++ lstrip s /\ forallb isspace lead = true.
Proof.
  induction s as [ | c s (lead & E & H)].
  - exists []. split; reflexivity.
  - cbn [lstrip]. destruct (isspace c) eqn:Ec.
    + exists (c :: lead). split; [cbn; f_equal; exact E |].
      cbn. rewrite Ec. exact H.
    + exists []. split; reflexivity.
Qed.

Lemma rstrip_split (s : str) :
  exists trail, s = rstrip s ++ trail /\ forallb isspace trail = true.
Proof.
  destruct (lstrip_split (rev s)) as (lead & E & H).
  exists (rev lead). split.
  - unfold rstrip. rewrite <- rev_app_distr, <- E, rev_involutive. reflexivity.
  - rewrite forallb_rev. exact H.
Qed.

Lemma split_blank (s : str) : forallb isspace s = true -> split s = [].
Proof.
  induction s as [ | c s IH]; [reflexivity |].
  cbn [forallb split]. intros H. apply andb_prop in H as [Hc Hs].
  rewrite Hc. exact (IH Hs).
Qed.

Lemma split_lstrip (s : str) : split (lstrip s) = split s.
Proof.
  induction s as [ | c s IH]; [reflexivity |].
  cbn [lstrip]. destruct (isspace c) eqn:E; [| reflexivity].
  cbn [split]. rewrite E. exact IH.
Qed.

Lemma split_app_blank (s trail : str) :
  forallb isspace trail = true -> split (s ++ trail) = split s.
Proof.
  intros H. induction s as [ | c s IH].
  - apply split_blank. exact H.
  - cbn [app split]. destruct (isspace c); [exact IH |].
    destruct s as [ | d s'].
    + cbn [app]. destruct trail as [ | w trail']; [reflexivity |].
      cbn [forallb] in H. apply andb_prop in H as [Hw Htrail].
      rewrite Hw. rewrite split_blank; [reflexivity |].
      cbn [forallb]. rewrite Hw. exact Htrail.
    + cbn [app] in *. rewrite IH. reflexivity.
Qed.

Lemma split_rstrip (s : str) : split (rstrip s) = split s.
Proof.
  destruct (rstrip_split s) as (trail & E & H).
  rewrite E at 2. symmetry. apply split_app_blank. exact H.
Qed.

Lemma split_strip (s : str) : split (strip s) = split s.
Proof.
  unfold strip. rewrite split_rstrip. apply split_lstrip.
Qed.

(** The fields of [split] are not empty and hold no whitespace. *)
Lemma split_fields (s : str) :
  Forall (fun field => field <> [] /\ forallb (fun c => negb (isspace c)) field = true)
         (split s).
Proof.
  induction s as [ | c s IH]; [constructor |].
  cbn [split]. destruct (isspace c) eqn:Ec; [exact IH |].
  destruct s as [ | d s'].
  - constructor; [| constructor]. split; [discriminate |]. cbn. rewrite Ec. reflexivity.
  - destruct (isspace d) eqn:Ed.
    + constructor; [| exact IH]. split; [discriminate |]. cbn. rewrite Ec. reflexivity.
    + destruct (split (d :: s')) as [ | word words].
      * constructor; [| constructor]. split; [discriminate |].
        cbn. rewrite Ec. reflexivity.
      * inversion IH as [ | ? ? [_ Hword] Hwords]; subst.
        constructor; [| exact Hwords]. split; [discriminate |].
        cbn. rewrite Ec. exact Hword.
Qed.

End StripFacts.

Section LastLine.
Import Utils.

Lemma splitlines_plain (t : str) :
  forallb (fun c => negb (is_line_boundary c)) t = true ->
  t <> [] ->
  forall after_cr, splitlines_from after_cr t = [t].
Proof.
  induction t as [ | c t IH]; intros Hplain Hne after_cr; [contradiction Hne; reflexivity |].
  cbn [forallb] in Hplain. apply andb_prop in Hplain as [Hc Ht].
  apply negb_true_iff in Hc.
  assert (Hlf : Ascii.eqb c LF = false).
  { destruct (Ascii.eqb c LF) eqn:E; [| reflexivity].
    apply Ascii.eqb_eq in E. subst c. discriminate Hc. }
  cbn [splitlines_from]. rewrite Hlf, andb_false_r, Hc.
  destruct t as [ | d t']; [reflexivity |].
  rewrite (IH Ht ltac:(discriminate) false). reflexivity.
Qed.

(** After a line boundary, a text without boundaries is the last line. *)
Lemma splitlines_ends_with (t : str) (b : ascii) :
  is_line_boundary b = true ->
  forallb (fun c => negb (is_line_boundary c)) t = true ->
  t <> [] ->
  forall (p : str) (after_cr : bool),
  exists lines,
    splitlines_from after_cr (p ++ b :: t) = lines ++ [t]
    /\ (after_cr = false -> lines <> []).
Proof.
  intros Hb Hplain Hne. induction p as [ | a p IH]; intros after_cr.
  - cbn [app splitlines_from]. destruct (after_cr && Ascii.eqb b LF) eqn:E.
    + exists []. split; [apply splitlines_plain; assumption |].
      intros ->. discriminate E.
    + rewrite Hb. exists [[]]. split; [| discriminate].
      rewrite (splitlines_plain t Hplain Hne). reflexivity.
  - cbn [app splitlines_from]. destruct (after_cr && Ascii.eqb a LF) eqn:E.
    + destruct (IH false) as (lines & -> & Hlines).
      exists lines. split; [reflexivity |]. intros ->. discriminate E.
    + destruct (is_line_boundary a).
      * destruct (IH (Ascii.eqb a CR)) as (lines & -> & _).
        exists ([] :: lines). split; [reflexivity | discriminate].
      * destruct (IH false) as (lines & -> & Hlines).
        destruct lines as [ | line lines]; [contradiction (Hlines eq_refl); reflexivity |].
        exists ((a :: line) :: lines). split; [reflexivity | discriminate].
Qed.

Lemma existsb_not_blank (s : str) :
  existsb (fun c => negb (isspace c)) s = true -> forallb isspace s = false.
Proof.
  induction s as [ | c s IH]; [discriminate |].
  cbn [existsb forallb]. destruct (isspace c); cbn; [exact IH | reflexivity].
Qed.

Lemma not_blank_existsb (s : str) :
  forallb isspace s = false -> existsb (fun c => negb (isspace c)) s = true.
Proof.
  induction s as [ | c s IH]; [discriminate |].
  cbn [existsb forallb]. destruct (isspace c); cbn; [exact IH | reflexivity].
Qed.

Lemma lstrip_not_blank (s : str) :
  forallb isspace s = false -> forallb isspace (lstrip s) = false.
Proof.
  induction s as [ | c s IH]; [discriminate |].
  cbn [forallb lstrip]. destruct (isspace c) eqn:E; cbn.
  - exact IH.
  - intros _. rewrite E. reflexivity.
Qed.

Lemma rstrip_not_blank (s : str) :
  forallb isspace s = false -> forallb isspace (rstrip s) = false.
Proof.
  intros H. unfold rstrip. rewrite forallb_rev.
  apply lstrip_not_blank. rewrite forallb_rev. exact H.
Qed.

Lemma not_blank_not_empty (s : str) : forallb isspace s = false -> s <> [].
Proof. intros H ->. discriminate H. Qed.

Lemma lstrip_keeps {P : ascii -> bool} (s : str) :
  forallb P s = true -> forallb P (lstrip s) = true.
Proof.
  induction s as [ | c s IH]; [reflexivity |].
  cbn [forallb lstrip]. intros H. apply andb_prop in H as [Hc Hs].
  destruct (isspace c); [exact (IH Hs) |]. cbn. rewrite Hc. exact Hs.
Qed.

Lemma rstrip_keeps {P : ascii -> bool} (s : str) :
  forallb P s = true -> forallb P (rstrip s) = true.
Proof.
  intros H. unfold rstrip. rewrite forallb_rev. apply lstrip_keeps.
  rewrite forallb_rev. exact H.
Qed.

(** The field read from a text of one line. *)
Lemma total_str_one_line (t : str) :
  forallb (fun c => negb (is_line_boundary c)) t = true ->
  forallb isspace t = false ->
  total_str t
  = match py_first (split t) with
    | Raise e => Raise e
    | Ok field => Ok (remove_char "," (remove_char "$" field))
    end.
Proof.
  intros Hplain Hink. unfold total_str, splitlines.
  rewrite (splitlines_plain (strip t)).
  - cbn [py_last rev app]. rewrite split_strip. reflexivity.
  - unfold strip. apply rstrip_keeps, lstrip_keeps, Hplain.
  - apply not_blank_not_empty. unfold strip.
    apply rstrip_not_blank, lstrip_not_blank, Hink.
Qed.

(** The field read from a text whose last line is [t]. *)
Lemma total_str_last_line (before t : str) (b : ascii) :
  is_line_boundary b = true ->
  forallb (fun c => negb (is_line_boundary c)) t = true ->
  forallb isspace t = false ->
  total_str (before ++ b :: t) = total_str t
  /\ strip (before ++ b :: t) <> [].
Proof.
  intros Hb Hplain Hink.
  assert (Hspace : isspace b = true) by (apply boundary_is_space, Hb).
  destruct (forallb isspace before) eqn:Eb.
  - assert (E : strip (before ++ b :: t) = strip t).
    { unfold strip. rewrite lstrip_app, Eb. cbn [lstrip]. rewrite Hspace.
      reflexivity. }
    split.
    + unfold total_str. rewrite E. reflexivity.
    + rewrite E. apply not_blank_not_empty. unfold strip.
      apply rstrip_not_blank, lstrip_not_blank, Hink.
  - assert (E : strip (before ++ b :: t) = lstrip before ++ b :: rstrip t).
    { unfold strip. rewrite lstrip_app, Eb.
      change (lstrip before ++ b :: t) with (lstrip before ++ [b] ++ t).
      rewrite app_assoc, rstrip_app, Hink, <- app_assoc. reflexivity. }
    split.
    + rewrite (total_str_one_line t Hplain Hink).
      unfold total_str, splitlines. rewrite E.
      destruct (splitlines_ends_with (rstrip t) b Hb
                  (rstrip_keeps t Hplain)
                  (not_blank_not_empty _ (rstrip_not_blank t Hink))
                  (lstrip before) false) as (lines & -> & _).
      rewrite py_last_snoc, split_rstrip. reflexivity.
    + rewrite E. destruct (lstrip before); discriminate.
Qed.

End LastLine.

Section ParserTheorems.
Import Utils.

(** X11: whitespace before and after the output makes no difference to
    [parse_hledger_output]. *)
Theorem parser_ignores_surrounding_whitespace :
  forall (F : Type) (N : PyFloat F) (py_float : str -> option F)
         (before output after : str),
    forallb isspace before = true ->
    forallb isspace after = true ->
    parse_hledger_output py_float (before ++ output ++ after)
    = parse_hledger_output py_float output.
Proof.
  intros F N py_float before output after Hb Ha.
  unfold parse_hledger_output, total_str.
  rewrite (strip_padded before output after Hb Ha). reflexivity.
Qed.

Lemma parser_ignores_surrounding_whitespace_witness :
  parse_hledger_output (F:=float) float_of_decimal
    (list_ascii_of_string "  " ++ list_ascii_of_string "$12.50 cash"
     ++ [LF; CR; " "%char])
  = parse_hledger_output (F:=float) float_of_decimal
      (list_ascii_of_string "$12.50 cash").
Proof.
  apply (parser_ignores_surrounding_whitespace float Binary64 float_of_decimal);
    reflexivity.
Defined.

(** X12: the text [parse_hledger_output] hands to [float] holds no
    whitespace, no dollar sign and no comma. *)
Theorem parsed_text_is_clean :
  forall (output text : str),
    total_str output = Ok text ->
    forallb (fun c => negb (isspace c) && negb (Ascii.eqb c "$")
                      && negb (Ascii.eqb c ","))
            text = true.
Proof.
  intros output text. unfold total_str.
  destruct (py_last _) as [last_line | e]; [| discriminate].
  pose proof (split_fields last_line) as Hfields.
  destruct (split last_line) as [ | field fields]; [discriminate |].
  cbn [py_first]. intros H. injection H as <-.
  inversion Hfields as [ | ? ? [_ Hfield] _]; subst.
  apply forallb_forall. intros c Hc.
  unfold remove_char in Hc. apply filter_In in Hc as [Hc Hcomma].
  apply filter_In in Hc as [Hc Hdollar].
  rewrite forallb_forall in Hfield. rewrite (Hfield c Hc), Hdollar, Hcomma.
  reflexivity.
Qed.

Lemma parsed_text_is_clean_witness :
  forallb (fun c => negb (isspace c) && negb (Ascii.eqb c "$")
                    && negb (Ascii.eqb c ","))
          (list_ascii_of_string "-1234.56") = true.
Proof.
  apply (parsed_text_is_clean negative_report). reflexivity.
Defined.

(** X13: only the last line of the output counts: when the output ends in
    a line that holds something other than whitespace,
    [parse_hledger_output] returns what it returns on that line alone. *)
Theorem parser_reads_last_line_only :
  forall (F : Type) (N : PyFloat F) (py_float : str -> option F)
         (before last_line : str) (boundary : ascii),
    is_line_boundary boundary = true ->
    forallb (fun c => negb (is_line_boundary c)) last_line = true ->
    forallb isspace last_line = false ->
    parse_hledger_output py_float (before ++ boundary :: last_line)
    = parse_hledger_output py_float last_line.
Proof.
  intros F N py_float before t b Hb Hplain Hink.
  destruct (total_str_last_line before t b Hb Hplain Hink) as [E Hne].
  unfold parse_hledger_output. rewrite E.
  destruct (strip (before ++ b :: t)); [contradiction Hne; reflexivity |].
  destruct (strip t) eqn:Et; [| reflexivity].
  exfalso. revert Et. apply not_blank_not_empty. unfold strip.
  apply rstrip_not_blank, lstrip_not_blank, Hink.
Qed.

Lemma parser_reads_last_line_only_witness :
  parse_hledger_output (F:=float) float_of_decimal
    (list_ascii_of_string "   $9.00  food" ++ LF :: list_ascii_of_string "  $12.50 ")
  = parse_hledger_output (F:=float) float_of_decimal
      (list_ascii_of_string "  $12.50 ").
Proof.
  apply (parser_reads_last_line_only float Binary64 float_of_decimal);
    reflexivity.
Defined.

End ParserTheorems.

(** ** The total of a report *)

Section FirstField.
Import Utils.

(** The first field of a line: what follows the indentation, up to the
    next whitespace. *)
Lemma split_first_field (indent field rest : str) :
  forallb isspace indent = true ->
  field <> [] ->
  forallb (fun c => negb (isspace c)) field = true ->
  (rest = [] \/ exists c r, rest = c :: r /\ isspace c = true) ->
  exists more, split (indent ++ field ++ rest) = field :: more.
Proof.
  intros Hindent Hfield Hink Hrest.
  induction indent as [ | s indent IH].
  - clear Hindent. cbn [app]. induction field as [ | c field IH];
      [contradiction Hfield; reflexivity |].
    cbn [forallb] in Hink. apply andb_prop in Hink as [Hc Hink].
    apply negb_true_iff in Hc.
    change ((c :: field) ++ rest) with (c :: (field ++ rest)).
    cbn [split]. rewrite Hc. destruct field as [ | d field].
    + cbn [app]. destruct Hrest as [-> | (d & r & -> & Hd)].
      * exists []. reflexivity.
      * rewrite Hd. eexists. reflexivity.
    + destruct (IH ltac:(discriminate) Hink) as (more & E).
      change ((d :: field) ++ rest) with (d :: (field ++ rest)) in *.
      cbn [forallb] in Hink. apply andb_prop in Hink as [Hd _].
      apply negb_true_iff in Hd. rewrite Hd, E. eexists. reflexivity.
  - cbn [forallb] in Hindent. apply andb_prop in Hindent as [Hs Hindent].
    change ((s :: indent) ++ field ++ rest) with (s :: (indent ++ field ++ rest)).
    cbn [split]. rewrite Hs. exact (IH Hindent).
Qed.

Lemma field_is_not_blank (indent field rest : str) :
  field <> [] ->
  forallb (fun c => negb (isspace c)) field = true ->
  forallb isspace (indent ++ field ++ rest) = false.
Proof.
  intros Hfield Hink. rewrite !forallb_app.
  destruct field as [ | c field]; [contradiction Hfield; reflexivity |].
  cbn [forallb] in *. apply andb_prop in Hink as [Hc _].
  apply negb_true_iff in Hc. rewrite Hc. cbn. apply andb_false_r.
Qed.

(** The text handed to [float] is the first field of the last line: for an
    output that ends, before its trailing whitespace, in a line made of an
    indentation, a field and a rest that is empty or starts with
    whitespace, it is that field without dollar signs and commas. *)
Lemma total_str_first_field_of_last_line
  (before indent field rest trailing : str) :
  (before = [] \/ exists p b, before = p ++ [b] /\ is_line_boundary b = true) ->
  forallb isspace indent = true ->
  field <> [] ->
  forallb (fun c => negb (isspace c)) field = true ->
  (rest = [] \/ exists c r, rest = c :: r /\ isspace c = true) ->
  forallb (fun c => negb (is_line_boundary c)) (indent ++ field ++ rest) = true ->
  forallb isspace trailing = true ->
  total_str (before ++ (indent ++ field ++ rest) ++ trailing)
  = Ok (remove_char "," (remove_char "$" field))
  /\ strip (before ++ (indent ++ field ++ rest) ++ trailing) <> [].
Proof.
  intros Hbefore Hindent Hfield Hink Hrest Hplain Htrailing.
  set (line := indent ++ field ++ rest) in *.
  assert (Hline : forallb isspace line = false)
    by (apply field_is_not_blank; assumption).
  assert (Estrip : strip (before ++ line ++ trailing) = strip (before ++ line)).
  { rewrite app_assoc.
    exact (strip_padded [] (before ++ line) trailing eq_refl Htrailing). }
  assert (Efirst : total_str line = Ok (remove_char "," (remove_char "$" field))).
  { rewrite (total_str_one_line line Hplain Hline).
    destruct (split_first_field indent field rest Hindent Hfield Hink Hrest)
      as (more & E).
    fold line in E. rewrite E. reflexivity. }
  assert (Etotal : total_str (before ++ line ++ trailing) = total_str (before ++ line)).
  { unfold total_str. rewrite Estrip. reflexivity. }
  rewrite Etotal, Estrip.
  destruct Hbefore as [-> | (p & b & -> & Hb)].
  - cbn [app]. split; [exact Efirst |].
    apply not_blank_not_empty. unfold strip.
    apply rstrip_not_blank, lstrip_not_blank, Hline.
  - rewrite <- app_assoc. cbn [app].
    destruct (total_str_last_line p line b Hb Hplain Hline) as [E Hink'].
    split; [rewrite E; exact Efirst | exact Hink'].
Qed.

End FirstField.

Section ParserOnBinary64.
Import Utils.
Local Open Scope py_scope.

(** An absolute value is at least zero, unless it is the NaN of a NaN. *)
Lemma b64_abs_nonneg_or_nan (x : float) :
  (of_int 0 <=? fabs x) = true \/ (fabs x = nan /\ x = nan).
Proof.
  cbn [fabs fle of_int Binary64].
  destruct (Prim2SF x) as [s | s | | s m e] eqn:E.
  - left. rewrite leb_spec, abs_spec, E. reflexivity.
  - left. rewrite leb_spec, abs_spec, E. reflexivity.
  - right. assert (Ex : x = nan) by (apply Prim2SF_inj; rewrite E; reflexivity).
    split; [rewrite Ex; reflexivity | exact Ex].
  - left. rewrite leb_spec, abs_spec, E. reflexivity.
Qed.

(** C9: [parse_hledger_output] always returns; what it returns is
    never below zero, and is at least zero unless [float] read a NaN, which
    is then returned.  The number it reads is the first field of the last
    line, without dollar signs and commas, returned as its absolute value,
    so a total and its negative give the same result; empty,
    whitespace-only and unparseable output give 0.0.  A ledger query
    returns such a value or one read back from the cache file, so it
    returns no value below zero as long as the cache file holds none. *)
Theorem parsed_total_is_absolute :
  forall py_float : str -> option float,
    (forall output : str,
        let returned := parse_hledger_output py_float output in
        (exists total,
            returned = Ok total
            /\ (total <? of_int 0) = false
            /\ ((of_int 0 <=? total) = true
                \/ (total = nan
                    /\ exists text,
                        total_str output = Ok text /\ py_float text = Some nan)))
        /\ (forallb isspace output = true -> returned = Ok (lit 0.0))
        /\ (strip output <> [] ->
            exists text,
              total_str output = Ok text
              /\ returned = Ok match py_float text with
                               | Some x => fabs x
                               | None => lit 0.0
                               end)
        /\ (forall output' text text' x,
               strip output <> [] -> strip output' <> [] ->
               total_str output = Ok text -> total_str output' = Ok text' ->
               py_float text = Some x -> py_float text' = Some (- x) ->
               parse_hledger_output py_float output' = returned))
    /\ (forall before indent field rest trailing : str,
           (before = [] \/ exists p b, before = p ++ [b] /\ is_line_boundary b = true) ->
           forallb isspace indent = true ->
           field <> [] ->
           forallb (fun c => negb (isspace c)) field = true ->
           (rest = [] \/ exists c r, rest = c :: r /\ isspace c = true) ->
           forallb (fun c => negb (is_line_boundary c)) (indent ++ field ++ rest) = true ->
           forallb isspace trailing = true ->
           let output := before ++ (indent ++ field ++ rest) ++ trailing in
           let text := remove_char "," (remove_char "$" field) in
           total_str output = Ok text
           /\ parse_hledger_output py_float output
              = Ok match py_float text with
                   | Some x => fabs x
                   | None => lit 0.0
                   end)
    /\ (forall hledger journal_hash save_succeeds args year add_format cache,
           cache_not_negative cache = true ->
           exists total cache',
             run_hledger_command py_float hledger journal_hash save_succeeds
               args year add_format cache = (Ok total, cache')
             /\ (total <? of_int 0) = false
             /\ cache_not_negative cache' = true).
Proof.
  intros py_float.
  assert (Hparsed : forall out, strip out <> [] ->
            exists text, total_str out = Ok text
              /\ parse_hledger_output py_float out
                 = Ok match py_float text with
                      | Some x => fabs x
                      | None => lit 0.0
                      end).
  { intros out H. destruct (total_str_returns out H) as (text & E).
    exists text. split; [exact E |].
    unfold parse_hledger_output. rewrite E.
    destruct (strip out); [contradiction H; reflexivity |].
    destruct (py_float text); reflexivity. }
  assert (Hreturns : forall out, exists total,
            parse_hledger_output py_float out = Ok total
            /\ (total <? of_int 0) = false
            /\ ((of_int 0 <=? total) = true
                \/ (total = nan
                    /\ exists text,
                        total_str out = Ok text /\ py_float text = Some nan))).
  { intros out. destruct (strip out) as [ | c rest] eqn:E.
    - exists (lit 0.0). unfold parse_hledger_output. rewrite E.
      split; [reflexivity |]. split; [reflexivity | left; reflexivity].
    - destruct (Hparsed out) as (text & Etext & ->); [rewrite E; discriminate |].
      eexists. split; [reflexivity |].
      destruct (py_float text) as [x | ] eqn:Ex.
      + split; [apply b64_abs_not_neg |].
        destruct (b64_abs_nonneg_or_nan x) as [H | [H Hx]]; [left; exact H |].
        right. split; [exact H |]. exists text. rewrite Ex, Hx. split; [exact Etext | reflexivity].
      + split; [reflexivity | left; reflexivity]. }
  split; [| split].
  - intros output returned. subst returned.
    split; [| split; [| split]].
    + apply Hreturns.
    + intros H. unfold parse_hledger_output.
      rewrite (strip_blank output H). reflexivity.
    + apply Hparsed.
    + intros output' text text' x H H' E E' Hx Hx'.
      destruct (Hparsed output H) as (t & Et & ->).
      destruct (Hparsed output' H') as (t' & Et' & ->).
      rewrite E in Et. injection Et as <-. rewrite E' in Et'. injection Et' as <-.
      rewrite Hx, Hx'. f_equal. apply b64_abs_opp.
  - intros before indent field rest trailing Hbefore Hindent Hfield Hink Hrest
           Hplain Htrailing output text.
    destruct (total_str_first_field_of_last_line before indent field rest trailing
                Hbefore Hindent Hfield Hink Hrest Hplain Htrailing) as [E Hstrip].
    split; [exact E |].
    destruct (Hparsed output Hstrip) as (t & Et & ->).
    subst output. rewrite E in Et. injection Et as <-. reflexivity.
  - intros hledger journal_hash save_succeeds args year add_format cache Hcache.
    apply run_hledger_command_not_negative; [reflexivity | | exact Hcache].
    intros out. destruct (Hreturns out) as (total & E & H & _).
    exists total. split; assumption.
Qed.

(** A total is not always at least zero: an output that spells NaN is
    parsed to NaN, and a query answered from a cache file that holds a
    negative value returns it. *)
Lemma parsed_total_can_be_nan :
  parse_hledger_output float_of_text (list_ascii_of_string "nan") = Ok nan
  /\ (of_int 0 <=? nan) = false
  /\ fst (run_hledger_command float_of_text
            (fun _ => Some (list_ascii_of_string "5.50")) "a1b2c3" true
            ["assets:bank"%string] (Some 2024%Z) true
            [("a1b2c3"%string,
              [((["assets:bank"%string], Some 2024%Z), (- lit 5.5)%py)])])
     = Ok (- lit 5.5)
  /\ (- lit 5.5 <? of_int 0) = true.
Proof.
  vm_compute. repeat split.
Qed.

Lemma parsed_total_is_absolute_witness :
  parse_hledger_output float_of_text negative_report
  = parse_hledger_output float_of_text positive_report
  /\ total_str negative_report = Ok (list_ascii_of_string "-1234.56")
  /\ parse_hledger_output float_of_text negative_report = Ok (lit 1234.56)
  /\ exists total cache',
      run_hledger_command float_of_text
        (fun _ => Some negative_report) "a1b2c3" true
        ["assets:bank"%string] (Some 2024%Z) true [] = (Ok total, cache')
      /\ (total <? of_int 0) = false
      /\ cache_not_negative cache' = true.
Proof.
  destruct (parsed_total_is_absolute float_of_text) as (Hparse & Hfield & Hquery).
  pose proof (Hfield
                (list_ascii_of_string
                   "          $-1,234.56  assets:bank" ++ [LF]
                 ++ list_ascii_of_string "--------------------" ++ [LF])
                (list_ascii_of_string "          ")
                (list_ascii_of_string "$-1,234.56")
                (list_ascii_of_string "  ")
                [LF]
                (or_intror
                   (ex_intro _
                      (list_ascii_of_string
                         "          $-1,234.56  assets:bank" ++ [LF]
                       ++ list_ascii_of_string "--------------------")
                      (ex_intro _ LF (conj eq_refl eq_refl))))
                eq_refl ltac:(discriminate) eq_refl
                (or_intror (ex_intro _ " "%char (ex_intro _ [" "%char]
                                                   (conj eq_refl eq_refl))))
                eq_refl eq_refl) as [Htext Hvalue].
  split; [| split; [| split]].
  - apply (proj2 (proj2 (proj2 (Hparse positive_report)))
             negative_report
             (list_ascii_of_string "1234.56") (list_ascii_of_string "-1234.56")
             (lit 1234.56));
      first [discriminate | vm_compute; reflexivity].
  - exact Htext.
  - exact Hvalue.
  - apply Hquery. reflexivity.
Defined.

End ParserOnBinary64.

(** ** The query cache *)

Section CacheLookups.
Import Utils.
Context {F : Type} {N : PyFloat F}.

Lemma cache_key_eqb_refl (k : cache_key) : cache_key_eqb k k = true.
Proof.
  destruct k as [args [year | ]]; unfold cache_key_eqb; cbn [fst snd];
    destruct (list_eq_dec string_dec args args) as [_ | H];
    try (contradiction H; reflexivity); cbn; [apply Z.eqb_refl | reflexivity].
Qed.

Lemma cache_key_eqb_eq (a b : cache_key) : cache_key_eqb a b = true -> a = b.
Proof.
  destruct a as [args [year | ]], b as [args' [year' | ]];
    unfold cache_key_eqb; cbn [fst snd];
    destruct (list_eq_dec string_dec args args') as [-> | _];
    cbn; try discriminate; intros H.
  - apply Z.eqb_eq in H. subst. reflexivity.
  - reflexivity.
Qed.

Lemma cache_key_eqb_other (a b : cache_key) : a <> b -> cache_key_eqb a b = false.
Proof.
  intros H. destruct (cache_key_eqb a b) eqn:E; [| reflexivity].
  contradiction H. apply cache_key_eqb_eq, E.
Qed.

Lemma entries_get_set_same (entries : cache_entries) (k : cache_key) (v : F) :
  entries_get (entries_set entries k v) k = Some v.
Proof.
  induction entries as [ | [k0 old] rest IH]; cbn [entries_set entries_get].
  - rewrite cache_key_eqb_refl. reflexivity.
  - destruct (cache_key_eqb k0 k) eqn:E; cbn [entries_get]; rewrite E;
      [reflexivity | exact IH].
Qed.

Lemma entries_get_set_other (entries : cache_entries) (k k' : cache_key) (v : F) :
  k <> k' -> entries_get (entries_set entries k v) k' = entries_get entries k'.
Proof.
  intros H. induction entries as [ | [k0 old] rest IH]; cbn [entries_set entries_get].
  - rewrite (cache_key_eqb_other k k' H). reflexivity.
  - destruct (cache_key_eqb k0 k) eqn:E; cbn [entries_get].
    + apply cache_key_eqb_eq in E. subst k0.
      rewrite (cache_key_eqb_other k k' H). reflexivity.
    + destruct (cache_key_eqb k0 k'); [reflexivity | exact IH].
Qed.

Lemma dict_get_set_same {V : Type} (d : dict V) (key : string) (v : V) :
  dict_get (dict_set d key v) key = Some v.
Proof.
  induction d as [ | [k old] rest IH]; cbn [dict_set dict_get].
  - rewrite String.eqb_refl. reflexivity.
  - destruct (String.eqb k key) eqn:E; cbn [dict_get]; rewrite E;
      [reflexivity | exact IH].
Qed.

Lemma dict_get_set_other {V : Type} (d : dict V) (key key' : string) (v : V) :
  key <> key' -> dict_get (dict_set d key v) key' = dict_get d key'.
Proof.
  intros H. apply String.eqb_neq in H.
  induction d as [ | [k old] rest IH]; cbn [dict_set dict_get].
  - rewrite H. reflexivity.
  - destruct (String.eqb k key) eqn:E; cbn [dict_get].
    + apply String.eqb_eq in E. subst k. rewrite H. reflexivity.
    + destruct (String.eqb k key'); [reflexivity | exact IH].
Qed.

End CacheLookups.

Section CacheTheorems.
Import Utils.

(** X14: a query whose command succeeded and whose result was saved is
    answered from the cache from then on: with the same journal hash, the
    same arguments and year give the same value and leave the cache as it
    is, whatever the command would now print, and whatever [add_format]
    is. *)
Theorem repeated_query_is_cached :
  forall (F : Type) (N : PyFloat F) (py_float : str -> option F)
         (hledger hledger' : list string -> option str)
         (journal_hash : string) (save_succeeds' : bool)
         (args : list string) (year : option Z) (add_format add_format' : bool)
         (cache cache' : query_cache) (total : F),
    (forall cmd, hledger cmd <> None) ->
    run_hledger_command py_float hledger journal_hash true
      args year add_format cache = (Ok total, cache') ->
    run_hledger_command py_float hledger' journal_hash save_succeeds'
      args year add_format' cache' = (Ok total, cache').
Proof.
  intros F N py_float hledger hledger' hash save' args year fmt fmt'
         cache cache' total Hworks.
  unfold run_hledger_command. cbv zeta.
  destruct (dict_get cache hash) as [entries | ] eqn:Eget.
  - destruct (entries_get entries (args, year)) as [hit | ] eqn:Ehit.
    + intros H. injection H as <- <-. rewrite Eget, Ehit. reflexivity.
    + destruct (hledger _) as [stdout | ] eqn:Ecmd;
        [| contradiction (Hworks _ Ecmd)].
      destruct (parse_hledger_output py_float stdout) as [parsed | e];
        [| discriminate].
      intros H. injection H as <- <-. cbn [get_or].
      rewrite dict_get_set_same, (entries_get_set_same _ (args, year)). reflexivity.
  - destruct (hledger _) as [stdout | ] eqn:Ecmd;
      [| contradiction (Hworks _ Ecmd)].
    destruct (parse_hledger_output py_float stdout) as [parsed | e];
      [| discriminate].
    intros H. injection H as <- <-.
    rewrite dict_get_set_same.
    cbn [entries_get]. rewrite (cache_key_eqb_refl (args, year)). reflexivity.
Qed.

Lemma repeated_query_is_cached_witness :
  run_hledger_command (F:=Q) float_of_decimal (fun _ => None) "a1b2c3" false
    ["assets:bank"%string] (Some 2024%Z) false
    [("a1b2c3"%string, [((["assets:bank"%string], Some 2024%Z), (123456 # 100)%Q)])]
  = (Ok (123456 # 100)%Q,
     [("a1b2c3"%string, [((["assets:bank"%string], Some 2024%Z), (123456 # 100)%Q)])]).
Proof.
  apply (repeated_query_is_cached Q Exact float_of_decimal
           (fun _ => Some negative_report) (fun _ => None) "a1b2c3" false
           ["assets:bank"%string] (Some 2024%Z) true false []).
  - discriminate.
  - reflexivity.
Defined.

(** X15: a query leaves every other cached result alone: after
    [run_hledger_command], a lookup under another journal hash, or under
    other arguments or another year, finds what it found before. *)
Theorem query_keeps_other_entries :
  forall (F : Type) (N : PyFloat F) (py_float : str -> option F)
         (hledger : list string -> option str)
         (journal_hash : string) (save_succeeds : bool)
         (args : list string) (year : option Z) (add_format : bool)
         (cache : query_cache) (hash' : string) (key' : cache_key),
    hash' <> journal_hash \/ key' <> (args, year) ->
    match dict_get
            (snd (run_hledger_command py_float hledger journal_hash save_succeeds
                    args year add_format cache)) hash'
    with
    | Some entries => entries_get entries key'
    | None => None
    end
    = match dict_get cache hash' with
      | Some entries => entries_get entries key'
      | None => None
      end.
Proof.
  intros F N py_float hledger hash save args year fmt cache hash' key' Hother.
  unfold run_hledger_command. cbv zeta.
  destruct (match dict_get cache hash with
            | Some entries => entries_get entries (args, year)
            | None => None
            end) as [hit | ]; [reflexivity |].
  destruct (hledger _) as [stdout | ]; [| reflexivity].
  destruct (parse_hledger_output py_float stdout) as [parsed | e]; [| reflexivity].
  destruct save; [| reflexivity]. cbn [snd].
  destruct (string_dec hash' hash) as [-> | Hhash].
  - destruct Hother as [H | Hkey]; [contradiction H; reflexivity |].
    rewrite dict_get_set_same.
    rewrite (entries_get_set_other _ (args, year) key')
      by (intros E; apply Hkey; symmetry; exact E).
    destruct (dict_get cache hash); reflexivity.
  - rewrite dict_get_set_other by (intros E; apply Hhash; symmetry; exact E).
    reflexivity.
Qed.

Lemma query_keeps_other_entries_witness :
  match dict_get
          (snd (run_hledger_command (F:=Q) float_of_decimal
                  (fun _ => Some negative_report) "a1b2c3" true
                  ["assets:bank"%string] (Some 2024%Z) true
                  [("a1b2c3"%string, [((["income"%string], Some 2024%Z), 7%Q)])]))
          "a1b2c3"
  with
  | Some entries => entries_get entries (["income"%string], Some 2024%Z)
  | None => None
  end = Some 7%Q.
Proof.
  apply (query_keeps_other_entries Q Exact float_of_decimal
           (fun _ => Some negative_report) "a1b2c3" true
           ["assets:bank"%string] (Some 2024%Z) true
           [("a1b2c3"%string, [((["income"%string], Some 2024%Z), 7%Q)])]
           "a1b2c3" (["income"%string], Some 2024%Z)).
  right. discriminate.
Defined.

End CacheTheorems.

(** ** The parameter files *)

Section LoaderFacts.
Import Loader.

Lemma list_ascii_of_string_app (s t : string) :
  list_ascii_of_string (s ++ t) = list_ascii_of_string s ++ list_ascii_of_string t.
Proof.
  induction s as [ | c s IH]; [reflexivity |]. cbn. rewrite IH. reflexivity.
Qed.

(** The characters of a decimal numeral are the ten digits. *)
Lemma uint_digits (d : Decimal.uint) :
  forallb (fun c => (48 <=? nat_of_ascii c) && (nat_of_ascii c <=? 57))
          (list_ascii_of_string (NilEmpty.string_of_uint d)) = true.
Proof.
  induction d; cbn [NilEmpty.string_of_uint list_ascii_of_string forallb];
    try rewrite IHd; reflexivity.
Qed.

(** [str(y)] for a year that is not negative: a numeral that is not empty,
    made of digits, and read back as [y]. *)
Lemma py_str_digits (y : Z) :
  (0 <= y)%Z ->
  exists d,
    d <> Decimal.Nil
    /\ py_str y = NilEmpty.string_of_uint d
    /\ NilZero.uint_of_string (py_str y) = Some d
    /\ Z.of_uint d = y.
Proof.
  intros Hy. unfold py_str.
  pose proof (DecimalZ.of_to y) as Hback.
  destruct y as [ | p | p]; [| | lia]; cbn [Z.to_int NilZero.string_of_int] in *.
  - exists (Decimal.D0 Decimal.Nil). repeat split; discriminate.
  - exists (Pos.to_uint p).
    pose proof (DecimalPos.Unsigned.to_uint_nonnil p) as Hnil.
    split; [exact Hnil |]. split; [| split].
    + destruct (Pos.to_uint p); [contradiction Hnil | ..]; reflexivity.
    + apply NilZero.usu. exact Hnil.
    + exact Hback.
Qed.

Lemma uint_string_not_empty (d : Decimal.uint) :
  d <> Decimal.Nil -> exists c rest,
    list_ascii_of_string (NilEmpty.string_of_uint d) = c :: rest.
Proof.
  intros H. destruct d; [contradiction H; reflexivity | ..]; eexists _, _; reflexivity.
Qed.

Lemma digit_is_digit (c : ascii) :
  (48 <=? nat_of_ascii c) && (nat_of_ascii c <=? 57) = true -> isdigit c = true.
Proof. unfold isdigit. intros ->. reflexivity. Qed.

Lemma digit_is_not_dot (c : ascii) :
  (48 <=? nat_of_ascii c) && (nat_of_ascii c <=? 57) = true -> c <> "."%char.
Proof. intros H ->. discriminate H. Qed.

(** The file of a year that is not negative is matched, and read as that
    year. *)
Lemma year_file_is_read (y : Z) :
  (0 <= y)%Z ->
  exists stem,
    yaml_stem (py_str y ++ ".yaml") = Some stem
    /\ all_digits stem = true
    /\ int_of_digits stem = Returns y.
Proof.
  intros Hy. destruct (py_str_digits y Hy) as (d & Hnil & Estr & Eread & Eback).
  exists (list_ascii_of_string (py_str y)).
  pose proof (uint_digits d) as Hdigits. rewrite <- Estr in Hdigits.
  destruct (uint_string_not_empty d Hnil) as (c & rest & Ecs).
  rewrite <- Estr in Ecs.
  split; [| split].
  - unfold yaml_stem. rewrite list_ascii_of_string_app, Ecs.
    cbn [app]. rewrite Ecs in Hdigits. cbn [forallb] in Hdigits.
    apply andb_prop in Hdigits as [Hc _].
    assert (Hdot : c <> "."%char) by (apply digit_is_not_dot, Hc).
    assert (Hinner : forall X : option (list ascii),
               match c :: rest ++ list_ascii_of_string ".yaml" with
               | "."%char :: _ => None
               | _ => X
               end = X).
    { intros X. destruct c as [[] [] [] [] [] [] [] []]; try reflexivity.
      contradiction Hdot. reflexivity. }
    rewrite Hinner.
    change (c :: rest ++ list_ascii_of_string ".yaml")
      with ((c :: rest) ++ list_ascii_of_string ".yaml").
    generalize (c :: rest). intros stem.
    rewrite rev_app_distr.
    change (rev (list_ascii_of_string ".yaml"))
      with ["l"%char; "m"%char; "a"%char; "y"%char; "."%char].
    cbn [app]. rewrite rev_involutive. reflexivity.
  - unfold all_digits. rewrite Ecs. rewrite <- Ecs.
    apply forallb_forall. intros a Ha.
    rewrite forallb_forall in Hdigits. apply digit_is_digit, Hdigits, Ha.
  - unfold int_of_digits. rewrite string_of_list_ascii_of_string, Eread, Eback.
    reflexivity.
Qed.

Lemma dict_get_in {V : Type} (d : dict V) (key : string) :
  In key (map fst d) -> exists v, dict_get d key = Some v.
Proof.
  induction d as [ | [k v] rest IH]; [contradiction |].
  cbn [map fst In dict_get]. intros [-> | H].
  - rewrite String.eqb_refl. eexists. reflexivity.
  - destruct (String.eqb k key); [eexists; reflexivity | exact (IH H)].
Qed.

Lemma py_max_int_bounds (rest : list Z) :
  forall first,
    (first <= py_max_int first rest)%Z
    /\ (forall y, In y rest -> (y <= py_max_int first rest)%Z)
    /\ In (py_max_int first rest) (first :: rest).
Proof.
  unfold py_max_int. induction rest as [ | z rest IH]; intros first; cbn [fold_left].
  - repeat split; [lia | contradiction | left; reflexivity].
  - destruct (IH (Z.max first z)) as (Hfirst & Hrest & Hin). repeat split.
    + lia.
    + intros y [<- | Hy]; [lia | exact (Hrest y Hy)].
    + destruct Hin as [Hin | Hin]; [| right; right; exact Hin].
      rewrite <- Hin. destruct (Z.max_spec first z) as [[_ ->] | [_ ->]];
        [right; left | left]; reflexivity.
Qed.

(** With every numbered file named by the numeral of its year, the years
    on file are the years of those files. *)
Lemma years_on_file_named {T : Type} (files : list (string * T)) :
  (forall name stem,
      In name (map fst files) -> yaml_stem name = Some stem ->
      all_digits stem = true ->
      exists y, (0 <= y)%Z /\ name = (py_str y ++ ".yaml")%string) ->
  exists years,
    years_on_file files = Returns years
    /\ (forall y, In y years ->
                  (0 <= y)%Z /\ In (py_str y ++ ".yaml")%string (map fst files))
    /\ (forall y, (0 <= y)%Z -> In (py_str y ++ ".yaml")%string (map fst files) ->
                  In y years).
Proof.
  induction files as [ | [name content] rest IH]; intros Hnamed.
  - exists []. repeat split; contradiction.
  - destruct IH as (years & Eyears & Hsound & Hcomplete).
    { intros n stem Hn. apply Hnamed. right. exact Hn. }
    cbn [years_on_file map fst].
    destruct (yaml_stem name) as [stem | ] eqn:Estem.
    + destruct (all_digits stem) eqn:Edigits.
      * destruct (Hnamed name stem (or_introl eq_refl) Estem Edigits) as (y & Hy & ->).
        destruct (year_file_is_read y Hy) as (stem' & Estem' & _ & Eint).
        rewrite Estem in Estem'. injection Estem' as <-.
        rewrite Eint, Eyears. cbn [and_then].
        exists (y :: years). split; [reflexivity |]. split.
        -- intros y' [<- | H].
           ++ split; [exact Hy | left; reflexivity].
           ++ destruct (Hsound _ H) as [H0 Hin]. split; [exact H0 | right; exact Hin].
        -- intros y' Hy' [E | Hin].
           ++ left. destruct (year_file_is_read y Hy) as (s1 & E1 & _ & I1).
              destruct (year_file_is_read y' Hy') as (s2 & E2 & _ & I2).
              rewrite E in E1. rewrite E1 in E2. injection E2 as <-.
              rewrite I1 in I2. injection I2 as ->. reflexivity.
           ++ right. exact (Hcomplete y' Hy' Hin).
      * exists years. split; [exact Eyears |]. split.
        -- intros y H. destruct (Hsound _ H) as [H0 Hin].
           split; [exact H0 | right; exact Hin].
        -- intros y Hy [E | Hin]; [| exact (Hcomplete y Hy Hin)].
           destruct (year_file_is_read y Hy) as (s & Es & Ed & _).
           rewrite <- E, Estem in Es. injection Es as <-. congruence.
    + exists years. split; [exact Eyears |]. split.
      * intros y H. destruct (Hsound _ H) as [H0 Hin].
        split; [exact H0 | right; exact Hin].
      * intros y Hy [E | Hin]; [| exact (Hcomplete y Hy Hin)].
        destruct (year_file_is_read y Hy) as (s & Es & _).
        rewrite <- E, Estem in Es. discriminate Es.
Qed.

(** Without a numbered file there are no years on file. *)
Lemma years_on_file_none {T : Type} (files : list (string * T)) :
  (forall name stem,
      In name (map fst files) -> yaml_stem name = Some stem ->
      all_digits stem = false) ->
  years_on_file files = Returns [].
Proof.
  induction files as [ | [name content] rest IH]; intros Hnone; [reflexivity |].
  cbn [years_on_file].
  destruct (yaml_stem name) as [stem | ] eqn:Estem.
  - rewrite (Hnone name stem (or_introl eq_refl) Estem).
    apply IH. intros n s Hn. apply Hnone. right. exact Hn.
  - apply IH. intros n s Hn. apply Hnone. right. exact Hn.
Qed.

End LoaderFacts.

(** X16: [load_jurisdiction] returns the file of the requested year
    whenever there is one, whatever else is in the folder; and when there
    is none, and no file is named by digits before [.yaml], it raises
    FileNotFoundError. *)
Theorem year_file_first_then_error :
  forall (T : Type) (files : list (string * T)) (year : Z),
    (forall content,
        dict_get files (py_str year ++ ".yaml") = Some content ->
        Loader.load_jurisdiction files year = Returns content)
    /\ (dict_get files (py_str year ++ ".yaml") = None ->
        (forall name stem,
            In name (map fst files) -> Loader.yaml_stem name = Some stem ->
            Loader.all_digits stem = false) ->
        Loader.load_jurisdiction files year = Raises FileNotFoundError).
Proof.
  intros T files year. unfold Loader.load_jurisdiction. split.
  - intros content ->. reflexivity.
  - intros -> Hnone. rewrite (years_on_file_none files Hnone). reflexivity.
Qed.

Lemma year_file_first_then_error_witness :
  Loader.load_jurisdiction
    [("2023.yaml"%string, 23%Z); ("2024.yaml"%string, 24%Z); ("2025.yaml"%string, 25%Z)]
    2024
  = Returns 24%Z.
Proof.
  apply (proj1 (year_file_first_then_error Z
                  [("2023.yaml"%string, 23%Z); ("2024.yaml"%string, 24%Z);
                   ("2025.yaml"%string, 25%Z)] 2024)).
  reflexivity.
Defined.

(** X17: when the requested year has no file, [load_jurisdiction] falls
    back to the latest year on file, which may be later than the one
    requested: if every file named by digits before [.yaml] is named by the
    numeral of its year and there is such a file, it returns the content of
    the file of a year that no other year on file exceeds. *)
Theorem fallback_is_latest_year_on_file :
  forall (T : Type) (files : list (string * T)) (year : Z),
    dict_get files (py_str year ++ ".yaml") = None ->
    (forall name stem,
        In name (map fst files) -> Loader.yaml_stem name = Some stem ->
        Loader.all_digits stem = true ->
        exists y, (0 <= y)%Z /\ name = (py_str y ++ ".yaml")%string) ->
    (exists y, (0 <= y)%Z /\ In (py_str y ++ ".yaml")%string (map fst files)) ->
    exists latest content,
      Loader.load_jurisdiction files year = Returns content
      /\ dict_get files (py_str latest ++ ".yaml") = Some content
      /\ latest <> year
      /\ forall y, (0 <= y)%Z -> In (py_str y ++ ".yaml")%string (map fst files) ->
                   (y <= latest)%Z.
Proof.
  intros T files year Hmissing Hnamed (y0 & Hy0 & Hin0).
  destruct (years_on_file_named files Hnamed) as (years & Eyears & Hsound & Hcomplete).
  unfold Loader.load_jurisdiction. rewrite Hmissing, Eyears. cbn [and_then].
  destruct years as [ | first rest]; [contradiction (Hcomplete y0 Hy0 Hin0) |].
  destruct (py_max_int_bounds rest first) as (Hfirst & Hrest & Hmax).
  set (latest := Loader.py_max_int first rest) in *.
  destruct (Hsound latest Hmax) as [Hlatest Hfile].
  destruct (dict_get_in files _ Hfile) as (content & Econtent).
  exists latest, content. rewrite Econtent.
  split; [reflexivity |]. split; [reflexivity |]. split.
  - intros ->. congruence.
  - intros y Hy Hin. destruct (Hcomplete y Hy Hin) as [<- | Hyin];
      [exact Hfirst | exact (Hrest y Hyin)].
Qed.

Lemma fallback_is_latest_year_on_file_witness :
  exists latest content,
    Loader.load_jurisdiction
      [("2023.yaml"%string, 23%Z); ("notes.txt"%string, 0%Z);
       ("2025.yaml"%string, 25%Z); ("draft.yaml"%string, 1%Z)]
      2024
    = Returns content
    /\ dict_get [("2023.yaml"%string, 23%Z); ("notes.txt"%string, 0%Z);
                 ("2025.yaml"%string, 25%Z); ("draft.yaml"%string, 1%Z)]
                (py_str latest ++ ".yaml") = Some content
    /\ latest <> 2024%Z
    /\ forall y, (0 <= y)%Z ->
                 In (py_str y ++ ".yaml")%string
                    (map fst [("2023.yaml"%string, 23%Z); ("notes.txt"%string, 0%Z);
                              ("2025.yaml"%string, 25%Z); ("draft.yaml"%string, 1%Z)]) ->
                 (y <= latest)%Z.
Proof.
  apply (fallback_is_latest_year_on_file Z
           [("2023.yaml"%string, 23%Z); ("notes.txt"%string, 0%Z);
            ("2025.yaml"%string, 25%Z); ("draft.yaml"%string, 1%Z)] 2024).
  - reflexivity.
  - intros name stem [<- | [<- | [<- | [<- | []]]]]; cbn; intros E D;
      try discriminate E.
    + exists 2023%Z. split; [lia | reflexivity].
    + exists 2025%Z. split; [lia | reflexivity].
    + injection E as <-. discriminate D.
  - exists 2023%Z. split; [lia | left; reflexivity].
Defined.

(** ** The tax summary *)

Section QueryArguments.
Local Open Scope string_scope.

Lemma suffixed_has_colon (base suffix : string) :
  In ":"%char (list_ascii_of_string (base ++ ":" ++ suffix)).
Proof.
  rewrite list_ascii_of_string_app. apply in_or_app. right. left. reflexivity.
Qed.

End QueryArguments.

(** X18: [hledger_query_no_year] appends the year to every argument that
    [build_accounts] produced, the [--alias] flag of an exclusion
    included: the flag is passed as [--alias:<year>], and never as
    [--alias]. *)
Theorem no_year_query_suffixes_every_argument :
  forall (groups : dict (list string)) (q : Query) (year : Z),
    let args := no_year_arguments groups q year in
    List.length args = List.length (build_accounts groups q)
    /\ (forall arg, In arg args <->
                    exists base, In base (build_accounts groups q)
                                 /\ arg = (base ++ ":" ++ py_str year)%string)
    /\ (forall alias, In alias (query_exclude_accounts q) ->
                      In ("--alias:" ++ py_str year)%string args
                      /\ In ((alias ++ "=xyz") ++ ":" ++ py_str year)%string args)
    /\ ~ In "--alias"%string args.
Proof.
  intros groups q year args. subst args. unfold no_year_arguments.
  assert (Hiff : forall arg,
             In arg (map (fun acct => (acct ++ ":" ++ py_str year)%string)
                         (build_accounts groups q))
             <-> exists base, In base (build_accounts groups q)
                              /\ arg = (base ++ ":" ++ py_str year)%string).
  { intros arg. rewrite in_map_iff. split; intros (base & H1 & H2);
      exists base; [split; [exact H2 | symmetry; exact H1]
                   | split; [symmetry; exact H2 | exact H1]]. }
  split; [apply length_map |]. split; [exact Hiff |]. split.
  - intros alias Halias.
    assert (Hpair : In "--alias"%string (build_accounts groups q)
                    /\ In (alias ++ "=xyz")%string (build_accounts groups q)).
    { unfold build_accounts. split; apply in_or_app; right; apply in_or_app; right;
        apply in_flat_map; exists alias; (split; [exact Halias |]);
        [left | right; left]; reflexivity. }
    destruct Hpair as [Hflag Hvalue]. split; apply in_map_iff.
    + exists "--alias"%string. split; [reflexivity | exact Hflag].
    + exists (alias ++ "=xyz")%string. split; [reflexivity | exact Hvalue].
  - intros H. apply Hiff in H as (base & _ & E).
    pose proof (suffixed_has_colon base (py_str year)) as Hcolon.
    rewrite <- E in Hcolon. cbn in Hcolon.
    repeat (destruct Hcolon as [Hcolon | Hcolon]; [discriminate Hcolon |]).
    exact Hcolon.
Qed.

Lemma no_year_query_suffixes_every_argument_witness :
  In "--alias:2024"%string
     (no_year_arguments (alias_groups sample_aliases)
        {| query_accounts := [AccountMap [("expenses:tax:federal"%string, None)]];
           query_remove_groups := [];
           query_exclude_accounts := ["expenses:tax:state"%string] |} 2024).
Proof.
  apply (proj1 (proj1 (proj2 (proj2
           (no_year_query_suffixes_every_argument (alias_groups sample_aliases)
              {| query_accounts := [AccountMap [("expenses:tax:federal"%string, None)]];
                 query_remove_groups := [];
                 query_exclude_accounts := ["expenses:tax:state"%string] |} 2024)))
           "expenses:tax:state"%string (or_introl eq_refl))).
Defined.

Section SummaryFacts.
Context {F : Type} {N : PyFloat F}.

Lemma status_entry_raises (table : dict (JurisdictionTaxParams F)) (status : string)
  (e : error) :
  status_entry table status = Raises e -> e = Builtin ValueError.
Proof.
  unfold status_entry. destruct (dict_get table status); [discriminate |].
  destruct (dict_get table "joint"); [discriminate |].
  intros H. injection H as <-. reflexivity.
Qed.

Lemma sum_business_expenses_raises
  (run : list string -> option Z -> F) (year : Z) (entries : list account_entry) :
  forall (total : F) (e : error),
    sum_business_expenses run year entries total = Raises e -> e = TypeError.
Proof.
  induction entries as [ | [name | items] rest IH]; intros total e; cbn.
  - discriminate.
  - apply IH.
  - intros H. injection H as <-. reflexivity.
Qed.

Lemma sum_business_expenses_names
  (run : list string -> option Z -> F) (year : Z) (entries : list account_entry) :
  (forall entry, In entry entries -> exists name, entry = AccountName name) ->
  forall total : F, exists sum, sum_business_expenses run year entries total = Returns sum.
Proof.
  induction entries as [ | entry rest IH]; intros Hnames total.
  - eexists. reflexivity.
  - destruct (Hnames entry (or_introl eq_refl)) as (name & ->). cbn.
    apply IH. intros e He. apply Hnames. right. exact He.
Qed.

(** Once [compute_taxes] has found its federal entry, the calculators find
    theirs: the statuses they read, "joint" or "single" by default, lead to
    the entry of the configured status or to the "joint" one. *)
Lemma calculators_find_entries (base : PersonalParams F) (params : TaxParams F)
  (year : Z) (entry : JurisdictionTaxParams F) :
  status_entry (federal params) (get_or (filing_status base) "joint"%string)
  = Returns entry ->
  (forall inv agi, exists tax,
      compute_investment_tax base (fun _ => params) inv agi year = Ok tax)
  /\ (forall w n paid, exists tax,
         compute_medicare_tax base (fun _ => params) w n paid year = Ok tax).
Proof.
  unfold status_entry, compute_investment_tax, compute_medicare_tax,
    federal_params_for.
  destruct (filing_status base) as [status | ]; cbn [get_or].
  - destruct (dict_get (federal params) status) as [found | ].
    + intros _. split; intros; [destruct (fle _ _) |]; eexists; reflexivity.
    + destruct (dict_get (federal params) "joint") as [joint | ]; [| discriminate].
      intros _. split; intros; [destruct (fle _ _) |]; eexists; reflexivity.
  - destruct (dict_get (federal params) "joint") as [joint | ]; [| discriminate].
    intros _. split; intros.
    + destruct (fle _ _); eexists; reflexivity.
    + destruct (dict_get (federal params) "single"); eexists; reflexivity.
Qed.

Lemma required_raises {A : Type} (key : string) (value : option A) (e : error) :
  required key value = Raises e -> e = KeyError key.
Proof.
  destruct value; [discriminate |]. intros H. injection H as <-. reflexivity.
Qed.

Lemma balance_after_raising_raises (pow : F -> Z -> option F)
  (loan r pay : F) (m : Z) (e : error) :
  balance_after_raising pow loan r pay m = Raises e -> e = OverflowError.
Proof.
  unfold balance_after_raising, pow_or_overflow. destruct (feq r _); [discriminate |].
  destruct (pow _ m); [discriminate |]. intros H. injection H as <-. reflexivity.
Qed.

Lemma interest_paid_until_raising_raises (pow : F -> Z -> option F)
  (loan r pay : F) (m : Z) (e : error) :
  interest_paid_until_raising pow loan r pay m = Raises e -> e = OverflowError.
Proof.
  unfold interest_paid_until_raising.
  destruct (balance_after_raising pow loan r pay m) as [balance | e'] eqn:E;
    [discriminate |].
  intros H. injection H as <-. exact (balance_after_raising_raises _ _ _ _ _ _ E).
Qed.

(** The only exception of [compute_interest] is the OverflowError of
    [pow]. *)
Lemma compute_interest_raising_raises
  (run : list string -> option Z -> F) (pow : F -> Z -> option F)
  (personal : PersonalFile F) (year : Z) (e : error) :
  compute_interest_raising run pow personal year = Raises e -> e = OverflowError.
Proof.
  unfold compute_interest_raising.
  destruct (match interest_by_year _ with Some _ => _ | None => _ end);
    [discriminate |].
  destruct (interest_account _); [discriminate |].
  destruct (principal _) as [loan | ]; [| discriminate].
  destruct (monthly_rate _) as [r | ]; [| discriminate].
  destruct (payment _) as [pay | ]; [| discriminate].
  destruct (start_year _) as [first_year | ]; [| discriminate].
  destruct (interest_paid_until_raising pow loan r pay _) as [until_end | e1] eqn:E1.
  - destruct (interest_paid_until_raising pow loan r pay _) as [until_start | e2] eqn:E2
      in |- *; [discriminate |].
    cbn [and_then]. intros H. injection H as <-.
    exact (interest_paid_until_raising_raises _ _ _ _ _ _ E2).
  - cbn [and_then]. intros H. injection H as <-.
    exact (interest_paid_until_raising_raises _ _ _ _ _ _ E1).
Qed.

(** Where [pow] returns, [compute_interest] returns what the calculator
    read with that [pow] as a function returns. *)
Lemma compute_interest_raising_returns
  (run : list string -> option Z -> F) (pow : F -> Z -> option F) (total_pow : F -> Z -> F)
  (personal : PersonalFile F) (year : Z) :
  (forall x m, pow x m = Some (total_pow x m)) ->
  compute_interest_raising run pow personal year
  = Returns (compute_interest (fun args y => run args (Some y)) total_pow
               (calculator_params personal) year).
Proof.
  intros Hpow. unfold compute_interest_raising, compute_interest.
  destruct (match interest_by_year _ with Some _ => _ | None => _ end);
    [reflexivity |].
  destruct (interest_account _); [reflexivity |].
  destruct (principal _) as [loan | ]; [| reflexivity].
  destruct (monthly_rate _) as [r | ]; [| reflexivity].
  destruct (payment _) as [pay | ]; [| reflexivity].
  destruct (start_year _) as [first_year | ]; [| reflexivity].
  unfold interest_paid_until_raising, interest_paid_until,
    balance_after_raising, balance_after, pow_or_overflow.
  destruct (feq r _); cbn [and_then]; [reflexivity |].
  rewrite !Hpow. reflexivity.
Qed.

End SummaryFacts.

(** X19: when the parameter tables load and the ledger queries return,
    [compute_taxes] raises ValueError exactly when the federal or the CA
    table has neither an entry for the filing status nor a "joint" one.
    Nothing it runs afterwards raises it:
    a missing key, a mapping among the business expense accounts and an
    overflow of [pow] raise other exceptions, and the two calculators that
    look the federal entry up again find one, although
    [compute_medicare_tax] reads an absent filing status as "single". *)
Theorem summary_fails_only_on_missing_entries :
  forall (F : Type) (N : PyFloat F)
         (run_hledger_command : list string -> option Z -> F)
         (pow : F -> Z -> option F)
         (load_tax_params : Z -> outcome (TaxParams F))
         (personal : PersonalFile F) (aliases : Aliases) (year : Z)
         (params : TaxParams F),
    load_tax_params year = Returns params ->
    let status :=
      get_or (filing_status (calculator_params personal)) "joint"%string in
    compute_taxes run_hledger_command pow load_tax_params personal aliases year
    = Raises (Builtin ValueError)
    <-> status_entry (federal params) status = Raises (Builtin ValueError)
        \/ status_entry (ca params) status = Raises (Builtin ValueError).
Proof.
  intros F N run_query pow load personal aliases year params Hload status.
  unfold compute_taxes, load_filing_status, load_home_office_info.
  rewrite Hload. cbn [and_then]. fold status.
  destruct (status_entry (federal params) status) as [fed_entry | e] eqn:Efed.
  2:{ apply status_entry_raises in Efed as ->. cbn [and_then].
      split; [left; reflexivity | reflexivity]. }
  cbn [and_then].
  destruct (status_entry (ca params) status) as [ca_entry | e] eqn:Eca.
  2:{ apply status_entry_raises in Eca as ->. cbn [and_then].
      split; [right; reflexivity | reflexivity]. }
  cbn [and_then].
  destruct (calculators_find_entries (calculator_params personal) params year
              fed_entry Efed) as [Hinv Hmed].
  split; [| intros [H | H]; discriminate H].
  repeat match goal with
         | |- and_then (required ?key ?value) _ = _ -> _ =>
             destruct value; cbn [required and_then]; [| discriminate]
         end.
  destruct (compute_interest_raising _ _ _ _) as [INTEREST | e] eqn:Einterest;
    cbn [and_then].
  2:{ apply compute_interest_raising_raises in Einterest as ->. discriminate. }
  destruct (alias_queries aliases) as [queries | ]; cbn [required and_then];
    [| discriminate].
  destruct (sum_business_expenses _ _ _ _) as [expenses | e] eqn:Esum;
    cbn [and_then].
  2:{ apply sum_business_expenses_raises in Esum as ->. discriminate. }
  destruct (deduction_rate _) as [rate | ]; cbn [required and_then];
    [| discriminate].
  destruct (fixed_deduction _) as [fixed | ]; cbn [required and_then];
    [| discriminate].
  match goal with
  | |- context [compute_investment_tax ?b ?l ?i ?a ?y] =>
      destruct (Hinv i a) as [inv_tax ->]
  end.
  cbn [of_result and_then].
  match goal with
  | |- context [compute_medicare_tax ?b ?l ?w ?n ?p ?y] =>
      destruct (Hmed w n p) as [medicare ->]
  end.
  cbn [of_result and_then]. discriminate.
Qed.

Lemma summary_fails_only_on_missing_entries_witness :
  compute_taxes (F:=float) flat_ledger (fun x _ => Some x)
    (fun y => Returns {| federal := federal (sample_tax_params y);
                         ca := [("single"%string, status_params 200000)] |})
    sample_personal sample_aliases 2024
  = Raises (Builtin ValueError).
Proof.
  apply (proj2 (summary_fails_only_on_missing_entries float Binary64
                  flat_ledger (fun x _ => Some x)
                  (fun y => Returns {| federal := federal (sample_tax_params y);
                                       ca := [("single"%string, status_params 200000)] |})
                  sample_personal sample_aliases 2024 _ eq_refl)).
  right. reflexivity.
Defined.

(** Walks through the steps of [compute_taxes] that can raise, leaving the
    goal on the summary it returns. *)
Ltac summary_cases :=
  unfold compute_taxes;
  repeat match goal with
         | |- match and_then ?o _ with _ => _ end =>
             destruct o; cbn [and_then]; [| exact I]
         end;
  cbv zeta.

Lemma summary_total_tax_is_clamped {F : Type} {N : PyFloat F}
  (run_hledger_command : list string -> option Z -> F) (pow : F -> Z -> option F)
  (load_tax_params : Z -> outcome (TaxParams F))
  (personal : PersonalFile F) (aliases : Aliases) (year : Z) :
  match compute_taxes run_hledger_command pow load_tax_params personal aliases year with
  | Returns summary => exists total, total_tax summary = py_max total (lit 0.0)
  | Raises _ => True
  end.
Proof.
  summary_cases. cbn [total_tax]. eexists. reflexivity.
Qed.

(** X20: on binary64, the total tax of a summary [compute_taxes] returns
    never compares below zero, whatever the ledger and the parameters: the
    credit for Social Security tax overpaid is not carried past zero.  (The
    amount owed, which subtracts the tax paid from it, can be below zero.) *)
Theorem summary_total_tax_not_negative :
  forall (run_hledger_command : list string -> option Z -> float)
         (pow : float -> Z -> option float)
         (load_tax_params : Z -> outcome (TaxParams float))
         (personal : PersonalFile float) (aliases : Aliases) (year : Z)
         (summary : TaxSummary float),
    compute_taxes run_hledger_command pow load_tax_params personal aliases year
    = Returns summary ->
    (total_tax summary <? lit 0.0)%py = false.
Proof.
  intros run pow load personal aliases year summary Hrun.
  pose proof (summary_total_tax_is_clamped run pow load personal aliases year) as H.
  rewrite Hrun in H. destruct H as [total ->]. apply b64_max_zero_r.
Qed.

Lemma summary_total_tax_not_negative_witness :
  exists summary,
    compute_taxes (F:=float) flat_ledger (fun x _ => Some x)
      (fun y => Returns (sample_tax_params y)) sample_personal sample_aliases 2024
    = Returns summary
    /\ (total_tax summary <? lit 0.0)%py = false.
Proof.
  eexists. split; [vm_compute; reflexivity |].
  apply (summary_total_tax_not_negative flat_ledger (fun x _ => Some x)
           (fun y => Returns (sample_tax_params y)) sample_personal sample_aliases 2024).
  vm_compute. reflexivity.
Defined.

Section FederalSurcharges.
Context {F : Type} {N : PyFloat F}.

Lemma dict_get_same_but_surcharges (table table' : dict (JurisdictionTaxParams F))
  (key : string) :
  same_but_surcharges table table' ->
  match dict_get table key, dict_get table' key with
  | Some entry, Some entry' => with_surcharges None entry = with_surcharges None entry'
  | None, None => True
  | _, _ => False
  end.
Proof.
  induction 1 as [ | [k v] [k' v'] rest rest' [Hk Hv] _ IH]; cbn.
  - exact I.
  - cbn in Hk, Hv. subst k'. destruct (String.eqb k key); [exact Hv | exact IH].
Qed.

Lemma status_entry_same_but_surcharges (table table' : dict (JurisdictionTaxParams F))
  (status : string) :
  same_but_surcharges table table' ->
  match status_entry table status, status_entry table' status with
  | Returns entry, Returns entry' =>
      with_surcharges None entry = with_surcharges None entry'
  | Raises e, Raises e' => e = e'
  | _, _ => False
  end.
Proof.
  intros H. unfold status_entry.
  pose proof (dict_get_same_but_surcharges table table' status H) as Hs.
  pose proof (dict_get_same_but_surcharges table table' "joint" H) as Hj.
  destruct (dict_get table status), (dict_get table' status); try contradiction;
    [exact Hs |].
  destruct (dict_get table "joint"), (dict_get table' "joint"); try contradiction;
    [exact Hj | reflexivity].
Qed.

Lemma federal_params_same_but_surcharges (params params' : TaxParams F)
  (year : Z) (status : string) :
  same_but_surcharges (federal params) (federal params') ->
  match federal_params_for (fun _ => params) year status,
        federal_params_for (fun _ => params') year status with
  | Ok entry, Ok entry' => with_surcharges None entry = with_surcharges None entry'
  | Raise e, Raise e' => e = e'
  | _, _ => False
  end.
Proof.
  intros H. unfold federal_params_for.
  pose proof (dict_get_same_but_surcharges _ _ status H) as Hs.
  pose proof (dict_get_same_but_surcharges _ _ "joint" H) as Hj.
  destruct (dict_get (federal params) status), (dict_get (federal params') status);
    try contradiction; [exact Hs |].
  destruct (dict_get (federal params) "joint"), (dict_get (federal params') "joint");
    try contradiction; [exact Hj | reflexivity].
Qed.

Lemma investment_tax_same_but_surcharges (base : PersonalParams F)
  (params params' : TaxParams F) (investment_income agi : F) (year : Z) :
  same_but_surcharges (federal params) (federal params') ->
  compute_investment_tax base (fun _ => params) investment_income agi year
  = compute_investment_tax base (fun _ => params') investment_income agi year.
Proof.
  intros H. unfold compute_investment_tax.
  pose proof (federal_params_same_but_surcharges params params' year
                (get_or (filing_status base) "joint"%string) H) as Hf.
  destruct (federal_params_for (fun _ => params) _ _) as [entry | e],
           (federal_params_for (fun _ => params') _ _) as [entry' | e'];
    try contradiction; [| congruence].
  apply (f_equal niit_threshold) in Hf. cbn in Hf. rewrite Hf. reflexivity.
Qed.

Lemma medicare_tax_same_but_surcharges (base : PersonalParams F)
  (params params' : TaxParams F) (w2_medicare net paid : F) (year : Z) :
  same_but_surcharges (federal params) (federal params') ->
  compute_medicare_tax base (fun _ => params) w2_medicare net paid year
  = compute_medicare_tax base (fun _ => params') w2_medicare net paid year.
Proof.
  intros H. unfold compute_medicare_tax.
  pose proof (federal_params_same_but_surcharges params params' year
                (get_or (filing_status base) "single"%string) H) as Hf.
  destruct (federal_params_for (fun _ => params) _ _) as [entry | e],
           (federal_params_for (fun _ => params') _ _) as [entry' | e'];
    try contradiction; [| congruence].
  apply (f_equal medicare_threshold) in Hf. cbn in Hf. rewrite Hf. reflexivity.
Qed.

End FederalSurcharges.

(** X22: the surcharge rules of the federal table are read and never
    applied.  Two runs of [compute_taxes] whose parameter tables differ in
    the federal surcharge rules only end the same way, with the same
    summary or the same error; only the CA rules enter the amounts. *)
Theorem federal_surcharges_are_ignored :
  forall (F : Type) (N : PyFloat F)
         (run_hledger_command : list string -> option Z -> F) (pow : F -> Z -> option F)
         (load_tax_params load_tax_params' : Z -> outcome (TaxParams F))
         (personal : PersonalFile F) (aliases : Aliases) (year : Z)
         (params params' : TaxParams F),
    load_tax_params year = Returns params ->
    load_tax_params' year = Returns params' ->
    same_but_surcharges (federal params) (federal params') ->
    ca params = ca params' ->
    compute_taxes run_hledger_command pow load_tax_params personal aliases year
    = compute_taxes run_hledger_command pow load_tax_params' personal aliases year.
Proof.
  intros F N run pow load load' personal aliases year params params'
         Hload Hload' Hfed Hca.
  unfold compute_taxes. rewrite Hload, Hload'. cbn [and_then]. rewrite <- Hca.
  pose proof (status_entry_same_but_surcharges (federal params) (federal params')
                (load_filing_status personal) Hfed) as Hentry.
  destruct (status_entry (federal params) _) as [entry | e],
           (status_entry (federal params') _) as [entry' | e'];
    try contradiction; [| subst e'; reflexivity].
  cbn [and_then].
  pose proof (f_equal brackets Hentry) as Hbrackets.
  pose proof (f_equal standard_deduction Hentry) as Hdeduction.
  pose proof (f_equal ss_max Hentry) as Hmax.
  cbn in Hbrackets, Hdeduction, Hmax.
  rewrite <- Hbrackets, <- Hdeduction, <- Hmax.
  repeat match goal with
         | |- and_then ?o _ = and_then ?o _ =>
             destruct o; cbn [and_then]; [| reflexivity]
         end.
  rewrite <- !(investment_tax_same_but_surcharges _ params params' _ _ _ Hfed).
  rewrite <- !(medicare_tax_same_but_surcharges _ params params' _ _ _ _ Hfed).
  reflexivity.
Qed.

Lemma federal_surcharges_are_ignored_witness :
  compute_taxes (F:=float) flat_ledger (fun x _ => Some x)
    (fun y => Returns (sample_tax_params y)) sample_personal sample_aliases 2024
  = compute_taxes (F:=float) flat_ledger (fun x _ => Some x)
      (fun y =>
         Returns
           {| federal :=
                [("single"%string, with_surcharges None (status_params 200000));
                 ("joint"%string,
                  with_surcharges
                    (Some [ {| surcharge_threshold := None;
                               surcharge_rate := Some (lit 0.5) |} ])
                    (status_params 250000))];
              ca := ca (sample_tax_params y) |})
      sample_personal sample_aliases 2024.
Proof.
  apply (federal_surcharges_are_ignored float Binary64 flat_ledger (fun x _ => Some x)
           (fun y => Returns (sample_tax_params y)) _ sample_personal sample_aliases
           2024 (sample_tax_params 2024) _ eq_refl eq_refl).
  - repeat constructor.
  - reflexivity.
Defined.

(** ** Rounding to nearest even *)

Section IntegerRounding.
Local Open Scope Z_scope.

Lemma rne_bounds (m n : Z) :
  0 < n -> m / 2 ^ n <= rne m n <= m / 2 ^ n + 1.
Proof.
  intros Hn. unfold rne. destruct (Z.leb_spec n 0); [lia |].
  cbv zeta. destruct (_ ?= _); [destruct (Z.even _) | |]; lia.
Qed.

Lemma rne_mono (m1 m2 n : Z) : m1 <= m2 -> rne m1 n <= rne m2 n.
Proof.
  intros Hm. unfold rne. destruct (Z.leb_spec n 0) as [Hn | Hn]; [exact Hm |].
  cbv zeta.
  assert (Hp : 0 < 2 ^ n) by (apply Z.pow_pos_nonneg; lia).
  pose proof (Z.div_mod m1 (2 ^ n) ltac:(lia)) as E1.
  pose proof (Z.div_mod m2 (2 ^ n) ltac:(lia)) as E2.
  pose proof (Z.mod_pos_bound m1 (2 ^ n) Hp) as B1.
  pose proof (Z.mod_pos_bound m2 (2 ^ n) Hp) as B2.
  pose proof (Z.div_le_mono m1 m2 (2 ^ n) Hp Hm) as Hq.
  set (q1 := m1 / 2 ^ n) in *. set (q2 := m2 / 2 ^ n) in *.
  set (r1 := m1 mod 2 ^ n) in *. set (r2 := m2 mod 2 ^ n) in *.
  destruct (Z.eq_dec q1 q2) as [E | E].
  - rewrite <- E in *. assert (r1 <= r2) by nia.
    destruct (Z.compare_spec (2 * r1) (2 ^ n)), (Z.compare_spec (2 * r2) (2 ^ n));
      try destruct (Z.even q1); lia.
  - assert (q1 + 1 <= q2) by lia.
    destruct (2 * r1 ?= 2 ^ n), (2 * r2 ?= 2 ^ n);
      try destruct (Z.even q1); try destruct (Z.even q2); lia.
Qed.

Lemma rne_exact (a n : Z) : 0 <= n -> rne (a * 2 ^ n) n = a.
Proof.
  intros Hn. unfold rne. destruct (Z.leb_spec n 0) as [H | H].
  - replace n with 0 by lia. cbn. lia.
  - cbv zeta. assert (Hp : 0 < 2 ^ n) by (apply Z.pow_pos_nonneg; lia).
    rewrite Z.mod_mul, Z.div_mul by lia.
    destruct (Z.compare_spec (2 * 0) (2 ^ n)); lia.
Qed.

Lemma rne_shift (m n j : Z) :
  0 <= n -> 0 <= j -> rne (m * 2 ^ j) (n + j) = rne m n.
Proof.
  intros Hn Hj. destruct (Z.eq_dec n 0) as [-> | Hn0].
  - cbn [Z.add]. rewrite rne_exact by lia. reflexivity.
  - unfold rne. destruct (Z.leb_spec (n + j) 0); [lia |].
    destruct (Z.leb_spec n 0); [lia |]. cbv zeta.
    assert (Hp : 0 < 2 ^ n) by (apply Z.pow_pos_nonneg; lia).
    assert (Hpj : 0 < 2 ^ j) by (apply Z.pow_pos_nonneg; lia).
    rewrite Z.pow_add_r by lia.
    rewrite Z.div_mul_cancel_r by lia.
    rewrite Zmult_mod_distr_r.
    replace (2 * (m mod 2 ^ n * 2 ^ j)) with ((2 * (m mod 2 ^ n)) * 2 ^ j) by ring.
    rewrite <- Zmult_compare_compat_r by lia. reflexivity.
Qed.

Lemma rne_nonneg (m n : Z) : 0 <= m -> 0 <= rne m n.
Proof.
  intros Hm. rewrite <- (rne_exact 0 (Z.max n 0)) by lia.
  cbn [Z.mul]. destruct (Z.leb_spec n 0) as [H | H].
  - unfold rne. destruct (Z.leb_spec n 0); [| lia].
    destruct (Z.leb_spec (Z.max n 0) 0); lia.
  - replace (Z.max n 0) with n by lia. apply rne_mono. exact Hm.
Qed.

End IntegerRounding.

Section FormatRounding.
Local Open Scope Z_scope.

Section Rnd.
Variables prec K : Z.
Hypothesis Hprec : 0 < prec.
Hypothesis HK : 0 <= K.

Lemma rnd_shift_bounds (N : Z) :
  0 < N ->
  let n := rnd_shift prec K N in
  K <= n /\ N < 2 ^ (n + prec) /\ (K < n -> 2 ^ (n + prec - 1) <= N).
Proof.
  intros HN n. subst n. unfold rnd_shift.
  destruct (Z.log2_spec N HN) as [Hlow Hhigh].
  pose proof (Z.log2_nonneg N) as Hlog.
  split; [lia |]. split.
  - eapply Z.lt_le_trans; [exact Hhigh |].
    apply Z.pow_le_mono_r; lia.
  - intros H. replace (Z.max (Z.log2 N + 1 - prec) K + prec - 1) with (Z.log2 N) by lia.
    exact Hlow.
Qed.

Lemma rnd_zero : rnd prec K 0 = 0.
Proof.
  unfold rnd. replace 0 with (0 * 2 ^ rnd_shift prec K 0) at 1 by lia.
  rewrite rne_exact; [lia |]. unfold rnd_shift. lia.
Qed.

Lemma rnd_nonneg (N : Z) : 0 <= N -> 0 <= rnd prec K N.
Proof.
  intros HN. unfold rnd. apply Z.mul_nonneg_nonneg.
  - apply rne_nonneg, HN.
  - apply Z.pow_nonneg. lia.
Qed.

Lemma rnd_mono (N1 N2 : Z) : 0 <= N1 -> N1 <= N2 -> rnd prec K N1 <= rnd prec K N2.
Proof.
  intros H1 H12. destruct (Z.eq_dec N1 0) as [-> | Hpos].
  - rewrite rnd_zero. apply rnd_nonneg. lia.
  - assert (HN1 : 0 < N1) by lia. assert (HN2 : 0 < N2) by lia.
    destruct (rnd_shift_bounds N1 HN1) as (Hk1 & Hup1 & _).
    destruct (rnd_shift_bounds N2 HN2) as (Hk2 & _ & Hlow2).
    assert (Hshift : rnd_shift prec K N1 <= rnd_shift prec K N2).
    { unfold rnd_shift. pose proof (Z.log2_le_mono N1 N2 H12). lia. }
    unfold rnd.
    set (n1 := rnd_shift prec K N1) in *. set (n2 := rnd_shift prec K N2) in *.
    destruct (Z.eq_dec n1 n2) as [E | E].
    + rewrite E. apply Z.mul_le_mono_nonneg_r; [apply Z.pow_nonneg; lia |].
      apply rne_mono, H12.
    + assert (Hlt : n1 < n2) by lia.
      specialize (Hlow2 ltac:(lia)).
      assert (Hr1 : rne N1 n1 <= 2 ^ prec).
      { rewrite <- (rne_exact (2 ^ prec) n1) by lia. apply rne_mono.
        rewrite <- Z.pow_add_r by lia. rewrite Z.add_comm. lia. }
      assert (Hr2 : 2 ^ (prec - 1) <= rne N2 n2).
      { rewrite <- (rne_exact (2 ^ (prec - 1)) n2) by lia. apply rne_mono.
        rewrite <- Z.pow_add_r by lia.
        replace (prec - 1 + n2) with (n2 + prec - 1) by lia. exact Hlow2. }
      apply Z.le_trans with (2 ^ prec * 2 ^ (n1 - K)).
      * apply Z.mul_le_mono_nonneg_r; [apply Z.pow_nonneg; lia | exact Hr1].
      * apply Z.le_trans with (2 ^ (prec - 1) * 2 ^ (n2 - K)).
        -- rewrite <- !Z.pow_add_r by lia. apply Z.pow_le_mono_r; lia.
        -- apply Z.mul_le_mono_nonneg_r; [apply Z.pow_nonneg; lia | exact Hr2].
Qed.

(** A value of at most [prec] digits above the grid is not changed. *)
Lemma rnd_representable (m j : Z) :
  0 < m -> m < 2 ^ prec -> 0 <= j -> (j = 0 \/ 2 ^ (prec - 1) <= m) ->
  rnd prec K (m * 2 ^ (j + K)) = m * 2 ^ j.
Proof.
  intros Hm Hup Hj Hcanon.
  assert (Hlog : Z.log2 (m * 2 ^ (j + K)) = Z.log2 m + (j + K)).
  { rewrite Z.log2_mul_pow2 by lia. lia. }
  assert (Hlm : Z.log2 m < prec) by (apply Z.log2_lt_pow2; lia).
  assert (Hn : rnd_shift prec K (m * 2 ^ (j + K)) = j + K).
  { unfold rnd_shift. rewrite Hlog. destruct Hcanon as [-> | Hlow]; [lia |].
    assert (prec - 1 <= Z.log2 m) by (apply Z.log2_le_pow2; lia). lia. }
  unfold rnd. rewrite Hn, rne_exact by lia.
  replace (j + K - K) with j by lia. reflexivity.
Qed.

End Rnd.

End FormatRounding.

Section ShiftRegister.
Local Open Scope Z_scope.

Lemma digits2_log2 (m : positive) : Zpos (digits2_pos m) = Z.log2 (Zpos m) + 1.
Proof.
  assert (H : forall p, digits2_pos p = Pos.size p).
  { induction p as [p IH | p IH | ]; cbn; rewrite ?IH; reflexivity. }
  destruct m as [p | p | ]; cbn; rewrite ?H; lia.
Qed.

Lemma shr_1_halves (M : Z) (r s : bool) :
  0 <= M ->
  shr_1 {| shr_m := M; shr_r := r; shr_s := s |}
  = {| shr_m := M / 2; shr_r := Z.odd M; shr_s := r || s |}.
Proof.
  intros HM. rewrite <- Z.div2_div.
  destruct M as [ | [p | p | ] | p]; try reflexivity. lia.
Qed.

Lemma shr_1_state (m k : Z) :
  0 <= m -> 0 <= k -> shr_1 (shr_state m k) = shr_state m (k + 1).
Proof.
  intros Hm Hk. unfold shr_state.
  assert (Hp : 0 < 2 ^ k) by (apply Z.pow_pos_nonneg; lia).
  rewrite shr_1_halves by (apply Z.div_pos; lia).
  replace (k + 1 - 1) with k by lia.
  destruct (Z.leb_spec (k + 1) 0); [lia |].
  f_equal.
  - rewrite Z.pow_add_r, Z.pow_1_r by lia. rewrite Z.div_div by lia. reflexivity.
  - destruct (Z.leb_spec k 0) as [H0 | H0].
    + replace k with 0 by lia. cbn. rewrite Z.mod_1_r. reflexivity.
    + assert (Hq : 0 < 2 ^ (k - 1)) by (apply Z.pow_pos_nonneg; lia).
      assert (E : m mod 2 ^ k
                  = m mod 2 ^ (k - 1) + 2 ^ (k - 1) * ((m / 2 ^ (k - 1)) mod 2)).
      { replace (2 ^ k) with (2 ^ (k - 1) * 2).
        - apply Z.rem_mul_r; lia.
        - rewrite <- (Z.pow_1_r 2) at 2. rewrite <- Z.pow_add_r by lia.
          f_equal. lia. }
      rewrite E, Zmod_odd.
      pose proof (Z.mod_pos_bound m (2 ^ (k - 1)) Hq) as Hb.
      destruct (Z.odd (m / 2 ^ (k - 1))); cbn [orb].
      * symmetry. apply negb_true_iff, Z.eqb_neq. lia.
      * rewrite Z.mul_0_r, Z.add_0_r. reflexivity.
Qed.

Lemma iter_pos_state (m : Z) (p : positive) :
  0 <= m ->
  forall k, 0 <= k -> iter_pos shr_1 p (shr_state m k) = shr_state m (k + Zpos p).
Proof.
  intros Hm. induction p as [p IH | p IH | ]; intros k Hk; cbn [iter_pos].
  - rewrite shr_1_state, IH, IH by lia. f_equal. lia.
  - rewrite IH, IH by lia. f_equal. lia.
  - apply shr_1_state; assumption.
Qed.

Lemma shr_state_start (m : Z) :
  shr_state m 0 = {| shr_m := m; shr_r := false; shr_s := false |}.
Proof. unfold shr_state. cbn. rewrite Z.div_1_r. reflexivity. Qed.

(** Shifting right by [n] bits and rounding on the two bits kept is
    rounding to nearest, ties to even. *)
Lemma round_shr_state (m n : Z) :
  0 <= m -> 0 <= n ->
  round_nearest_even (shr_m (shr_state m n)) (loc_of_shr_record (shr_state m n))
  = rne m n.
Proof.
  intros Hm Hn. unfold rne, shr_state, loc_of_shr_record, shr_m.
  destruct (Z.leb_spec n 0) as [H0 | H0].
  - replace n with 0 by lia. cbn. apply Z.div_1_r.
  - assert (Hq : 0 < 2 ^ (n - 1)) by (apply Z.pow_pos_nonneg; lia).
    assert (E2 : 2 ^ n = 2 ^ (n - 1) * 2).
    { rewrite <- (Z.pow_1_r 2) at 3. rewrite <- Z.pow_add_r by lia. f_equal. lia. }
    assert (E : m mod 2 ^ n
                = m mod 2 ^ (n - 1) + 2 ^ (n - 1) * ((m / 2 ^ (n - 1)) mod 2)).
    { rewrite E2. apply Z.rem_mul_r; lia. }
    pose proof (Z.mod_pos_bound m (2 ^ (n - 1)) Hq) as Hb.
    cbv zeta. rewrite E, Zmod_odd.
    destruct (Z.odd (m / 2 ^ (n - 1))).
    + destruct (Z.eqb_spec (m mod 2 ^ (n - 1)) 0) as [Hz | Hz]; cbn [negb].
      * rewrite Hz. replace (2 * (0 + 2 ^ (n - 1) * 1)) with (2 ^ n) by lia.
        rewrite Z.compare_refl. reflexivity.
      * cbn [round_nearest_even].
        destruct (Z.compare_spec (2 * (m mod 2 ^ (n - 1) + 2 ^ (n - 1) * 1)) (2 ^ n));
          lia.
    + assert (Hlt : 2 * (m mod 2 ^ (n - 1) + 2 ^ (n - 1) * 0) < 2 ^ n) by lia.
      apply Z.compare_lt_iff in Hlt. rewrite Hlt.
      destruct (negb _); reflexivity.
Qed.

End ShiftRegister.

Section RoundedMantissa.
Local Open Scope Z_scope.

Section AuxRounding.
Variables prec emax : Z.
Hypothesis Hprec : 1 < prec.
Hypothesis Hemax : prec < emax.

#[local] Abbreviation emin := (SpecFloat.emin prec emax).
#[local] Abbreviation fexp := (SpecFloat.fexp prec emax).
#[local] Abbreviation top := (2 ^ (emax - emin)).
#[local] Abbreviation value := (SF2Z prec emax).

Lemma emin_negative : emin < 0.
Proof. unfold SpecFloat.emin. lia. Qed.

Lemma fexp_emin (e : Z) : emin <= fexp e.
Proof. unfold SpecFloat.fexp. lia. Qed.

(** [binary_round_aux] on an exact mantissa that has to lose [n >= 0]
    bits: the value is the mantissa rounded to nearest even at that bit,
    or the infinity when that is out of range. *)
Lemma binary_round_aux_rne (s : bool) (m : positive) (e : Z) :
  let n := fexp (Zpos (digits2_pos m) + e) - e in
  0 <= n ->
  is_nan_sf (SpecFloat.binary_round_aux prec emax s (Zpos m) e loc_Exact) = false
  /\ value (SpecFloat.binary_round_aux prec emax s (Zpos m) e loc_Exact)
     = cond_Zopp s (Z.min (rne (Zpos m) n * 2 ^ (e + n - emin)) top).
Proof.
  intros n Hn.
  pose proof emin_negative as Hemin.
  unfold SpecFloat.binary_round_aux, SpecFloat.shr_fexp. cbn [Zdigits2]. fold n.
  cbn [shr_record_of_loc]. rewrite <- shr_state_start.
  assert (Efirst : shr (shr_state (Zpos m) 0) e n = (shr_state (Zpos m) n, e + n)).
  { unfold shr. destruct n as [ | p | p] eqn:En; [| | lia].
    - rewrite Z.add_0_r. reflexivity.
    - rewrite iter_pos_state by lia. reflexivity. }
  rewrite Efirst, round_shr_state by lia.
  set (q := rne (Zpos m) n). set (e' := e + n) in *.
  assert (He' : emin <= e') by (subst e' n; pose proof (fexp_emin (Zpos (digits2_pos m) + e)); lia).
  assert (Hd : Zpos m < 2 ^ (n + prec) /\ (emin < e' -> 2 ^ (n + prec - 1) <= Zpos m)).
  { pose proof (digits2_log2 m) as Ed.
    destruct (Z.log2_spec (Zpos m) ltac:(lia)) as [Hlow Hhigh].
    pose proof (Z.log2_nonneg (Zpos m)).
    subst e' n. unfold SpecFloat.fexp in *. split.
    - eapply Z.lt_le_trans; [exact Hhigh |]. apply Z.pow_le_mono_r; lia.
    - intros H'. eapply Z.le_trans; [| exact Hlow]. apply Z.pow_le_mono_r; lia. }
  destruct Hd as [Hup Hlow].
  assert (Hq0 : 0 <= q) by (apply rne_nonneg; lia).
  assert (Hq1 : q <= 2 ^ prec).
  { subst q. rewrite <- (rne_exact (2 ^ prec) n) by lia. apply rne_mono.
    rewrite <- Z.pow_add_r by lia. rewrite Z.add_comm. lia. }
  assert (Hq2 : emin < e' -> 2 ^ (prec - 1) <= q).
  { intros H'. subst q. rewrite <- (rne_exact (2 ^ (prec - 1)) n) by lia.
    apply rne_mono. rewrite <- Z.pow_add_r by lia.
    replace (prec - 1 + n) with (n + prec - 1) by lia. exact (Hlow H'). }
  destruct (Z.eq_dec q 0) as [Eq0 | Hqpos].
  - (* underflow to zero *)
    rewrite Eq0. cbn [Zdigits2 shr_record_of_loc].
    assert (Eshr : shr {| shr_m := 0; shr_r := false; shr_s := false |} e'
                       (fexp (0 + e') - e')
                   = ({| shr_m := 0; shr_r := false; shr_s := false |}, e')).
    { unfold shr, SpecFloat.fexp. destruct (Z.max _ _ - e') eqn:E; try reflexivity. lia. }
    rewrite Eshr. cbn. split; [reflexivity |].
    assert (0 < top) by (apply Z.pow_pos_nonneg; lia).
    rewrite Z.min_l by lia. destruct s; reflexivity.
  - assert (Hqpos' : 0 < q) by lia.
    destruct q as [ | pq | pq] eqn:Eq; [lia | | lia].
    cbn [Zdigits2 shr_record_of_loc]. rewrite digits2_log2.
    destruct (Z.eq_dec (Zpos pq) (2 ^ prec)) as [Ecarry | Hnocarry].
    + (* the mantissa was rounded up to a power of two *)
      assert (Elog : Z.log2 (Zpos pq) = prec) by (rewrite Ecarry; apply Z.log2_pow2; lia).
      assert (En2 : fexp (Z.log2 (Zpos pq) + 1 + e') - e' = 1).
      { rewrite Elog. unfold SpecFloat.fexp. lia. }
      rewrite En2. unfold shr. cbn [iter_pos].
      rewrite shr_1_halves by lia. cbn [shr_m].
      assert (Ehalf : Zpos pq / 2 = 2 ^ (prec - 1)).
      { rewrite Ecarry. replace prec with (prec - 1 + 1) at 1 by lia.
        rewrite Z.pow_add_r, Z.pow_1_r by lia. apply Z.div_mul. lia. }
      rewrite Ehalf.
      assert (Hhalf : 0 < 2 ^ (prec - 1)) by (apply Z.pow_pos_nonneg; lia).
      destruct (2 ^ (prec - 1)) as [ | ph | ph] eqn:Eh; [lia | | lia].
      assert (Evalue : Zpos ph * 2 ^ (e' + 1 - emin) = Zpos pq * 2 ^ (e' - emin)).
      { rewrite <- Eh, Ecarry. rewrite <- !Z.pow_add_r by lia. f_equal. lia. }
      destruct (Z.leb_spec (e' + 1) (emax - prec)) as [Hfit | Hover].
      * split; [reflexivity |]. cbn [SF2Z]. rewrite Evalue. f_equal.
        rewrite Z.min_l; [reflexivity |]. rewrite Ecarry.
        rewrite <- Z.pow_add_r by lia. apply Z.pow_le_mono_r; lia.
      * split; [reflexivity |]. cbn [SF2Z]. f_equal.
        rewrite Z.min_r; [reflexivity |]. rewrite Ecarry.
        rewrite <- Z.pow_add_r by lia. apply Z.pow_le_mono_r; lia.
    + assert (Hlt : Zpos pq < 2 ^ prec) by lia.
      assert (Hlog : Z.log2 (Zpos pq) < prec) by (apply Z.log2_lt_pow2; lia).
      assert (Eshr : shr {| shr_m := Zpos pq; shr_r := false; shr_s := false |} e'
                         (fexp (Z.log2 (Zpos pq) + 1 + e') - e')
                     = ({| shr_m := Zpos pq; shr_r := false; shr_s := false |}, e')).
      { unfold shr, SpecFloat.fexp.
        destruct (Z.max _ _ - e') eqn:E; try reflexivity. lia. }
      rewrite Eshr. cbn [shr_m].
      destruct (Z.leb_spec e' (emax - prec)) as [Hfit | Hover].
      * split; [reflexivity |]. cbn [SF2Z]. f_equal.
        rewrite Z.min_l; [reflexivity |].
        apply Z.le_trans with (2 ^ prec * 2 ^ (e' - emin)).
        -- apply Z.mul_le_mono_nonneg_r; [apply Z.pow_nonneg |]; lia.
        -- rewrite <- Z.pow_add_r by lia. apply Z.pow_le_mono_r; lia.
      * split; [reflexivity |]. cbn [SF2Z]. f_equal.
        rewrite Z.min_r; [reflexivity |].
        apply Z.le_trans with (2 ^ (prec - 1) * 2 ^ (e' - emin)).
        -- rewrite <- Z.pow_add_r by lia. apply Z.pow_le_mono_r; lia.
        -- apply Z.mul_le_mono_nonneg_r; [apply Z.pow_nonneg; lia |].
           apply Hq2. lia.
Qed.

End AuxRounding.

Lemma iter_xO (m d : positive) : Zpos (Pos.iter xO m d) = Zpos m * 2 ^ Zpos d.
Proof.
  revert m. induction d as [ | d IH] using Pos.peano_ind; intros m.
  - cbn. lia.
  - rewrite Pos.iter_succ, Pos2Z.inj_succ, Z.pow_succ_r by lia.
    rewrite Pos2Z.inj_xO, IH. ring.
Qed.

Section Normalize.
Variables prec emax : Z.
Hypothesis Hprec : 1 < prec.
Hypothesis Hemax : prec < emax.

#[local] Abbreviation emin := (SpecFloat.emin prec emax).
#[local] Abbreviation fexp := (SpecFloat.fexp prec emax).
#[local] Abbreviation top := (2 ^ (emax - emin)).
#[local] Abbreviation value := (SF2Z prec emax).

Lemma rne_as_rnd (m : positive) (e K : Z) :
  let n := fexp (Zpos (digits2_pos m) + e) - e in
  0 <= n -> 0 <= K -> 0 <= e - emin + K ->
  rne (Zpos m) n * 2 ^ (e + n - emin) = rnd prec K (Zpos m * 2 ^ (e - emin + K)).
Proof.
  intros n Hn HK Hj. unfold rnd.
  assert (Eshift : rnd_shift prec K (Zpos m * 2 ^ (e - emin + K)) = n + (e - emin + K)).
  { unfold rnd_shift. rewrite Z.log2_mul_pow2 by lia.
    subst n. rewrite digits2_log2. unfold SpecFloat.fexp. lia. }
  rewrite Eshift, rne_shift by lia. f_equal. f_equal. lia.
Qed.

Lemma binary_round_aux_value (s : bool) (m : positive) (e K : Z) :
  0 <= fexp (Zpos (digits2_pos m) + e) - e -> 0 <= K -> 0 <= e - emin + K ->
  is_nan_sf (SpecFloat.binary_round_aux prec emax s (Zpos m) e loc_Exact) = false
  /\ value (SpecFloat.binary_round_aux prec emax s (Zpos m) e loc_Exact)
     = cond_Zopp s (Z.min (rnd prec K (Zpos m * 2 ^ (e - emin + K))) top).
Proof.
  intros Hn HK Hj.
  destruct (binary_round_aux_rne prec emax Hprec Hemax s m e Hn) as [Hnan Hvalue].
  split; [exact Hnan |]. rewrite Hvalue, (rne_as_rnd m e K Hn HK Hj). reflexivity.
Qed.

Lemma binary_round_value (s : bool) (m : positive) (e K : Z) :
  0 <= K -> 0 <= e - emin + K ->
  is_nan_sf (binary_round prec emax s m e) = false
  /\ value (binary_round prec emax s m e)
     = cond_Zopp s (Z.min (rnd prec K (Zpos m * 2 ^ (e - emin + K))) top).
Proof.
  intros HK Hj. unfold binary_round, shl_align.
  pose proof (fexp_emin prec emax (Zpos (digits2_pos m) + e)) as Hfexp.
  destruct (fexp (Zpos (digits2_pos m) + e) - e) as [ | d | d] eqn:Ed.
  - apply binary_round_aux_value; lia.
  - apply binary_round_aux_value; lia.
  - set (e' := fexp (Zpos (digits2_pos m) + e)) in *.
    assert (Edigits : Zpos (digits2_pos (Pos.iter xO m d)) + e'
                      = Zpos (digits2_pos m) + e).
    { rewrite !digits2_log2, iter_xO, Z.log2_mul_pow2 by lia. lia. }
    replace (Zpos m * 2 ^ (e - emin + K))
      with (Zpos (Pos.iter xO m d) * 2 ^ (e' - emin + K)).
    + apply binary_round_aux_value; [| lia | lia].
      rewrite Edigits. fold e'. lia.
    + rewrite iter_xO, <- Z.mul_assoc, <- Z.pow_add_r by lia. f_equal. f_equal. lia.
Qed.

Lemma rnd_signed_mono (K S1 S2 : Z) :
  0 <= K -> S1 <= S2 -> rnd_signed prec emax K S1 <= rnd_signed prec emax K S2.
Proof.
  intros HK H. unfold rnd_signed. cbv zeta.
  assert (Htop : 0 < top).
  { apply Z.pow_pos_nonneg; [lia |]. pose proof (emin_negative prec emax Hprec Hemax). lia. }
  assert (Hprec' : 0 < prec) by lia.
  destruct (Z.ltb_spec S1 0), (Z.ltb_spec S2 0).
  - pose proof (rnd_mono prec K Hprec' HK (- S2) (- S1) ltac:(lia) ltac:(lia)). lia.
  - pose proof (rnd_nonneg prec K (- S1) ltac:(lia)).
    pose proof (rnd_nonneg prec K S2 ltac:(lia)). lia.
  - lia.
  - pose proof (rnd_mono prec K Hprec' HK S1 S2 ltac:(lia) ltac:(lia)). lia.
Qed.

Lemma rnd_signed_zero (K : Z) : 0 <= K -> rnd_signed prec emax K 0 = 0.
Proof.
  intros HK. unfold rnd_signed. cbn. rewrite (rnd_zero prec K) by lia.
  apply Z.min_l. apply Z.pow_nonneg. lia.
Qed.

Lemma binary_normalize_value (z e K : Z) :
  0 <= K -> 0 <= e - emin + K ->
  is_nan_sf (binary_normalize prec emax z e false) = false
  /\ value (binary_normalize prec emax z e false)
     = rnd_signed prec emax K (z * 2 ^ (e - emin + K)).
Proof.
  intros HK Hj. unfold binary_normalize.
  assert (Hp : 0 < 2 ^ (e - emin + K)) by (apply Z.pow_pos_nonneg; lia).
  destruct z as [ | m | m].
  - split; [reflexivity |]. rewrite Z.mul_0_l, rnd_signed_zero by lia. reflexivity.
  - destruct (binary_round_value false m e K HK Hj) as [Hnan ->].
    split; [exact Hnan |]. unfold rnd_signed. cbv zeta.
    destruct (Z.ltb_spec (Zpos m * 2 ^ (e - emin + K)) 0); [lia | reflexivity].
  - destruct (binary_round_value true m e K HK Hj) as [Hnan ->].
    split; [exact Hnan |]. unfold rnd_signed. cbv zeta.
    destruct (Z.ltb_spec (Zneg m * 2 ^ (e - emin + K)) 0); [| lia].
    cbn [cond_Zopp]. f_equal. f_equal. f_equal. lia.
Qed.

End Normalize.

Section Ops.
Variables prec emax : Z.
Hypothesis Hprec : 1 < prec.
Hypothesis Hemax : prec < emax.

#[local] Abbreviation emin := (SpecFloat.emin prec emax).
#[local] Abbreviation fexp := (SpecFloat.fexp prec emax).
#[local] Abbreviation top := (2 ^ (emax - emin)).
#[local] Abbreviation value := (SF2Z prec emax).
#[local] Abbreviation valid := (SpecFloat.valid_binary prec emax).

Lemma top_positive : 0 < top.
Proof.
  apply Z.pow_pos_nonneg; [lia |].
  pose proof (emin_negative prec emax Hprec Hemax). lia.
Qed.

(** What validity says of a finite number: the exponent is in range, and
    the mantissa has [prec] digits, or fewer at the least exponent. *)
Lemma valid_finite (s : bool) (m : positive) (e : Z) :
  valid (S754_finite s m e) = true ->
  emin <= e <= emax - prec
  /\ Zpos m < 2 ^ prec
  /\ (e = emin \/ 2 ^ (prec - 1) <= Zpos m).
Proof.
  cbn [SpecFloat.valid_binary]. unfold bounded, canonical_mantissa. intros H.
  apply andb_prop in H as [Hc He]. apply Z.eqb_eq in Hc. apply Z.leb_le in He.
  rewrite digits2_log2 in Hc. unfold SpecFloat.fexp in Hc.
  destruct (Z.log2_spec (Zpos m) ltac:(lia)) as [Hlow Hhigh].
  split; [lia |]. split.
  - eapply Z.lt_le_trans; [exact Hhigh |]. apply Z.pow_le_mono_r; lia.
  - destruct (Z.eq_dec e emin) as [E | E]; [left; exact E | right].
    eapply Z.le_trans; [| exact Hlow]. apply Z.pow_le_mono_r; lia.
Qed.

Lemma value_finite_bound (s : bool) (m : positive) (e : Z) :
  valid (S754_finite s m e) = true ->
  0 < Zpos m * 2 ^ (e - emin) < top.
Proof.
  intros H. destruct (valid_finite s m e H) as ((He1 & He2) & Hm & _).
  assert (0 < 2 ^ (e - emin)) by (apply Z.pow_pos_nonneg; lia).
  split; [lia |].
  apply Z.lt_le_trans with (2 ^ prec * 2 ^ (e - emin)).
  - apply Z.mul_lt_mono_pos_r; lia.
  - rewrite <- Z.pow_add_r by lia. apply Z.pow_le_mono_r; lia.
Qed.

(** A finite value is strictly between the infinities. *)
Lemma value_bound (f : spec_float) :
  valid f = true -> is_finite_sf f = true -> - top < value f < top.
Proof.
  pose proof top_positive.
  destruct f as [s | s | | s m e]; cbn [is_finite_sf SF2Z]; try discriminate;
    intros Hv _; [lia |].
  pose proof (value_finite_bound s m e Hv). destruct s; cbn [cond_Zopp]; lia.
Qed.

(** Rounding does not change a number of the format. *)
Lemma rnd_signed_value (f : spec_float) :
  valid f = true -> is_finite_sf f = true ->
  rnd_signed prec emax 0 (value f) = value f.
Proof.
  destruct f as [s | s | | s m e]; cbn [is_finite_sf SF2Z]; try discriminate;
    intros Hv _.
  - apply (rnd_signed_zero prec emax); lia.
  - destruct (valid_finite s m e Hv) as ((He1 & He2) & Hm & Hc).
    pose proof (value_finite_bound s m e Hv) as Hb.
    assert (E : rnd prec 0 (Zpos m * 2 ^ (e - emin)) = Zpos m * 2 ^ (e - emin)).
    { replace (e - emin) with (e - emin + 0) at 1 by lia.
      apply rnd_representable; try lia. }
    unfold rnd_signed. cbv zeta. destruct s; cbn [cond_Zopp].
    + destruct (Z.ltb_spec (- (Zpos m * 2 ^ (e - emin))) 0); [| lia].
      rewrite Z.opp_involutive, E, Z.min_l by lia. reflexivity.
    + destruct (Z.ltb_spec (Zpos m * 2 ^ (e - emin)) 0); [lia |].
      rewrite E, Z.min_l by lia. reflexivity.
Qed.

Lemma shl_align_fst (m : positive) (e e' : Z) :
  e' <= e -> Zpos (fst (shl_align m e e')) = Zpos m * 2 ^ (e - e').
Proof.
  intros H. unfold shl_align. destruct (e' - e) as [ | d | d] eqn:E.
  - replace (e - e') with 0 by lia. cbn [fst]. lia.
  - lia.
  - cbn [fst]. rewrite iter_xO. f_equal. f_equal. lia.
Qed.

Lemma aligned_value (s : bool) (m : positive) (e e' : Z) :
  emin <= e' -> e' <= e ->
  cond_Zopp s (Zpos (fst (shl_align m e e'))) * 2 ^ (e' - emin)
  = cond_Zopp s (Zpos m * 2 ^ (e - emin)).
Proof.
  intros H1 H2. rewrite shl_align_fst by lia.
  replace (e - emin) with ((e - e') + (e' - emin)) by lia.
  rewrite Z.pow_add_r by lia. destruct s; cbn [cond_Zopp]; ring.
Qed.

(** The sum of two finite numbers is their exact sum, rounded. *)
Lemma SFadd_value (x y : spec_float) :
  valid x = true -> valid y = true ->
  is_finite_sf x = true -> is_finite_sf y = true ->
  is_nan_sf (SFadd prec emax x y) = false
  /\ value (SFadd prec emax x y) = rnd_signed prec emax 0 (value x + value y).
Proof.
  intros Hx Hy Fx Fy.
  destruct x as [sx | sx | | sx mx ex]; try discriminate;
    destruct y as [sy | sy | | sy my ey]; try discriminate.
  - split; [destruct sx, sy; reflexivity |].
    cbn [SF2Z Z.add]. rewrite (rnd_signed_zero prec emax) by lia.
    destruct sx, sy; reflexivity.
  - split; [reflexivity |]. cbn [SFadd]. rewrite Z.add_0_l.
    symmetry. apply rnd_signed_value; [exact Hy | reflexivity].
  - split; [reflexivity |]. cbn [SFadd]. rewrite Z.add_0_r.
    symmetry. apply rnd_signed_value; [exact Hx | reflexivity].
  - destruct (valid_finite sx mx ex Hx) as ((Hx1 & _) & _).
    destruct (valid_finite sy my ey Hy) as ((Hy1 & _) & _).
    cbn [SFadd]. cbv zeta.
    set (ez := Z.min ex ey).
    destruct (binary_normalize_value prec emax Hprec Hemax
                (cond_Zopp sx (Zpos (fst (shl_align mx ex ez)))
                 + cond_Zopp sy (Zpos (fst (shl_align my ey ez))))
                ez 0 ltac:(lia) ltac:(lia)) as [Hnan Hvalue].
    split; [exact Hnan |]. rewrite Hvalue. f_equal.
    rewrite Z.add_0_r, Z.mul_add_distr_r, !aligned_value by lia. reflexivity.
Qed.


(** The product of two finite numbers is their exact product, rounded. *)
Lemma SFmul_value (x y : spec_float) :
  valid x = true -> valid y = true ->
  is_finite_sf x = true -> is_finite_sf y = true ->
  is_nan_sf (SFmul prec emax x y) = false
  /\ value (SFmul prec emax x y) = rnd_signed prec emax (- emin) (value x * value y).
Proof.
  intros Hx Hy Fx Fy.
  pose proof (emin_negative prec emax Hprec Hemax) as Hemin.
  destruct x as [sx | sx | | sx mx ex]; try discriminate;
    destruct y as [sy | sy | | sy my ey]; try discriminate;
    try (split; [reflexivity |]; cbn [SFmul SF2Z];
         rewrite ?Z.mul_0_l, ?Z.mul_0_r, (rnd_signed_zero prec emax) by lia;
         reflexivity).
  destruct (valid_finite sx mx ex Hx) as ((Hx1 & _) & Hmx & Hcx).
  destruct (valid_finite sy my ey Hy) as ((Hy1 & _) & Hmy & Hcy).
  cbn [SFmul].
  assert (Hn : 0 <= fexp (Zpos (digits2_pos (mx * my)) + (ex + ey)) - (ex + ey)).
  { rewrite digits2_log2, Pos2Z.inj_mul. unfold SpecFloat.fexp.
    pose proof (Z.log2_mul_below (Zpos mx) (Zpos my) ltac:(lia) ltac:(lia)) as Hlog.
    pose proof (Z.log2_nonneg (Zpos mx)). pose proof (Z.log2_nonneg (Zpos my)).
    destruct Hcx as [-> | Hcx].
    - destruct Hcy as [-> | Hcy]; [lia |].
      assert (prec - 1 <= Z.log2 (Zpos my)) by (apply Z.log2_le_pow2; lia). lia.
    - assert (prec - 1 <= Z.log2 (Zpos mx)) by (apply Z.log2_le_pow2; lia). lia. }
  destruct (binary_round_aux_value prec emax Hprec Hemax (xorb sx sy) (mx * my)
              (ex + ey) (- emin) Hn ltac:(lia) ltac:(lia)) as [Hnan Hvalue].
  split; [exact Hnan |]. rewrite Hvalue. cbn [SF2Z].
  assert (Hpx : 0 < 2 ^ (ex - emin)) by (apply Z.pow_pos_nonneg; lia).
  assert (Hpy : 0 < 2 ^ (ey - emin)) by (apply Z.pow_pos_nonneg; lia).
  assert (E : Zpos (mx * my) * 2 ^ (ex + ey - emin + - emin)
              = (Zpos mx * 2 ^ (ex - emin)) * (Zpos my * 2 ^ (ey - emin))).
  { replace (ex + ey - emin + - emin) with ((ex - emin) + (ey - emin)) by lia.
    rewrite Z.pow_add_r, Pos2Z.inj_mul by lia. ring. }
  rewrite E. unfold rnd_signed. cbv zeta.
  set (a := Zpos mx * 2 ^ (ex - emin)) in *. set (b := Zpos my * 2 ^ (ey - emin)) in *.
  assert (0 < a * b) by nia.
  destruct sx, sy; cbn [xorb cond_Zopp].
  - destruct (Z.ltb_spec (- a * - b) 0); [nia |]. f_equal. f_equal. ring.
  - destruct (Z.ltb_spec (- a * b) 0); [| nia]. f_equal. f_equal. f_equal. ring.
  - destruct (Z.ltb_spec (a * - b) 0); [| nia]. f_equal. f_equal. f_equal. ring.
  - destruct (Z.ltb_spec (a * b) 0); [nia | reflexivity].
Qed.

End Ops.

Section Order.
Variables prec emax : Z.
Hypothesis Hprec : 1 < prec.
Hypothesis Hemax : prec < emax.

#[local] Abbreviation emin := (SpecFloat.emin prec emax).
#[local] Abbreviation top := (2 ^ (emax - emin)).
#[local] Abbreviation value := (SF2Z prec emax).
#[local] Abbreviation valid := (SpecFloat.valid_binary prec emax).

(** Among numbers of the format, the one with the smaller exponent is the
    smaller one. *)
Lemma smaller_exponent (s1 s2 : bool) (m1 m2 : positive) (e1 e2 : Z) :
  valid (S754_finite s1 m1 e1) = true -> valid (S754_finite s2 m2 e2) = true ->
  e1 < e2 ->
  Zpos m1 * 2 ^ (e1 - emin) < Zpos m2 * 2 ^ (e2 - emin).
Proof.
  intros H1 H2 Hlt.
  destruct (valid_finite prec emax Hprec s1 m1 e1 H1) as ((Ha & _) & Hm1 & _).
  destruct (valid_finite prec emax Hprec s2 m2 e2 H2) as (_ & _ & [Hc | Hc]); [lia |].
  apply Z.lt_le_trans with (2 ^ prec * 2 ^ (e1 - emin)).
  - apply Z.mul_lt_mono_pos_r; [apply Z.pow_pos_nonneg; lia | exact Hm1].
  - apply Z.le_trans with (2 ^ (prec - 1) * 2 ^ (e2 - emin)).
    + rewrite <- !Z.pow_add_r by lia. apply Z.pow_le_mono_r; lia.
    + apply Z.mul_le_mono_nonneg_r; [apply Z.pow_nonneg; lia | exact Hc].
Qed.

Lemma compare_finite (s1 s2 : bool) (m1 m2 : positive) (e1 e2 : Z) :
  valid (S754_finite s1 m1 e1) = true -> valid (S754_finite s2 m2 e2) = true ->
  match e1 ?= e2 with
  | Lt => Lt
  | Gt => Gt
  | Eq => Pos.compare_cont Eq m1 m2
  end
  = (Zpos m1 * 2 ^ (e1 - emin) ?= Zpos m2 * 2 ^ (e2 - emin)).
Proof.
  intros H1 H2. destruct (Z.compare_spec e1 e2) as [E | Hlt | Hgt].
  - subst e2. destruct (valid_finite prec emax Hprec s1 m1 e1 H1) as ((Ha & _) & _).
    rewrite <- Zmult_compare_compat_r by (apply Z.lt_gt, Z.pow_pos_nonneg; lia).
    reflexivity.
  - symmetry. apply Z.compare_lt_iff.
    exact (smaller_exponent s1 s2 m1 m2 e1 e2 H1 H2 Hlt).
  - symmetry. apply Z.compare_gt_iff.
    exact (smaller_exponent s2 s1 m2 m1 e2 e1 H2 H1 Hgt).
Qed.

(** The comparison of two numbers of the format is that of their values,
    with the infinities at both ends. *)
Lemma SFcompare_value (x y : spec_float) :
  valid x = true -> valid y = true ->
  is_nan_sf x = false -> is_nan_sf y = false ->
  SFcompare x y = Some (value x ?= value y).
Proof.
  intros Hx Hy Nx Ny. pose proof (top_positive prec emax Hprec Hemax) as Htop.
  destruct x as [sx | sx | | sx mx ex]; try discriminate;
    destruct y as [sy | sy | | sy my ey]; try discriminate;
    cbn [SFcompare SF2Z].
  - reflexivity.
  - destruct sy; cbn [cond_Zopp]; f_equal; symmetry;
      [apply Z.compare_gt_iff | apply Z.compare_lt_iff]; lia.
  - pose proof (value_finite_bound prec emax Hprec sy my ey Hy).
    destruct sy; cbn [cond_Zopp]; f_equal; symmetry;
      [apply Z.compare_gt_iff | apply Z.compare_lt_iff]; lia.
  - destruct sx; cbn [cond_Zopp]; f_equal; symmetry;
      [apply Z.compare_lt_iff | apply Z.compare_gt_iff]; lia.
  - destruct sx, sy; cbn [cond_Zopp]; f_equal; symmetry;
      first [apply Z.compare_eq_iff | apply Z.compare_lt_iff | apply Z.compare_gt_iff];
      lia.
  - pose proof (value_finite_bound prec emax Hprec sy my ey Hy).
    destruct sx, sy; cbn [cond_Zopp]; f_equal; symmetry;
      first [apply Z.compare_lt_iff; lia | apply Z.compare_gt_iff; lia].
  - pose proof (value_finite_bound prec emax Hprec sx mx ex Hx).
    destruct sx; cbn [cond_Zopp]; f_equal; symmetry;
      [apply Z.compare_lt_iff | apply Z.compare_gt_iff]; lia.
  - pose proof (value_finite_bound prec emax Hprec sx mx ex Hx).
    destruct sx, sy; cbn [cond_Zopp]; f_equal; symmetry;
      first [apply Z.compare_lt_iff; lia | apply Z.compare_gt_iff; lia].
  - pose proof (value_finite_bound prec emax Hprec sx mx ex Hx).
    pose proof (value_finite_bound prec emax Hprec sy my ey Hy).
    destruct sx, sy; cbn [cond_Zopp]; f_equal.
    + rewrite Z.compare_opp, <- (compare_finite true true my mx ey ex Hy Hx).
      rewrite (Z.compare_antisym ey ex), (Pos.compare_cont_antisym mx my Eq).
      destruct (ey ?= ex); reflexivity.
    + symmetry. apply Z.compare_lt_iff. lia.
    + symmetry. apply Z.compare_gt_iff. lia.
    + exact (compare_finite false false mx my ex ey Hx Hy).
Qed.

Lemma SFleb_value (x y : spec_float) :
  valid x = true -> valid y = true ->
  is_nan_sf x = false -> is_nan_sf y = false ->
  SFleb x y = (value x <=? value y).
Proof.
  intros Hx Hy Nx Ny. unfold SFleb. rewrite (SFcompare_value x y Hx Hy Nx Ny).
  unfold Z.leb. destruct (value x ?= value y); reflexivity.
Qed.

Lemma SFltb_value (x y : spec_float) :
  valid x = true -> valid y = true ->
  is_nan_sf x = false -> is_nan_sf y = false ->
  SFltb x y = (value x <? value y).
Proof.
  intros Hx Hy Nx Ny. unfold SFltb. rewrite (SFcompare_value x y Hx Hy Nx Ny).
  unfold Z.ltb. destruct (value x ?= value y); reflexivity.
Qed.

End Order.

End RoundedMantissa.

(** ** Binary64 numbers through their values *)

Section Binary64Values.
Local Open Scope Z_scope.

Lemma b64_prec : 1 < prec.
Proof. reflexivity. Qed.

Lemma b64_emax : prec < emax.
Proof. reflexivity. Qed.

Lemma b64_top_positive : 0 < b64_top.
Proof. exact (top_positive prec emax b64_prec b64_emax). Qed.

Lemma b64_value_zero : b64_value 0%float = 0.
Proof. reflexivity. Qed.

Lemma b64_round_mono (S1 S2 : Z) : S1 <= S2 -> b64_round S1 <= b64_round S2.
Proof. apply (rnd_signed_mono prec emax b64_prec b64_emax). lia. Qed.

Lemma b64_round_zero : b64_round 0 = 0.
Proof. apply (rnd_signed_zero prec emax). lia. Qed.

Lemma b64_round_product_mono (P1 P2 : Z) :
  P1 <= P2 -> b64_round_product P1 <= b64_round_product P2.
Proof.
  apply (rnd_signed_mono prec emax b64_prec b64_emax).
  pose proof (emin_negative prec emax b64_prec b64_emax). lia.
Qed.

Lemma b64_round_product_zero : b64_round_product 0 = 0.
Proof.
  apply (rnd_signed_zero prec emax).
  pose proof (emin_negative prec emax b64_prec b64_emax). lia.
Qed.

Lemma b64_finite_number (x : float) : b64_finite x = true -> b64_nan x = false.
Proof.
  unfold b64_finite, b64_nan. destruct (Prim2SF x); try discriminate; reflexivity.
Qed.

(** The finite numbers are the numbers strictly between the infinities. *)
Lemma b64_finite_bounds (x : float) :
  b64_finite x = true
  <-> b64_nan x = false /\ - b64_top < b64_value x < b64_top.
Proof.
  split.
  - intros H. split; [exact (b64_finite_number x H) |].
    exact (value_bound prec emax b64_prec b64_emax (Prim2SF x) (Prim2SF_valid x) H).
  - unfold b64_finite, b64_nan, b64_value, b64_top.
    destruct (Prim2SF x) as [s | s | | s m e]; cbn [is_finite_sf is_nan_sf SF2Z];
      intros [H Hb]; try reflexivity; try discriminate H.
    destruct s; cbn [cond_Zopp] in Hb; lia.
Qed.

Lemma b64_round_value (x : float) :
  b64_finite x = true -> b64_round (b64_value x) = b64_value x.
Proof.
  exact (rnd_signed_value prec emax b64_prec (Prim2SF x) (Prim2SF_valid x)).
Qed.

Lemma b64_leb_value (x y : float) :
  b64_nan x = false -> b64_nan y = false ->
  PrimFloat.leb x y = (b64_value x <=? b64_value y).
Proof.
  intros Nx Ny. rewrite leb_spec.
  exact (SFleb_value prec emax b64_prec b64_emax _ _
           (Prim2SF_valid x) (Prim2SF_valid y) Nx Ny).
Qed.

Lemma b64_ltb_value (x y : float) :
  b64_nan x = false -> b64_nan y = false ->
  PrimFloat.ltb x y = (b64_value x <? b64_value y).
Proof.
  intros Nx Ny. rewrite ltb_spec.
  exact (SFltb_value prec emax b64_prec b64_emax _ _
           (Prim2SF_valid x) (Prim2SF_valid y) Nx Ny).
Qed.

(** A comparison that holds is between numbers. *)
Lemma b64_leb_numbers (x y : float) :
  PrimFloat.leb x y = true ->
  b64_nan x = false /\ b64_nan y = false /\ b64_value x <= b64_value y.
Proof.
  intros H.
  assert (Hn : b64_nan x = false /\ b64_nan y = false).
  { rewrite leb_spec in H. unfold b64_nan, SFleb in *.
    destruct (Prim2SF x), (Prim2SF y); try discriminate H; split; reflexivity. }
  destruct Hn as [Nx Ny]. rewrite (b64_leb_value x y Nx Ny) in H.
  apply Z.leb_le in H. auto.
Qed.

Lemma b64_ltb_numbers (x y : float) :
  PrimFloat.ltb x y = true ->
  b64_nan x = false /\ b64_nan y = false /\ b64_value x < b64_value y.
Proof.
  intros H.
  assert (Hn : b64_nan x = false /\ b64_nan y = false).
  { rewrite ltb_spec in H. unfold b64_nan, SFltb in *.
    destruct (Prim2SF x), (Prim2SF y); try discriminate H; split; reflexivity. }
  destruct Hn as [Nx Ny]. rewrite (b64_ltb_value x y Nx Ny) in H.
  apply Z.ltb_lt in H. auto.
Qed.

Lemma b64_add_value (x y : float) :
  b64_finite x = true -> b64_finite y = true ->
  b64_nan (x + y) = false
  /\ b64_value (x + y) = b64_round (b64_value x + b64_value y).
Proof.
  intros Fx Fy. unfold b64_nan, b64_value. rewrite add_spec.
  exact (SFadd_value prec emax b64_prec b64_emax _ _
           (Prim2SF_valid x) (Prim2SF_valid y) Fx Fy).
Qed.


Lemma b64_mul_value (x y : float) :
  b64_finite x = true -> b64_finite y = true ->
  b64_nan (x * y) = false
  /\ b64_value (x * y) = b64_round_product (b64_value x * b64_value y).
Proof.
  intros Fx Fy. unfold b64_nan, b64_value. rewrite mul_spec.
  exact (SFmul_value prec emax b64_prec b64_emax _ _
           (Prim2SF_valid x) (Prim2SF_valid y) Fx Fy).
Qed.





End Binary64Values.

(** ** Monotone binary64 operations *)

Section Binary64Monotone.
Local Open Scope Z_scope.

Lemma b64_number_bounds (x : float) :
  b64_nan x = false -> - b64_top <= b64_value x <= b64_top.
Proof.
  pose proof b64_top_positive as Htop.
  destruct (b64_finite x) eqn:F.
  - apply b64_finite_bounds in F. lia.
  - unfold b64_nan, b64_finite, b64_value, b64_top in *.
    destruct (Prim2SF x) as [s | s | | s m e];
      cbn [is_finite_sf is_nan_sf SF2Z] in *; try discriminate.
    intros _. destruct s; cbn [cond_Zopp]; lia.
Qed.


Lemma b64_zero_finite : b64_finite 0%float = true.
Proof. reflexivity. Qed.





Lemma b64_add_zero (tx : float) :
  b64_finite tx = true -> b64_value (tx + 0) = b64_value tx.
Proof.
  intros F. destruct (b64_add_value tx 0 F eq_refl) as [_ ->].
  rewrite b64_value_zero, Z.add_0_r. apply b64_round_value, F.
Qed.

End Binary64Monotone.

(** ** Signs of binary64 results, infinities and NaN included *)

Section Binary64Signs.
Local Open Scope Z_scope.

Lemma b64_zero_number : b64_nan 0%float = false.
Proof. reflexivity. Qed.

Ltac by_cases_on_infinities :=
  cbn [is_finite_sf SFadd SFsub SFmul SFleb SFltb SFcompare negb xorb];
  intros;
  repeat match goal with
         | s : bool |- _ => destruct s
         end;
  cbn [is_finite_sf SFadd SFsub SFmul SFleb SFltb SFcompare negb xorb] in *;
  first [discriminate | reflexivity].


Lemma b64_product_not_negative (d r : float) :
  PrimFloat.ltb d 0 = false -> PrimFloat.leb 0 r = true ->
  PrimFloat.ltb (d * r) 0 = false.
Proof.
  intros Hd Hr. destruct (b64_leb_numbers 0 r Hr) as (_ & Nr & Vr).
  rewrite b64_value_zero in Vr.
  destruct (b64_finite d) eqn:Fd, (b64_finite r) eqn:Fr.
  1:{ destruct (b64_mul_value d r Fd Fr) as [Np Ep].
      rewrite (b64_ltb_value _ 0%float (b64_finite_number d Fd) b64_zero_number), b64_value_zero in Hd.
      apply Z.ltb_ge in Hd.
      rewrite (b64_ltb_value _ 0%float Np b64_zero_number), Ep, b64_value_zero.
      apply Z.ltb_ge. rewrite <- b64_round_product_zero.
      apply b64_round_product_mono. nia. }
  all: revert Hd Hr Fd Fr; unfold b64_finite; rewrite !ltb_spec, leb_spec, mul_spec;
    unfold SF64mul; change (Prim2SF 0) with (S754_zero false);
    destruct (Prim2SF d) as [sd | sd | | sd md ed],
             (Prim2SF r) as [sr | sr | | sr mr er];
    by_cases_on_infinities.
Qed.

Lemma b64_sum_not_negative (p q : float) :
  PrimFloat.ltb p 0 = false -> PrimFloat.ltb q 0 = false ->
  PrimFloat.ltb (p + q) 0 = false.
Proof.
  intros Hp Hq.
  destruct (b64_finite p) eqn:Fp, (b64_finite q) eqn:Fq.
  1:{ destruct (b64_add_value p q Fp Fq) as [Ns Es].
      rewrite (b64_ltb_value _ 0%float (b64_finite_number p Fp) b64_zero_number), b64_value_zero in Hp.
      rewrite (b64_ltb_value _ 0%float (b64_finite_number q Fq) b64_zero_number), b64_value_zero in Hq.
      apply Z.ltb_ge in Hp, Hq.
      rewrite (b64_ltb_value _ 0%float Ns b64_zero_number), Es, b64_value_zero.
      apply Z.ltb_ge. rewrite <- b64_round_zero. apply b64_round_mono. lia. }
  all: revert Hp Hq Fp Fq; unfold b64_finite; rewrite !ltb_spec, add_spec;
    unfold SF64add; change (Prim2SF 0) with (S754_zero false);
    destruct (Prim2SF p) as [sp | sp | | sp mp ep],
             (Prim2SF q) as [sq | sq | | sq mq eq];
    by_cases_on_infinities.
Qed.




Lemma b64_max_value (a b : float) :
  b64_nan a = false -> b64_nan b = false ->
  b64_nan (py_max a b) = false
  /\ b64_value (py_max a b) = Z.max (b64_value a) (b64_value b).
Proof.
  intros Na Nb. unfold py_max. cbn [flt Binary64].
  rewrite (b64_ltb_value a b Na Nb).
  destruct (Z.ltb_spec (b64_value a) (b64_value b)); split; try assumption; lia.
Qed.

End Binary64Signs.

(** ** The brackets and the surcharges on binary64 *)

Section TaxMonotone.
Local Open Scope Z_scope.

Lemma b64_literal_zero : lit (F:=float) 0.0 = 0%float /\ of_int (F:=float) 0 = 0%float.
Proof. split; reflexivity. Qed.






End TaxMonotone.

(** ** The surcharges on binary64 *)

Section SurchargeMonotone.
Local Open Scope Z_scope.





End SurchargeMonotone.




(** ** Further consequences on binary64 *)

Section BelowTheTable.
Local Open Scope Z_scope.

Lemma bracket_loop_below (income : float) (table : list (TaxBracket float)) :
  thresholds_increasing table = true ->
  match table with
  | [] => True
  | first :: _ => PrimFloat.leb income (threshold first) = true
  end ->
  bracket_loop income table 0%float = 0%float.
Proof.
  induction table as [ | bracket later IH]; intros Hinc Hfirst.
  - reflexivity.
  - destruct (b64_leb_numbers _ _ Hfirst) as (Nx & Nt & Vt).
    assert (Einactive : PrimFloat.ltb (threshold bracket) income = false).
    { rewrite (b64_ltb_value _ _ Nt Nx). apply Z.ltb_ge. exact Vt. }
    destruct later as [ | next rest].
    + cbn [bracket_loop fadd fsub fmul flt of_int Binary64]. rewrite Einactive.
      reflexivity.
    + change (bracket_loop income (bracket :: next :: rest) 0%float)
        with (bracket_loop income (next :: rest)
                (if PrimFloat.ltb (threshold bracket) income
                 then (0 + (py_min income (threshold next) - threshold bracket)
                           * rate bracket)%float
                 else 0%float)).
      change (thresholds_increasing (bracket :: next :: rest))
        with (PrimFloat.ltb (threshold bracket) (threshold next)
              && thresholds_increasing (next :: rest))%bool in Hinc.
      apply andb_prop in Hinc as [Hnext Hinc].
      rewrite Einactive. apply (IH Hinc).
      destruct (b64_ltb_numbers _ _ Hnext) as (_ & Nnext & Vnext).
      rewrite (b64_leb_value _ _ Nx Nnext). apply Z.leb_le. lia.
Qed.

End BelowTheTable.

(** X4: on binary64, for a table with strictly increasing thresholds, an
    income at or below the first threshold is not taxed: the result of
    [compute_bracket_tax] is 0.0, whatever the rates. *)
Theorem income_below_first_threshold_untaxed :
  forall (bracket : TaxBracket float) (later : list (TaxBracket float))
         (income : float),
    thresholds_increasing (bracket :: later) = true ->
    (income <=? threshold bracket)%py = true ->
    compute_bracket_tax income (bracket :: later) = 0%float.
Proof.
  intros bracket later income Hinc Hbelow. unfold compute_bracket_tax.
  change (lit (F:=float) 0.0) with 0%float.
  rewrite (bracket_loop_below income (bracket :: later) Hinc Hbelow). reflexivity.
Qed.

Lemma income_below_first_threshold_untaxed_witness :
  compute_bracket_tax (F:=float) (of_int 10000)
    [ {| threshold := of_int 10000; rate := lit 0.10 |};
      {| threshold := of_int 50000; rate := lit 0.20 |} ]
  = 0%float.
Proof.
  apply (income_below_first_threshold_untaxed
           {| threshold := of_int 10000; rate := lit 0.10 |}
           [ {| threshold := of_int 50000; rate := lit 0.20 |} ] (of_int 10000));
    vm_compute; reflexivity.
Defined.

Section SurchargeSign.

Lemma surcharge_fold_not_negative (income : float) (rules : list (Surcharge float)) :
  forallb (fun s => PrimFloat.leb 0 (get_or (surcharge_rate s) 0%float)) rules = true ->
  forall total : float,
    PrimFloat.ltb total 0 = false ->
    PrimFloat.ltb
      (fold_left
         (fun total s =>
            (total
             + get_or (surcharge_rate s) 0
               * py_max (income - get_or (surcharge_threshold s) 0) 0)%float)
         rules total) 0 = false.
Proof.
  induction rules as [ | s rest IH]; intros Hrates total Htotal.
  - exact Htotal.
  - cbn [forallb] in Hrates. apply andb_prop in Hrates as [Hrate Hrates].
    cbn [fold_left]. apply (IH Hrates).
    apply b64_sum_not_negative; [exact Htotal |].
    rewrite b64_mul_comm. apply b64_product_not_negative; [| exact Hrate].
    apply b64_max_zero_r.
Qed.

End SurchargeSign.

(** X23: on binary64, rules whose rates are not negative never lower the
    tax: whatever the income and the thresholds, and whatever overflows,
    [compute_surcharges] returns no value below zero. *)
Theorem surcharges_not_negative :
  forall (rules : option (list (Surcharge float))) (income : float),
    surcharge_rates_nonnegative rules = true ->
    (compute_surcharges income rules <? of_int 0)%py = false.
Proof.
  intros rules income Hrates.
  exact (surcharge_fold_not_negative income (get_or rules []) Hrates 0%float eq_refl).
Qed.

Lemma surcharges_not_negative_witness :
  (compute_surcharges (F:=float) (of_int 2000000) (surcharges (status_params 0))
   <? of_int 0)%py = false.
Proof.
  apply (surcharges_not_negative (surcharges (status_params 0)) (of_int 2000000)).
  vm_compute. reflexivity.
Defined.
